(** * needler: peptide targeting optimizer (src/needler.py)

    A shallow embedding of [Needler.load], [Needler.build_model],
    [Needler.save] and [Needler.optimize], and the properties of the
    constraint model and of the anytime search loop.

    Conventions.
    - A pandas DataFrame is a header (the csv column names) and a list of
      rows; the columns that the program adds are fields of the row.
    - The column [prosit_predicted_rt_seconds] is numeric: int64 when every
      cell of the csv is an integer, float64 otherwise. Arithmetic on it is
      numpy's: int64 wraps around, float64 is IEEE 754 binary64 with
      rounding to nearest even (the Standard Library's [SpecFloat]);
      [astype(int)] rejects NaN and infinities and truncates toward zero.
    - Python exceptions are an error value of [result].
    - [uuid.uuid4], [DataFrame.sample], [random.shuffle] and the iteration
      order of a [set] of strings are taken from an [Entropy] record.
    - The z3 engine is external: its expressions are a small syntax with the
      engine's documented meaning, [solver.check()] is an oracle, and
      [datetime.now()] is a clock oracle (integer microseconds). The bound
      of [z3.AtMost] is a C unsigned int: z3py reduces it modulo 2^32 and
      z3 refuses a value of 2^31 or more.
    - The file system is what [save] reaches of it: whether the directory
      of [dst] exists, and the contents of [dst] and of its temporary
      file. *)

From Stdlib Require Import List String Ascii ZArith QArith Bool Lia.
From Stdlib Require Import Permutation Sorted SpecFloat.
Import ListNotations.

Local Open Scope string_scope.
Local Open Scope list_scope.
Local Open Scope Z_scope.

(* ------------------------------------------------------------------ *)
(** ** Exceptions *)

Inductive exn : Type :=
| AttributeError (attr : string)
| KeyError (key : string)
| NameError (ident : string)
| UnboundLocalError (ident : string)
| ArgumentError (msg : string)
| Z3Exception (msg : string)
| FileNotFoundError (path : string)
| ValueError (msg : string).

Inductive result (A : Type) : Type :=
| Ok (a : A)
| Raise (e : exn).

Arguments Ok {A} a.
Arguments Raise {A} e.

Definition bind {A B : Type} (r : result A) (k : A -> result B) : result B :=
  match r with
  | Ok a => k a
  | Raise e => Raise e
  end.

Notation "x <- c ;; k" := (bind c (fun x => k))
  (at level 61, c at next level, right associativity).

(* ------------------------------------------------------------------ *)
(** ** Numeric cells *)

(** A cell of a numeric column: a 64-bit integer (a value of
    [[-2^63, 2^63)]) or a binary64 float. *)
Inductive Number : Type :=
| Int64 (z : Z)
| Float64 (f : spec_float).

Definition prec : Z := 53.
Definition emax : Z := 1024.

(** The binary64 float [m * 2^e], rounded to nearest even. *)
Definition float64 (m e : Z) : Number :=
  Float64 (binary_normalize prec emax m e false).

(** int64 arithmetic of numpy: the result wraps around. *)
Definition wrap64 (z : Z) : Z :=
  (z + 9223372036854775808) mod 18446744073709551616 - 9223372036854775808.

(** A Python int as a float64 operand. *)
Definition float_of_int (z : Z) : spec_float :=
  binary_normalize prec emax z 0 false.

Definition is_float (x : Number) : bool :=
  match x with
  | Float64 _ => true
  | Int64 _ => false
  end.

(** The cell in the dtype of its column: in a float64 column an integer
    cell is a float. *)
Definition as_dtype (float_column : bool) (x : Number) : Number :=
  match x with
  | Int64 z => if float_column then Float64 (float_of_int z) else x
  | Float64 _ => x
  end.

(** [column - w] and [column + w] for a Python int [w] that fits 64 bits,
    cell by cell. *)
Definition sub_int (x : Number) (w : Z) : Number :=
  match x with
  | Int64 z => Int64 (wrap64 (z - w))
  | Float64 f => Float64 (SFsub prec emax f (float_of_int w))
  end.

Definition add_int (x : Number) (w : Z) : Number :=
  match x with
  | Int64 z => Int64 (wrap64 (z + w))
  | Float64 f => Float64 (SFadd prec emax f (float_of_int w))
  end.

Definition finite (x : Number) : bool :=
  match x with
  | Float64 (S754_infinity _) => false
  | Float64 S754_nan => false
  | _ => true
  end.

(** A finite float truncated toward zero. *)
Definition trunc_float (f : spec_float) : Z :=
  match f with
  | S754_finite s m e =>
      let v := if 0 <=? e then Zpos m * 2 ^ e
               else Z.quot (Zpos m) (2 ^ (- e)) in
      if s then - v else v
  | _ => 0
  end.

(** The cast of one cell to int64. A float beyond the int64 range has no
    defined result in C; x86-64 gives the least int64. *)
Definition cast_int64 (x : Number) : Z :=
  match x with
  | Int64 z => z
  | Float64 f =>
      let v := trunc_float f in
      if (-9223372036854775808 <=? v) && (v <? 9223372036854775808) then v
      else -9223372036854775808
  end.

(** The value of a cell as a rational (0 for NaN and the infinities). *)
Definition to_Q (x : Number) : Q :=
  match x with
  | Int64 z => inject_Z z
  | Float64 (S754_finite s m e) =>
      let v := if 0 <=? e then inject_Z (Zpos m * 2 ^ e)
               else Qmake (Zpos m) (Z.to_pos (2 ^ (- e))) in
      if s then Qopp v else v
  | Float64 _ => 0%Q
  end.

(* ------------------------------------------------------------------ *)
(** ** DataFrame *)

Record Row : Type := mkRow {
  accession : string;
  isoform : string;
  name : string;
  gene : string;
  peptide_sequence : string;
  peptide : string;
  prosit_predicted_rt_seconds : Number;
  (* columns added by the program *)
  protein_id : string;
  peptide_id : string;
  protein_peps : Z;
  rt_start : Z;
  rt_stop : Z;
  peptide_in_model : bool;
  protein_is_targeted : bool
}.

Record DataFrame : Type := mkDataFrame {
  columns : list string;   (* header of the csv file *)
  rows : list Row
}.

Definition has_column (d : DataFrame) (c : string) : bool :=
  existsb (String.eqb c) (columns d).

(** [df.<c>] on a column of the csv: AttributeError when it is absent. *)
Definition getattr (d : DataFrame) (c : string) : result unit :=
  if has_column d c then Ok tt else Raise (AttributeError c).

Definition set_protein_id (v : string) (r : Row) : Row :=
  mkRow (accession r) (isoform r) (name r) (gene r) (peptide_sequence r)
        (peptide r) (prosit_predicted_rt_seconds r)
        v (peptide_id r) (protein_peps r) (rt_start r) (rt_stop r)
        (peptide_in_model r) (protein_is_targeted r).

Definition set_peptide_id (v : string) (r : Row) : Row :=
  mkRow (accession r) (isoform r) (name r) (gene r) (peptide_sequence r)
        (peptide r) (prosit_predicted_rt_seconds r)
        (protein_id r) v (protein_peps r) (rt_start r) (rt_stop r)
        (peptide_in_model r) (protein_is_targeted r).

Definition set_protein_peps (v : Z) (r : Row) : Row :=
  mkRow (accession r) (isoform r) (name r) (gene r) (peptide_sequence r)
        (peptide r) (prosit_predicted_rt_seconds r)
        (protein_id r) (peptide_id r) v (rt_start r) (rt_stop r)
        (peptide_in_model r) (protein_is_targeted r).

Definition set_rt (a b : Z) (r : Row) : Row :=
  mkRow (accession r) (isoform r) (name r) (gene r) (peptide_sequence r)
        (peptide r) (prosit_predicted_rt_seconds r)
        (protein_id r) (peptide_id r) (protein_peps r) a b
        (peptide_in_model r) (protein_is_targeted r).

Definition set_flags (used targeted : bool) (r : Row) : Row :=
  mkRow (accession r) (isoform r) (name r) (gene r) (peptide_sequence r)
        (peptide r) (prosit_predicted_rt_seconds r)
        (protein_id r) (peptide_id r) (protein_peps r) (rt_start r) (rt_stop r)
        used targeted.

(* ------------------------------------------------------------------ *)
(** ** Python and pandas helpers *)

Definition mem (x : string) (l : list string) : bool :=
  existsb (String.eqb x) l.

(** [Series.nunique()] *)
Definition nunique (l : list string) : nat :=
  List.length (nodup string_dec l).

(** [list(dict.fromkeys(l))]: first occurrences, in order. *)
Fixpoint dict_fromkeys (l : list string) : list string :=
  match l with
  | [] => []
  | x :: t => x :: remove string_dec x (dict_fromkeys t)
  end.

Fixpoint insert_sorted (x : string) (l : list string) : list string :=
  match l with
  | [] => [x]
  | y :: t => if String.leb x y then x :: y :: t else y :: insert_sorted x t
  end.

(** [sorted(set(l))] *)
Definition sorted_set (l : list string) : list string :=
  fold_right insert_sorted [] (nodup string_dec l).

(** Stable insertion by the key [protein_peps], as
    [sort_values(["protein_peps"], kind="mergesort")]. *)
Fixpoint insert_by_peps (x : Row) (l : list Row) : list Row :=
  match l with
  | [] => [x]
  | y :: t =>
      if protein_peps x <=? protein_peps y then x :: y :: t
      else y :: insert_by_peps x t
  end.

Definition sort_values_protein_peps (l : list Row) : list Row :=
  fold_right insert_by_peps [] l.

(** [Series.max()] and [Series.min()]; [None] is the NaN of an empty series. *)
Definition series_max (l : list Z) : option Z :=
  match l with
  | [] => None
  | x :: t => Some (fold_left Z.max t x)
  end.

Definition series_min (l : list Z) : option Z :=
  match l with
  | [] => None
  | x :: t => Some (fold_left Z.min t x)
  end.

(** [list(range(a, b))] *)
Definition range (a b : Z) : list Z :=
  map (fun i => a + Z.of_nat i) (seq 0 (Z.to_nat (b - a))).

(** [Series.astype(int)]: pandas refuses a column that holds NaN or an
    infinity, and casts the cells of any other. *)
Definition astype_int (col : list Number) : result (list Z) :=
  if forallb finite col then Ok (map cast_int64 col)
  else Raise (ValueError
                "Cannot convert non-finite values (NA or inf) to integer").

(** The dtype that [pd.read_csv] gives the column
    [prosit_predicted_rt_seconds]: float64 ([true]) when some cell is not
    an integer. *)
Definition float_column (d : DataFrame) : bool :=
  existsb is_float (map prosit_predicted_rt_seconds (rows d)).

(** Python's [round]: to the nearest integer, ties to the even one. *)
Definition py_round (q : Q) : Z :=
  let n := Qnum q in
  let d := Zpos (Qden q) in
  let f := n / d in
  let r2 := 2 * (n - f * d) in
  if r2 <? d then f
  else if d <? r2 then f + 1
  else if Z.even f then f else f + 1.

(** the peptide ids of the rows of one protein *)
Definition peptide_ids_of (prot : string) (l : list Row) : list string :=
  map peptide_id (filter (fun r => String.eqb (protein_id r) prot) l).

(** [groupby(["protein_id"]).peptide_id.transform(lambda x: x.nunique())] *)
Definition transform_nunique (l : list Row) : list Row :=
  map (fun r =>
         set_protein_peps (Z.of_nat (nunique (peptide_ids_of (protein_id r) l))) r)
      l.

(* ------------------------------------------------------------------ *)
(** ** Sources of randomness and of unspecified order *)

Record Entropy : Type := mkEntropy {
  uuid4 : nat -> string;                       (* the n-th uuid drawn *)
  sample : list Row -> list Row;               (* df.sample(frac=1) *)
  random_shuffle : forall A : Type, nat -> list A -> list A;
                                               (* the n-th random.shuffle *)
  hash_order : list string -> list string      (* iteration order of a set *)
}.

Record EntropyOk (e : Entropy) : Prop := mkEntropyOk {
  uuid4_fresh : forall i j, uuid4 e i = uuid4 e j -> i = j;
  sample_perm : forall l, Permutation l (sample e l);
  random_shuffle_perm :
    forall (A : Type) n (l : list A), Permutation l (random_shuffle e A n l);
  hash_order_perm : forall l, Permutation l (hash_order e l)
}.

(** [set(l)] followed by an iteration over it. *)
Definition py_set (e : Entropy) (l : list string) : list string :=
  hash_order e (nodup string_dec l).

(* ------------------------------------------------------------------ *)
(** ** Command line namespace and constructor arguments *)

Module Namespace.
Record t : Type := mk {
  shuffle : bool;
  peps_per_prot : Z
}.
End Namespace.

(** The module-level name [args]: bound only when the file runs as a
    script. *)
Definition Globals : Type := option Namespace.t.

Definition global_args (g : Globals) : result Namespace.t :=
  match g with
  | Some a => Ok a
  | None => Raise (NameError "args")
  end.

Record Needler : Type := mkNeedler {
  db_src : DataFrame;       (* what pd.read_csv(self.db_src) returns *)
  dst : string;             (* path of the csv result *)
  rt_width : Z;
  targets_per_cycle : Z;
  timeout : Z;
  peps_per_prot : Z;
  shuffle : bool;
  sort_groups : bool
}.

Definition set_shuffle (b : bool) (self : Needler) : Needler :=
  mkNeedler (db_src self) (dst self) (rt_width self) (targets_per_cycle self)
            (timeout self) (peps_per_prot self) b (sort_groups self).

Definition set_peps_per_prot (k : Z) (self : Needler) : Needler :=
  mkNeedler (db_src self) (dst self) (rt_width self) (targets_per_cycle self)
            (timeout self) k (shuffle self) (sort_groups self).

(* ------------------------------------------------------------------ *)
(** ** Needler.load *)

Inductive LogRecord : Type :=
| DroppingProteins (removed : nat)
| AdjustingNegative (peptides : nat).

Record Loaded : Type := mkLoaded {
  df : DataFrame;
  protein_order : list string;
  peptide_order : list string;
  log : list LogRecord
}.

(** Lines 96-102: the minimum-peptide filter. *)
Definition drop_insufficient (self : Needler) (g : Globals) (l : list Row)
  : result (list Row * list LogRecord) :=
  let bidx := fun r => protein_peps r <? peps_per_prot self in
  if existsb bidx l then
    let acc_count_removed := nunique (map protein_id (filter bidx l)) in
    args <- global_args g ;;
    Ok (filter (fun r => Namespace.peps_per_prot args <=? protein_peps r) l,
        [DroppingProteins acc_count_removed])
  else Ok (l, []).

Fixpoint assoc (k : string) (m : list (string * string)) : option string :=
  match m with
  | [] => None
  | (k', v) :: t => if String.eqb k k' then Some v else assoc k t
  end.

(** [Series.replace(mapping)] *)
Definition replace (m : list (string * string)) (v : string) : string :=
  match assoc v m with
  | Some v' => v'
  | None => v
  end.

Fixpoint apply_uuid (e : Entropy) (n : nat) (l : list Row) : list Row :=
  match l with
  | [] => []
  | r :: t => set_peptide_id (uuid4 e n) r :: apply_uuid e (S n) t
  end.

(** Lines 106-121: fresh identifiers and a random row order. *)
Definition shuffle_ids (e : Entropy) (l : list Row) : list Row :=
  let groups := sorted_set (map protein_id l) in
  let accession_guid := combine groups (map (uuid4 e) (seq 0 (List.length groups))) in
  let l1 := map (fun r => set_protein_id (replace accession_guid (protein_id r)) r) l in
  let l2 := apply_uuid e (List.length groups) l1 in
  sample e l2.

(** [df["rt_start"] = starts; df["rt_stop"] = stops], row by row. *)
Fixpoint assign_rt (l : list Row) (starts stops : list Z) : list Row :=
  match l, starts, stops with
  | r :: l', a :: starts', b :: stops' =>
      set_rt a b r :: assign_rt l' starts' stops'
  | _, _, _ => []
  end.

(** Lines 134-139 on one row whose shifted times are finite. *)
Definition window (dtype : bool) (w : Z) (r : Row) : Row :=
  let t := as_dtype dtype (prosit_predicted_rt_seconds r) in
  set_rt (cast_int64 (sub_int t w)) (cast_int64 (add_int t w)) r.

Definition load (e : Entropy) (self : Needler) (g : Globals) : result Loaded :=
  let d := db_src self in
  _ <- getattr d "accession" ;;
  let l := map (fun r => set_protein_id (accession r) r) (rows d) in
  _ <- getattr d "peptide_sequence" ;;
  let l := map (fun r => set_peptide_id (peptide_sequence r) r) l in
  let l := transform_nunique l in
  dropped <- drop_insufficient self g l ;;
  let l := fst dropped in
  let protein_order0 := sorted_set (map protein_id l) in
  let peptide_order0 := sorted_set (map peptide_id l) in
  let l1 := if shuffle self then shuffle_ids e l else l in
  let peptide_order1 :=
    if shuffle self then dict_fromkeys (map peptide_id l1) else peptide_order0 in
  let protein_order1 :=
    if shuffle self then dict_fromkeys (map protein_id l1) else protein_order0 in
  let l2 := if sort_groups self then sort_values_protein_peps l1 else l1 in
  let protein_order2 :=
    if sort_groups self then dict_fromkeys (map protein_id l2) else protein_order1 in
  _ <- getattr d "prosit_predicted_rt_seconds" ;;
  let times :=
    map (fun r => as_dtype (float_column d) (prosit_predicted_rt_seconds r))
        l2 in
  starts <- astype_int (map (fun t => sub_int t (rt_width self)) times) ;;
  stops <- astype_int (map (fun t => add_int t (rt_width self)) times) ;;
  let l3 := assign_rt l2 starts stops in
  let negative := List.length (filter (fun r => rt_start r <? 0) l3) in
  let adjusted :=
    if (0 <? negative)%nat then [AdjustingNegative negative] else [] in
  Ok (mkLoaded (mkDataFrame (columns d) l3) protein_order2 peptide_order1
               (snd dropped ++ adjusted)).

(* ------------------------------------------------------------------ *)
(** ** The satisfiability engine (z3), as the program uses it *)

(** [z3.Bool(name)]: two calls with one name give one variable. *)
Inductive BoolVar : Type :=
| Bool (ident : string).

Definition var_name (v : BoolVar) : string :=
  match v with Bool n => n end.

Inductive BoolRef : Type :=
| AtMost (vars : list BoolVar) (k : Z)
| PbEq (terms : list (BoolVar * Z)) (k : Z)
| Or (a b : BoolRef).

(** [z3.If(c, a, b)] with integer branches *)
Inductive ArithRef : Type :=
| If (c : BoolRef) (a b : Z).

(** What [solver.add] receives: a boolean expression, or
    [z3.Sum(terms) > n]. *)
Inductive Assertion : Type :=
| Assert (b : BoolRef)
| SumGt (terms : list ArithRef) (n : Z).

(** [z3.is_true(model[v])] for each declared variable *)
Definition Model : Type := string -> bool.

Definition count_true (m : Model) (vars : list BoolVar) : Z :=
  Z.of_nat (List.length (filter (fun v => m (var_name v)) vars)).

Definition pb_sum (m : Model) (terms : list (BoolVar * Z)) : Z :=
  fold_right (fun p acc => (if m (var_name (fst p)) then snd p else 0) + acc)
             0 terms.

Fixpoint eval_bool (m : Model) (b : BoolRef) : bool :=
  match b with
  | AtMost vars k => count_true m vars <=? k
  | PbEq terms k => pb_sum m terms =? k
  | Or a b => eval_bool m a || eval_bool m b
  end.

Definition eval_arith (m : Model) (t : ArithRef) : Z :=
  match t with If c a b => if eval_bool m c then a else b end.

Definition sum_terms (m : Model) (ts : list ArithRef) : Z :=
  fold_right (fun t acc => eval_arith m t + acc) 0 ts.

Definition holds (m : Model) (a : Assertion) : bool :=
  match a with
  | Assert b => eval_bool m b
  | SumGt ts n => n <? sum_terms m ts
  end.

(** [m] is a solution of the assertions [cs]. *)
Definition models (m : Model) (cs : list Assertion) : Prop :=
  Forall (fun a => holds m a = true) cs.

Record Solver : Type := mkSolver {
  assertions : list Assertion;     (* in the order of solver.add *)
  timeout_ms : option Z            (* solver.set("timeout", ...) *)
}.

Definition solver_add (a : Assertion) (s : Solver) : Solver :=
  mkSolver (assertions s ++ [a]) (timeout_ms s).

Definition solver_set_timeout (ms : Z) (s : Solver) : Solver :=
  mkSolver (assertions s) (Some ms).

(** A Python int handed to a C [unsigned int] parameter: ctypes keeps its
    low 32 bits. *)
Definition c_uint (k : Z) : Z := k mod 4294967296.

(** [z3.AtMost( *vars, k)]: z3 rejects a call without a variable; [k] is
    [None] when the program passes NaN. The bound reaches [Z3_mk_atmost]
    as a C [unsigned int], and z3 reads that as a signed parameter which
    it rejects when negative: bounds that reduce to [2^31] or more
    raise, the others are taken modulo [2^32]. *)
Definition z3_AtMost (vars : list BoolVar) (k : option Z) : result BoolRef :=
  match vars, k with
  | [], _ => Raise (Z3Exception "Non empty list of arguments expected")
  | _ :: _, None => Raise (ArgumentError "k")
  | _ :: _, Some k =>
      if c_uint k <? 2147483648 then Ok (AtMost vars (c_uint k))
      else Raise (Z3Exception
                    "function expects one non-negative integer parameter")
  end.

Inductive CheckSatResult : Type :=
| sat (m : Model)
| unsat
| unknown.

(** The engine's answer to the n-th [solver.check()] on the current solver,
    and the n-th reading of [datetime.datetime.now()] in microseconds. *)
Record Oracle : Type := mkOracle {
  check : nat -> Solver -> CheckSatResult;
  now : nat -> Z
}.

(* ------------------------------------------------------------------ *)
(** ** Needler.build_model *)

Record Built : Type := mkBuilt {
  solver : Solver;
  peptides : list (string * BoolVar);
  proteins_targeted : list ArithRef
}.

Fixpoint foldM {A S : Type} (f : S -> A -> result S) (l : list A) (s : S)
  : result S :=
  match l with
  | [] => Ok s
  | x :: t => s' <- f s x ;; foldM f t s'
  end.

(** [self.peptides[pid]] *)
Fixpoint dict_get (pid : string) (d : list (string * BoolVar)) : result BoolVar :=
  match d with
  | [] => Raise (KeyError pid)
  | (k, v) :: t => if String.eqb pid k then Ok v else dict_get pid t
  end.

(** [[self.peptides[pid] for pid in ids]] *)
Fixpoint lookup_all (d : list (string * BoolVar)) (ids : list string)
  : result (list BoolVar) :=
  match ids with
  | [] => Ok []
  | pid :: t => v <- dict_get pid d ;; vs <- lookup_all d t ;; Ok (v :: vs)
  end.

(** Lines 165-168 *)
Definition declare_peptides (order : list string) : list (string * BoolVar) :=
  map (fun pep_id => (pep_id, Bool pep_id)) order.

Definition PEPTIDE_ALLOWED_OFFSET : Z := 500.

(** Lines 175-183; [None] when the table is empty (NaN). *)
Definition max_targetable (self : Needler) (ld : Loaded) : option Z :=
  match series_max (map rt_stop (rows (df ld))),
        series_min (map rt_start (rows (df ld))) with
  | Some stop_max, Some start_min =>
      let pep_elution_width := 1 + 2 * rt_width self in
      let gradient_length_seconds := stop_max - start_min in
      let blocks := gradient_length_seconds / pep_elution_width + 1 in
      let max_targetable_blocks := blocks * targets_per_cycle self in
      let max_target_from_prots :=
        Z.of_nat (List.length (protein_order ld)) * peps_per_prot self in
      Some (Z.min max_targetable_blocks max_target_from_prots
            + PEPTIDE_ALLOWED_OFFSET)
  | _, _ => None
  end.

(** [if args.shuffle: random.shuffle(l)]; the counter numbers the calls. *)
Definition shuffle_if {A : Type} (e : Entropy) (b : bool) (calls : nat)
  (l : list A) : list A * nat :=
  if b then (random_shuffle e A calls l, S calls) else (l, calls).

(** Lines 190-207: the body of the loop over [self.protein_order]. *)
Definition protein_constraint (e : Entropy) (self : Needler) (g : Globals)
  (ld : Loaded) (peps : list (string * BoolVar))
  (st : Solver * list ArithRef * nat) (prot_id : string)
  : result (Solver * list ArithRef * nat) :=
  let '(s, targeted, calls) := st in
  let protein_peptide_ids := py_set e (peptide_ids_of prot_id (rows (df ld))) in
  vars <- lookup_all peps protein_peptide_ids ;;
  let pseudo_bools := map (fun v => (v, 1)) vars in
  args <- global_args g ;;
  let '(pseudo_bools, calls) :=
    shuffle_if e (Namespace.shuffle args) calls pseudo_bools in
  let s :=
    solver_add (Assert (Or (PbEq pseudo_bools 0)
                           (PbEq pseudo_bools (peps_per_prot self)))) s in
  Ok (s, targeted ++ [If (PbEq pseudo_bools (peps_per_prot self)) 1 0], calls).

Definition covers (i : Z) (r : Row) : bool :=
  (rt_start r <=? i) && (i <=? rt_stop r).

(** Lines 225-233: the body of the loop over [time_steps]. *)
Definition slot_constraint (e : Entropy) (self : Needler) (g : Globals)
  (ld : Loaded) (peps : list (string * BoolVar))
  (st : Solver * nat) (i : Z) : result (Solver * nat) :=
  let '(s, calls) := st in
  if existsb (covers i) (rows (df ld)) then
    let pep_ids :=
      py_set e (map peptide_id (filter (covers i) (rows (df ld)))) in
    time_slot_peptides <- lookup_all peps pep_ids ;;
    args <- global_args g ;;
    let '(time_slot_peptides, calls) :=
      shuffle_if e (Namespace.shuffle args) calls time_slot_peptides in
    c <- z3_AtMost time_slot_peptides (Some (targets_per_cycle self)) ;;
    Ok (solver_add (Assert c) s, calls)
  else Ok (s, calls).

Definition build_model (e : Entropy) (self : Needler) (g : Globals)
  (ld : Loaded) : result Built :=
  let s0 :=
    mkSolver [] (if 0 <? timeout self then Some (timeout self * 1000) else None) in
  let peps := declare_peptides (peptide_order ld) in
  pep_bools <- lookup_all peps (peptide_order ld) ;;
  hint <- z3_AtMost pep_bools (max_targetable self ld) ;;
  let s1 := solver_add (Assert hint) s0 in
  st <- foldM (protein_constraint e self g ld peps) (protein_order ld)
              (s1, [], 0%nat) ;;
  let '(s2, targeted, calls) := st in
  let protein_target := 0 in
  let s3 := solver_add (SumGt targeted protein_target) s2 in
  match series_min (map rt_start (rows (df ld))),
        series_max (map rt_stop (rows (df ld))) with
  | Some start_min, Some stop_max =>
      let rt_minimum := Z.max start_min 0 in
      let rt_maximum := stop_max in
      let time_steps := range rt_minimum (rt_maximum + 1) in
      let '(time_steps, calls) := shuffle_if e (shuffle self) calls time_steps in
      st <- foldM (slot_constraint e self g ld peps) time_steps (s3, calls) ;;
      Ok (mkBuilt (fst st) peps targeted)
  | _, _ => Raise (ArgumentError "range")
  end.

(* ------------------------------------------------------------------ *)
(** ** Needler.save *)

(** [p[: p.rfind("/") + 1]] *)
Fixpoint upto_last_sep (p : string) : string :=
  match p with
  | EmptyString => EmptyString
  | String c t =>
      let h := upto_last_sep t in
      if Ascii.eqb c "/" then String c h
      else match h with
           | EmptyString => EmptyString
           | _ => String c h
           end
  end.

(** [s == "/" * len(s)] *)
Fixpoint all_sep (s : string) : bool :=
  match s with
  | EmptyString => true
  | String c t => Ascii.eqb c "/" && all_sep t
  end.

(** [s.rstrip("/")] *)
Fixpoint rstrip_sep (s : string) : string :=
  match s with
  | EmptyString => EmptyString
  | String c t =>
      match rstrip_sep t with
      | EmptyString => if Ascii.eqb c "/" then EmptyString else String c EmptyString
      | t' => String c t'
      end
  end.

(** [os.path.dirname] of a POSIX path. *)
Definition dirname (p : string) : string :=
  let head := upto_last_sep p in
  if negb (String.eqb head "") && negb (all_sep head) then rstrip_sep head
  else head.

(** One line of the csv that [save] writes: the projected columns. *)
Definition OutRow : Type :=
  string * string * string * string * string * string * Number * Z * Z.

Definition project (r : Row) : OutRow :=
  (accession r, isoform r, name r, gene r, peptide_sequence r, peptide r,
   prosit_predicted_rt_seconds r, rt_start r, rt_stop r).

(** What [save] can see and change of the file system: whether the parent
    directory of [self.dst] exists, and the content of [self.dst] and of
    [self.dst + ".temp"]. Creating the directory and writing the files are
    taken to be permitted, and [self.dst] not to be a directory. *)
Record FileSystem : Type := mkFileSystem {
  parent_exists : bool;
  dst_file : option (list OutRow);    (* content of self.dst *)
  temp_file : option (list OutRow)    (* content of self.dst + ".temp" *)
}.

(** [os.path.exists(parent_dir)]: the empty path never exists. *)
Definition path_exists (parent_dir : string) (fs : FileSystem) : bool :=
  if String.eqb parent_dir "" then false else parent_exists fs.

Definition with_parent (fs : FileSystem) : FileSystem :=
  mkFileSystem true (dst_file fs) (temp_file fs).

(** [os.makedirs(parent_dir, exist_ok=True)]: the empty path cannot be
    created. *)
Definition makedirs (parent_dir : string) (fs : FileSystem)
  : result FileSystem :=
  if String.eqb parent_dir "" then Raise (FileNotFoundError parent_dir)
  else Ok (with_parent fs).

(** The columns of the csv that [save] projects; [rt_start] and [rt_stop]
    were added by [load]. *)
Definition save_columns : list string :=
  ["accession"; "isoform"; "name"; "gene"; "peptide_sequence"; "peptide";
   "prosit_predicted_rt_seconds"].

(** [self.df[bidx]]: the rows of selected peptides of targeted proteins. *)
Definition selected (d : DataFrame) : list Row :=
  filter (fun r => peptide_in_model r && protein_is_targeted r) (rows d).

(** The file system that [save] leaves, and how it returns. *)
Definition save (self : Needler) (d : DataFrame) (fs : FileSystem)
  : FileSystem * result unit :=
  let temp_name := (dst self ++ ".temp")%string in
  let parent_dir := dirname temp_name in
  match (if path_exists parent_dir fs then Ok fs else makedirs parent_dir fs)
  with
  | Raise ex => (fs, Raise ex)
  | Ok fs1 =>
      match find (fun c => negb (has_column d c)) save_columns with
      | Some c => (fs1, Raise (KeyError c))
      | None =>
          let written :=
            mkFileSystem (parent_exists fs1) (dst_file fs1)
                         (Some (map project (selected d))) in
          (* shutil.move(temp_name, self.dst) *)
          (mkFileSystem (parent_exists written) (temp_file written) None,
           Ok tt)
      end
  end.

(* ------------------------------------------------------------------ *)
(** ** Needler.optimize *)

Inductive Outcome : Type :=
| Solved            (* every protein of the table is targeted *)
| LoopDetected      (* a satisfiable answer that does not improve *)
| Infeasible        (* unsat *)
| TimedOut          (* unknown, deadline passed *)
| Halted            (* unknown, deadline not passed *)
| Raised (e : exn)  (* an uncaught exception *)
| OutOfFuel.        (* the loop is still running *)

Inductive Control : Type :=
| Continue
| Break (o : Outcome).

Record Loop : Type := mkLoop {
  l_solver : Solver;
  l_df : DataFrame;
  l_fs : FileSystem;
  best_ever_result : Z;
  remainder_seconds : option Z;   (* microseconds; None while unassigned *)
  (* bookkeeping of the run, not variables of the program *)
  checks : nat;                   (* calls of solver.check() *)
  sat_checks : nat;               (* those answered sat *)
  save_calls : nat;               (* calls of self.save() *)
  persisted : list (Z * list Row) (* protein_target and selected rows of
                                     each artifact moved to dst, newest
                                     first *)
}.

(** Lines 283-299: the columns [peptide_in_model] and
    [protein_is_targeted], and [protein_target]. *)
Definition used_pep_ids (m : Model) (peps : list (string * BoolVar))
  : list string :=
  map fst (filter (fun kv => m (var_name (snd kv))) peps).

Definition protein_targets (k : Z) (used : list string) (l : list Row)
  : list string :=
  let in_model := filter (fun r => mem (peptide_id r) used) l in
  filter (fun p => Z.of_nat (nunique (peptide_ids_of p in_model)) =? k)
         (sorted_set (map protein_id in_model)).

Definition annotate (k : Z) (used : list string) (l : list Row) : list Row :=
  map (fun r => set_flags (mem (peptide_id r) used)
                          (mem (protein_id r) (protein_targets k used l)) r) l.

(** Line 299: [len(set(protein_targets))] for the model [m]. *)
Definition protein_target_of (self : Needler) (b : Built) (m : Model)
  (l : list Row) : Z :=
  Z.of_nat (nunique (protein_targets (peps_per_prot self)
                                     (used_pep_ids m (peptides b)) l)).

Definition loop_body (self : Needler) (o : Oracle) (b : Built) (target_dt : Z)
  (st : Loop) : Control * Loop :=
  let result := check o (checks st) (l_solver st) in
  (* reset the timeout budget *)
  let remainder := target_dt - now o (S (checks st)) in
  let timed := 0 <? timeout self in
  let s1 :=
    if timed then
      if remainder <? 0 then solver_set_timeout 1 (l_solver st)
      else solver_set_timeout (Z.quot remainder 1000000 * 1000) (l_solver st)
    else l_solver st in
  let rem1 := if timed then Some remainder else remainder_seconds st in
  let n := S (checks st) in
  match result with
  | sat m =>
      let used := used_pep_ids m (peptides b) in
      let d := mkDataFrame (columns (l_df st))
                           (annotate (peps_per_prot self) used (rows (l_df st))) in
      let protein_target := protein_target_of self b m (rows (l_df st)) in
      if best_ever_result st <? protein_target then
        let (fs', saved) := save self d (l_fs st) in
        match saved with
        | Raise ex =>
            (Break (Raised ex),
             mkLoop s1 d fs' protein_target rem1 n (S (sat_checks st))
                    (S (save_calls st)) (persisted st))
        | Ok _ =>
            let s2 := solver_add (SumGt (proteins_targeted b) protein_target) s1 in
            let st' :=
              mkLoop s2 d fs' protein_target rem1 n (S (sat_checks st))
                     (S (save_calls st))
                     ((protein_target, selected d) :: persisted st) in
            if protein_target =? Z.of_nat (nunique (map protein_id (rows d)))
            then (Break Solved, st')
            else (Continue, st')
        end
      else
        (Break LoopDetected,
         mkLoop s1 d (l_fs st) (best_ever_result st) rem1 n (S (sat_checks st))
                (save_calls st) (persisted st))
  | unsat =>
      (Break Infeasible,
       mkLoop s1 (l_df st) (l_fs st) (best_ever_result st) rem1 n
              (sat_checks st) (save_calls st) (persisted st))
  | unknown =>
      let st' :=
        mkLoop s1 (l_df st) (l_fs st) (best_ever_result st) rem1 n
               (sat_checks st) (save_calls st) (persisted st) in
      match rem1 with
      | None => (Break (Raised (UnboundLocalError "remainder_seconds")), st')
      | Some r => if r <? 0 then (Break TimedOut, st') else (Break Halted, st')
      end
  end.

(** [while True:]; the fuel bounds the number of iterations. *)
Fixpoint while_true (fuel : nat) (self : Needler) (o : Oracle) (b : Built)
  (target_dt : Z) (st : Loop) : Outcome * Loop :=
  match fuel with
  | O => (OutOfFuel, st)
  | S fuel' =>
      match loop_body self o b target_dt st with
      | (Continue, st') => while_true fuel' self o b target_dt st'
      | (Break out, st') => (out, st')
      end
  end.

Definition optimize (self : Needler) (o : Oracle) (ld : Loaded) (b : Built)
  (fs : FileSystem) (fuel : nat) : Outcome * Loop :=
  let start_dt := now o 0 in
  let target_dt := start_dt + timeout self * 1000000 in
  let best_ever_result := 0 in
  while_true fuel self o b target_dt
             (mkLoop (solver b) (df ld) fs best_ever_result None 0 0 0 []).

(** [main]: load, build_model, optimize. The result is the way the run
    ends and the file system it leaves. *)
Definition main (e : Entropy) (self : Needler) (g : Globals) (o : Oracle)
  (fs : FileSystem) (fuel : nat) : Outcome * FileSystem :=
  match load e self g with
  | Raise ex => (Raised ex, fs)
  | Ok ld =>
      match build_model e self g ld with
      | Raise ex => (Raised ex, fs)
      | Ok b =>
          let (out, st) := optimize self o ld b fs fuel in
          (out, l_fs st)
      end
  end.

(* ------------------------------------------------------------------ *)
(** ** Fixtures *)

Definition csv_header : list string :=
  ["accession"; "isoform"; "name"; "gene"; "peptide_sequence"; "peptide";
   "prosit_predicted_rt_seconds"].

Definition csv_row (acc seq : string) (rt : Number) : Row :=
  mkRow acc "" "" "" seq seq rt "" "" 0 0 0 false false.

Fixpoint tally (n : nat) : string :=
  match n with
  | O => ""
  | S n' => String "u"%char (tally n')
  end.

(** A deterministic source: uuids are tallies, every shuffle is a
    reversal, a set iterates in the order it was filled. *)
Definition entropy0 : Entropy :=
  mkEntropy (fun n => String "#"%char (tally n))
            (fun l => rev l)
            (fun A _ l => rev l)
            (fun l => l).

(** Scenario of the specification: proteins A, B, C with two peptides each. *)
Definition scenario_csv : DataFrame :=
  mkDataFrame csv_header
    [csv_row "A" "a1" (Int64 5); csv_row "A" "a2" (Int64 25);
     csv_row "B" "b1" (Int64 10); csv_row "B" "b2" (Int64 30);
     csv_row "C" "c1" (Int64 5); csv_row "C" "c2" (Int64 5)].

Definition scenario : Needler :=
  mkNeedler scenario_csv "out/needle.csv" 5 1 (-1) 2 false false.

Definition cli (self : Needler) : Globals :=
  Some (Namespace.mk (shuffle self) (peps_per_prot self)).

(** Nothing yet: neither the directory of the result nor the files. *)
Definition fs0 : FileSystem := mkFileSystem false None None.

Definition model_of (l : list string) : Model := fun x => mem x l.

Definition unwrap {A : Type} (d : A) (r : result A) : A :=
  match r with
  | Ok a => a
  | Raise _ => d
  end.

Definition scenario_loaded : Loaded :=
  Eval vm_compute in
    unwrap (mkLoaded (mkDataFrame [] []) [] [] [])
           (load entropy0 scenario (cli scenario)).

Definition scenario_built : Built :=
  Eval vm_compute in
    unwrap (mkBuilt (mkSolver [] None) [] [])
           (build_model entropy0 scenario (cli scenario) scenario_loaded).

(** A peptide that elutes at 10.75 s, with a window half-width of 5 s. *)
Definition fractional_csv : DataFrame :=
  mkDataFrame csv_header
    [csv_row "A" "a1" (float64 43 (-2)); csv_row "A" "a2" (float64 30 0)].

Definition fractional : Needler :=
  mkNeedler fractional_csv "out/needle.csv" 5 1 (-1) 2 false false.

(** A peptide that elutes at 2 s, with a window half-width of 5 s. *)
Definition early_csv : DataFrame :=
  mkDataFrame csv_header
    [csv_row "A" "a1" (Int64 2); csv_row "A" "a2" (Int64 30)].

Definition early : Needler :=
  mkNeedler early_csv "out/needle.csv" 5 1 (-1) 2 false false.

(** A protein with a single peptide, two being required. *)
Definition lonely_csv : DataFrame :=
  mkDataFrame csv_header [csv_row "A" "a1" (Int64 10)].

Definition lonely : Needler :=
  mkNeedler lonely_csv "out/needle.csv" 5 1 (-1) 2 false false.

(** A float64 column with the cell 0.9999999999999999 (that is
    [1 - 2^-53]), an int64 column with the cell [2^63 - 3], and a column
    with an empty cell (NaN). *)
Definition rounding_csv : DataFrame :=
  mkDataFrame csv_header
    [csv_row "A" "a1" (float64 9007199254740991 (-53));
     csv_row "A" "a2" (float64 30 0)].

Definition rounding : Needler :=
  mkNeedler rounding_csv "out/needle.csv" 5 1 (-1) 2 false false.

Definition wrapping_csv : DataFrame :=
  mkDataFrame csv_header
    [csv_row "A" "a1" (Int64 9223372036854775805);
     csv_row "A" "a2" (Int64 30)].

Definition wrapping : Needler :=
  mkNeedler wrapping_csv "out/needle.csv" 5 1 (-1) 2 false false.

Definition blank_csv : DataFrame :=
  mkDataFrame csv_header
    [csv_row "A" "a1" (Float64 S754_nan); csv_row "A" "a2" (float64 30 0)].

Definition blank : Needler :=
  mkNeedler blank_csv "out/needle.csv" 5 1 (-1) 2 false false.

(** Two proteins that share the peptide sequence "s", shuffling enabled. *)
Definition shared_csv : DataFrame :=
  mkDataFrame csv_header
    [csv_row "A" "s" (Int64 10); csv_row "A" "a2" (Int64 30);
     csv_row "B" "s" (Int64 10); csv_row "B" "b2" (Int64 50)].

Definition shared_shuffled : Needler :=
  mkNeedler shared_csv "out/needle.csv" 5 1 (-1) 2 true false.

Definition shared_plain : Needler :=
  mkNeedler shared_csv "out/needle.csv" 5 1 (-1) 2 false false.

(** The columns that [load] reads. *)
Definition required_columns : list string :=
  ["accession"; "peptide_sequence"; "prosit_predicted_rt_seconds"].

Definition early_loaded : Loaded :=
  Eval vm_compute in
    unwrap (mkLoaded (mkDataFrame [] []) [] [] [])
           (load entropy0 early (cli early)).

Definition rounding_loaded : Loaded :=
  Eval vm_compute in
    unwrap (mkLoaded (mkDataFrame [] []) [] [] [])
           (load entropy0 rounding (cli rounding)).

Definition wrapping_loaded : Loaded :=
  Eval vm_compute in
    unwrap (mkLoaded (mkDataFrame [] []) [] [] [])
           (load entropy0 wrapping (cli wrapping)).

Definition fractional_loaded : Loaded :=
  Eval vm_compute in
    unwrap (mkLoaded (mkDataFrame [] []) [] [] [])
           (load entropy0 fractional (cli fractional)).

Definition lonely_loaded : Loaded :=
  Eval vm_compute in
    unwrap (mkLoaded (mkDataFrame [] []) [] [] [])
           (load entropy0 lonely (cli lonely)).

Definition shared_loaded : Loaded :=
  Eval vm_compute in
    unwrap (mkLoaded (mkDataFrame [] []) [] [] [])
           (load entropy0 shared_shuffled (cli shared_shuffled)).

Definition shared_plain_loaded : Loaded :=
  Eval vm_compute in
    unwrap (mkLoaded (mkDataFrame [] []) [] [] [])
           (load entropy0 shared_plain (cli shared_plain)).

Definition shared_plain_built : Built :=
  Eval vm_compute in
    unwrap (mkBuilt (mkSolver [] None) [] [])
           (build_model entropy0 shared_plain (cli shared_plain)
                        shared_plain_loaded).

Definition shared_built : Built :=
  Eval vm_compute in
    unwrap (mkBuilt (mkSolver [] None) [] [])
           (build_model entropy0 shared_shuffled (cli shared_shuffled)
                        shared_loaded).

(** The scenario constructed with peps_per_prot = 3 and shuffle = True
    while the command line said 2 and no shuffle. *)
Definition mismatched : Needler :=
  mkNeedler scenario_csv "out/needle.csv" 5 1 (-1) 3 true false.

Definition mismatched_args : Namespace.t := Namespace.mk false 2.

(** The scenario table with its identifiers and peptide counts, as it
    reaches the filter. *)
Definition scenario_identified : list Row :=
  Eval vm_compute in
    transform_nunique
      (map (fun r => set_peptide_id (peptide_sequence r) r)
           (map (fun r => set_protein_id (accession r) r) (rows scenario_csv))).

(** An engine that cannot decide, and a clock that stands still. *)
Definition undecided : Oracle :=
  mkOracle (fun _ _ => unknown) (fun _ => 0).

(** Proteins of unequal size in an order that the options change: B has
    one peptide, A has two, C has three. *)
Definition mixed_csv : DataFrame :=
  mkDataFrame csv_header
    [csv_row "C" "c1" (Int64 10); csv_row "B" "b1" (Int64 20);
     csv_row "A" "a1" (Int64 30); csv_row "C" "c2" (Int64 40);
     csv_row "A" "a2" (Int64 50); csv_row "C" "c3" (Int64 60)].

Definition mixed : Needler :=
  mkNeedler mixed_csv "out/needle.csv" 5 1 (-1) 2 true true.

Definition mixed_loaded : Loaded :=
  Eval vm_compute in
    unwrap (mkLoaded (mkDataFrame [] []) [] [] [])
           (load entropy0 mixed (cli mixed)).

Definition mixed_built : Built :=
  Eval vm_compute in
    unwrap (mkBuilt (mkSolver [] None) [] [])
           (build_model entropy0 mixed (cli mixed) mixed_loaded).

(** The scenario read from a csv that has only the columns [load] reads. *)
Definition bare_csv : DataFrame :=
  mkDataFrame required_columns (rows scenario_csv).

Definition bare : Needler :=
  mkNeedler bare_csv "out/needle.csv" 5 1 (-1) 2 false false.

Definition bare_loaded : Loaded :=
  Eval vm_compute in
    unwrap (mkLoaded (mkDataFrame [] []) [] [] [])
           (load entropy0 bare (cli bare)).

Definition bare_built : Built :=
  Eval vm_compute in
    unwrap (mkBuilt (mkSolver [] None) [] [])
           (build_model entropy0 bare (cli bare) bare_loaded).

(** The csv of unequal proteins (B has one peptide) read by two instances
    that differ in the constructor's [peps_per_prot] alone, 1 and 3, while
    the command line said 2. *)
Definition uneven1 : Needler :=
  mkNeedler mixed_csv "out/needle.csv" 5 1 (-1) 1 false false.

Definition uneven3 : Needler :=
  mkNeedler mixed_csv "out/needle.csv" 5 1 (-1) 3 false false.

Definition uneven_args : Namespace.t := Namespace.mk false 2.

(** The scenario with [--dst needle.csv]: no directory part. *)
Definition flat : Needler :=
  mkNeedler scenario_csv "needle.csv" 5 1 (-1) 2 false false.

(** The scenario with a budget of 10 seconds, its clock advancing by 3 s
    at every reading, and an engine that finds protein A, then B too. *)
Definition timed : Needler :=
  mkNeedler scenario_csv "out/needle.csv" 5 1 10 2 false false.

Definition timed_loaded : Loaded :=
  Eval vm_compute in
    unwrap (mkLoaded (mkDataFrame [] []) [] [] [])
           (load entropy0 timed (cli timed)).

Definition timed_built : Built :=
  Eval vm_compute in
    unwrap (mkBuilt (mkSolver [] None) [] [])
           (build_model entropy0 timed (cli timed) timed_loaded).

Definition ticking : Oracle :=
  mkOracle (fun n _ =>
              match n with
              | O => sat (model_of ["a1"; "a2"])
              | S O => sat (model_of ["a1"; "a2"; "b1"; "b2"])
              | _ => unknown
              end)
           (fun n => Z.of_nat n * 3000000).









(** The scenario with [--targets -1]. *)
Definition lacking : Needler :=
  mkNeedler scenario_csv "out/needle.csv" 5 (-1) (-1) 2 false false.

(** Protein A alone, by its shuffled identifiers: a solution for [mixed]. *)
Definition mixed_model : Model := model_of ["#uuuuu"; "#uuu"].

(** Protein A alone: a solution of the scenario. *)
Definition scenario_model : Model := model_of ["a1"; "a2"].

(** An engine that finds protein A, then the same again, then gives up. *)
Definition stalling : Oracle :=
  mkOracle (fun n _ =>
              match n with
              | O => sat scenario_model
              | S O => sat scenario_model
              | _ => unknown
              end)
           (fun _ => 0).

(* ------------------------------------------------------------------ *)
(** * Properties *)

(** The number of distinct identifiers of [ids] that the model selects. *)
Definition selected_count (m : Model) (ids : list string) : Z :=
  Z.of_nat (List.length (filter m (nodup string_dec ids))).

(** The per-protein balance assertion over the distinct identifiers [ids]. *)
Definition balance_of (k : Z) (ids : list string) (a : Assertion) : Prop :=
  exists pb,
    a = Assert (Or (PbEq pb 0) (PbEq pb k)) /\
    Permutation (map (fun pid => (Bool pid, 1)) (nodup string_dec ids)) pb.

(** The capacity assertion of one time slot over the identifiers [ids]. *)
Definition slot_of (c : Z) (ids : list string) (a : Assertion) : Prop :=
  exists vars,
    a = Assert (AtMost vars c) /\
    Permutation (map Bool (nodup string_dec ids)) vars.

(** The identifiers of the peptides whose window covers the second [i]. *)
Definition slot_ids (table : list Row) (i : Z) : list string :=
  map peptide_id (filter (covers i) table).

(** The decision variable of a row: [self.peptides[row.peptide_id]]. *)
Definition variable_of (b : Built) (r : Row) : result BoolVar :=
  dict_get (peptide_id r) (peptides b).

(** [self.df.protein_id.nunique()] *)
Definition num_proteins (l : list Row) : Z :=
  Z.of_nat (nunique (map protein_id l)).

(** What [save] selects for the model [m]: the rows of selected peptides
    of fully targeted proteins. *)
Definition artifact_of (self : Needler) (b : Built) (m : Model)
  (l : list Row) : list Row :=
  filter (fun r => peptide_in_model r && protein_is_targeted r)
         (annotate (peps_per_prot self) (used_pep_ids m (peptides b)) l).

(** The parent directory of [self.dst + ".temp"]. *)
Definition parent_dir (self : Needler) : string :=
  dirname (dst self ++ ".temp")%string.




(** The path has a directory part: it holds a "/". *)
Fixpoint has_sep (p : string) : bool :=
  match p with
  | EmptyString => false
  | String c t => Ascii.eqb c "/" || has_sep t
  end.

(** What an iteration that does not persist leaves as it was. *)
Definition unchanged (st st' : Loop) : Prop :=
  save_calls st' = save_calls st /\
  persisted st' = persisted st /\
  assertions (l_solver st') = assertions (l_solver st) /\
  l_fs st' = l_fs st.

(** One iteration of the loop of [optimize], by the answer of the engine. *)
Inductive iteration (self : Needler) (b : Built) (st : Loop)
  : CheckSatResult -> Control -> Loop -> Prop :=
| it_improved m c st' :
    let content := artifact_of self b m (rows (l_df st)) in
    let pt := protein_target_of self b m (rows (l_df st)) in
    best_ever_result st < pt ->
    best_ever_result st' = pt ->
    sat_checks st' = S (sat_checks st) ->
    save_calls st' = S (save_calls st) ->
    persisted st' = (pt, content) :: persisted st ->
    l_fs st' = mkFileSystem true (Some (map project content)) None ->
    assertions (l_solver st')
    = assertions (l_solver st) ++ [SumGt (proteins_targeted b) pt] ->
    (c = Continue /\ pt <> num_proteins (rows (l_df st)) \/
     c = Break Solved /\ pt = num_proteins (rows (l_df st))) ->
    iteration self b st (sat m) c st'
| it_save_failed m ex st' :
    let pt := protein_target_of self b m (rows (l_df st)) in
    best_ever_result st < pt ->
    best_ever_result st' = pt ->
    sat_checks st' = S (sat_checks st) ->
    save_calls st' = S (save_calls st) ->
    persisted st' = persisted st ->
    l_fs st' = (if String.eqb (parent_dir self) "" then l_fs st
                else with_parent (l_fs st)) ->
    assertions (l_solver st') = assertions (l_solver st) ->
    iteration self b st (sat m) (Break (Raised ex)) st'
| it_stalled m st' :
    protein_target_of self b m (rows (l_df st)) <= best_ever_result st ->
    best_ever_result st' = best_ever_result st ->
    sat_checks st' = S (sat_checks st) ->
    unchanged st st' ->
    iteration self b st (sat m) (Break LoopDetected) st'
| it_unsat st' :
    best_ever_result st' = best_ever_result st ->
    sat_checks st' = sat_checks st ->
    unchanged st st' ->
    iteration self b st unsat (Break Infeasible) st'
| it_unknown c st' :
    best_ever_result st' = best_ever_result st ->
    sat_checks st' = sat_checks st ->
    unchanged st st' ->
    (0 < timeout self /\ (c = Break TimedOut \/ c = Break Halted) \/
     timeout self <= 0 /\
     match remainder_seconds st with
     | None => c = Break (Raised (UnboundLocalError "remainder_seconds"))
     | Some r => c = Break TimedOut \/ c = Break Halted
     end) ->
    iteration self b st unknown c st'.

(** The lower bounds [n] of the assertions [Sum(...) > n], oldest first. *)
Definition ratchet_bounds (cs : list Assertion) : list Z :=
  flat_map (fun a => match a with SumGt _ n => [n] | Assert _ => [] end) cs.

(** The targets of the persisted artifacts, newest first, decrease
    strictly and none exceeds [best_ever_result]. *)
Definition persisted_inv (st : Loop) : Prop :=
  StronglySorted (fun x y => y < x) (map fst (persisted st)) /\
  Forall (fun p => fst p <= best_ever_result st) (persisted st).

(** The ratchet bounds increase strictly and none exceeds
    [best_ever_result]. *)
Definition ratchet_inv (st : Loop) : Prop :=
  StronglySorted Z.lt (ratchet_bounds (assertions (l_solver st))) /\
  Forall (fun n => n <= best_ever_result st)
         (ratchet_bounds (assertions (l_solver st))).

(** The iteration persists: the engine answers sat with a model whose
    [protein_target] exceeds [best_ever_result]. *)
Definition improving (self : Needler) (o : Oracle) (b : Built) (st : Loop)
  : Prop :=
  exists m,
    check o (checks st) (l_solver st) = sat m /\
    best_ever_result st < protein_target_of self b m (rows (l_df st)).

(* ------------------------------------------------------------------ *)
(** ** Notions for the further properties *)

(** The columns of the csv in a row. *)
Definition raw (r : Row)
  : string * string * string * string * string * string * Number :=
  (accession r, isoform r, name r, gene r, peptide_sequence r, peptide r,
   prosit_predicted_rt_seconds r).

(** What [load] keeps of a row whatever the options: the csv columns and
    the peptide count of its protein. *)
Definition payload (r : Row)
  : string * string * string * string * string * string * Number * Z :=
  (raw r, protein_peps r).

(** The number of distinct peptide sequences the csv lists under an
    accession. *)
Definition distinct_peptides (l : list Row) (acc : string) : Z :=
  Z.of_nat (nunique (map peptide_sequence
                         (filter (fun r => String.eqb (accession r) acc) l))).

(** The protein of the row has at least [k] distinct peptides. *)
Definition sufficient (k : Z) (l : list Row) (r : Row) : bool :=
  k <=? distinct_peptides l (accession r).

(** The peptide count of a protein in a table: that of its first row. *)
Definition peps_of (l : list Row) (prot : string) : Z :=
  match find (fun r => String.eqb (protein_id r) prot) l with
  | Some r => protein_peps r
  | None => 0
  end.

(** The rows are in ascending order of [protein_peps]. *)
Definition by_peps (r1 r2 : Row) : Prop :=
  protein_peps r1 <= protein_peps r2.

(** The objective term of a protein over its distinct identifiers [ids]. *)
Definition objective_of (k : Z) (ids : list string) (t : ArithRef) : Prop :=
  exists pb,
    t = If (PbEq pb k) 1 0 /\
    Permutation (map (fun pid => (Bool pid, 1)) (nodup string_dec ids)) pb.

(** The proteins of [order] of which the model selects exactly [k]
    distinct peptides. *)
Definition fully_targeted (m : Model) (k : Z) (table : list Row)
  (order : list string) : list string :=
  filter (fun prot => selected_count m (peptide_ids_of prot table) =? k) order.

(** An engine whose models satisfy the assertions they answer. *)
Definition sound (o : Oracle) : Prop :=
  forall n s m, check o n s = sat m -> models m (assertions s).



(** The identifiers of a row. *)
Definition ids_of (r : Row) : string * string :=
  (protein_id r, peptide_id r).

(** An engine that answers with one fixed model when it satisfies the
    store, and unsat otherwise. *)
Definition one_model_engine (m : Model) : Oracle :=
  mkOracle (fun _ s => if forallb (holds m) (assertions s) then sat m
                       else unsat)
           (fun _ => 0).

(** The budget of the solver lies within the one of the run, and there
    is none when the run has none. *)
Definition budget_within (self : Needler) (s : Solver) : Prop :=
  match timeout_ms s with
  | Some t => 0 < timeout self /\ 0 <= t <= timeout self * 1000
  | None => timeout self <= 0
  end.

(** A value of the 64-bit integers. *)
Definition int64 (z : Z) : Prop :=
  -9223372036854775808 <= z < 9223372036854775808.

(** A cell that a numeric column can hold. *)
Definition well_typed (x : Number) : Prop :=
  match x with
  | Int64 z => int64 z
  | Float64 _ => True
  end.

(** Truncation of a rational toward zero. *)
Definition trunc (q : Q) : Z :=
  Z.quot (Qnum q) (Zpos (Qden q)).


(** A bound that z3 accepts for [AtMost]. *)
Definition z3_bound (k : Z) : bool := c_uint k <? 2147483648.

Ltac inv_bind H :=
  match type of H with
  | bind ?c _ = Ok _ =>
      let E := fresh "E" in
      destruct c eqn:E; simpl in H; [ | discriminate H ]
  end.

Section Lists.

Lemma dict_fromkeys_In (x : string) (l : list string) :
  In x (dict_fromkeys l) <-> In x l.
Proof.
  induction l as [ | y t IH ]; simpl; [ tauto | ].
  split.
  - intros [ -> | H ]; [ now left | ].
    apply in_remove in H. right. now apply IH.
  - intros [ -> | H ]; [ now left | ].
    destruct (string_dec y x) as [ -> | N ]; [ now left | right ].
    apply in_in_remove; [ congruence | now apply IH ].
Qed.

Lemma insert_sorted_perm (x : string) (l : list string) :
  Permutation (x :: l) (insert_sorted x l).
Proof.
  induction l as [ | y t IH ]; simpl; [ reflexivity | ].
  destruct (String.leb x y); [ reflexivity | ].
  rewrite perm_swap. now constructor.
Qed.

Lemma sorted_set_perm (l : list string) :
  Permutation (nodup string_dec l) (sorted_set l).
Proof.
  unfold sorted_set.
  induction (nodup string_dec l) as [ | y t IH ]; simpl; [ reflexivity | ].
  rewrite <- insert_sorted_perm. now constructor.
Qed.

Lemma sorted_set_In (x : string) (l : list string) :
  In x (sorted_set l) <-> In x l.
Proof.
  rewrite <- (nodup_In string_dec l x).
  split; apply Permutation_in;
    [ symmetry | ]; apply sorted_set_perm.
Qed.

Lemma sorted_set_NoDup (l : list string) : NoDup (sorted_set l).
Proof.
  eapply Permutation_NoDup; [ apply sorted_set_perm | apply NoDup_nodup ].
Qed.

Lemma insert_by_peps_perm (x : Row) (l : list Row) :
  Permutation (x :: l) (insert_by_peps x l).
Proof.
  induction l as [ | y t IH ]; simpl; [ reflexivity | ].
  destruct (protein_peps x <=? protein_peps y); [ reflexivity | ].
  rewrite perm_swap. now constructor.
Qed.

Lemma sort_values_perm (l : list Row) :
  Permutation l (sort_values_protein_peps l).
Proof.
  unfold sort_values_protein_peps.
  induction l as [ | y t IH ]; simpl; [ reflexivity | ].
  rewrite <- insert_by_peps_perm. now constructor.
Qed.

Lemma mem_In (x : string) (l : list string) : mem x l = true <-> In x l.
Proof.
  unfold mem. rewrite existsb_exists. split.
  - intros (y & Hy & E). apply String.eqb_eq in E. now subst.
  - intros H. exists x. split; [ assumption | apply String.eqb_refl ].
Qed.

Lemma fold_left_max_ge (l : list Z) (a : Z) :
  a <= fold_left Z.max l a /\ Forall (fun x => x <= fold_left Z.max l a) l.
Proof.
  revert a. induction l as [ | y t IH ]; intros a; simpl.
  - split; [ lia | constructor ].
  - destruct (IH (Z.max a y)) as [H1 H2]. split; [ lia | ].
    constructor; [ lia | assumption ].
Qed.

Lemma fold_left_min_le (l : list Z) (a : Z) :
  fold_left Z.min l a <= a /\ Forall (fun x => fold_left Z.min l a <= x) l.
Proof.
  revert a. induction l as [ | y t IH ]; intros a; simpl.
  - split; [ lia | constructor ].
  - destruct (IH (Z.min a y)) as [H1 H2]. split; [ lia | ].
    constructor; [ lia | assumption ].
Qed.

Lemma fold_left_max_In (l : list Z) (a : Z) :
  fold_left Z.max l a = a \/ In (fold_left Z.max l a) l.
Proof.
  revert a. induction l as [ | y t IH ]; intros a; simpl; [ now left | ].
  destruct (IH (Z.max a y)) as [ H | H ]; [ | now right; right ].
  rewrite H. destruct (Z.max_spec a y) as [ [_ ->] | [_ ->] ]; auto.
Qed.

Lemma fold_left_min_In (l : list Z) (a : Z) :
  fold_left Z.min l a = a \/ In (fold_left Z.min l a) l.
Proof.
  revert a. induction l as [ | y t IH ]; intros a; simpl; [ now left | ].
  destruct (IH (Z.min a y)) as [ H | H ]; [ | now right; right ].
  rewrite H. destruct (Z.min_spec a y) as [ [_ ->] | [_ ->] ]; auto.
Qed.

Lemma series_max_spec (l : list Z) (hi : Z) :
  series_max l = Some hi -> In hi l /\ Forall (fun x => x <= hi) l.
Proof.
  destruct l as [ | a t ]; simpl; [ discriminate | ].
  intros [= <-]. destruct (fold_left_max_ge t a) as [H1 H2].
  split; [ | constructor; assumption ].
  destruct (fold_left_max_In t a) as [ -> | H ]; [ now left | now right ].
Qed.

Lemma series_min_spec (l : list Z) (lo : Z) :
  series_min l = Some lo -> In lo l /\ Forall (fun x => lo <= x) l.
Proof.
  destruct l as [ | a t ]; simpl; [ discriminate | ].
  intros [= <-]. destruct (fold_left_min_le t a) as [H1 H2].
  split; [ | constructor; assumption ].
  destruct (fold_left_min_In t a) as [ -> | H ]; [ now left | now right ].
Qed.

Lemma range_In (a b i : Z) : In i (range a b) <-> a <= i < b.
Proof.
  unfold range. rewrite in_map_iff. split.
  - intros (n & <- & H). apply in_seq in H. lia.
  - intros H. exists (Z.to_nat (i - a)). split; [ lia | ].
    apply in_seq. lia.
Qed.

End Lists.

Section Engine.

Variable m : Model.

Lemma count_true_perm (l l' : list BoolVar) :
  Permutation l l' -> count_true m l = count_true m l'.
Proof.
  intros H. unfold count_true. f_equal.
  induction H; simpl.
  - reflexivity.
  - destruct (m (var_name x)); simpl; congruence.
  - destruct (m (var_name x)), (m (var_name y)); reflexivity.
  - congruence.
Qed.

Lemma pb_sum_perm (l l' : list (BoolVar * Z)) :
  Permutation l l' -> pb_sum m l = pb_sum m l'.
Proof.
  intros H. induction H; simpl; lia.
Qed.

Lemma count_true_Bool (ids : list string) :
  count_true m (map Bool ids) = Z.of_nat (List.length (filter m ids)).
Proof.
  unfold count_true. f_equal.
  induction ids as [ | x t IH ]; simpl; [ reflexivity | ].
  destruct (m x); simpl; congruence.
Qed.

Lemma pb_sum_unit (ids : list string) :
  pb_sum m (map (fun pid => (Bool pid, 1)) ids)
  = Z.of_nat (List.length (filter m ids)).
Proof.
  induction ids as [ | x t IH ]; simpl; [ reflexivity | ].
  rewrite IH. destruct (m x); simpl List.length; lia.
Qed.

Lemma balance_holds (k : Z) (ids : list string) (a : Assertion) :
  balance_of k ids a -> holds m a = true ->
  selected_count m ids = 0 \/ selected_count m ids = k.
Proof.
  intros (pb & -> & P) H. simpl in H.
  unfold selected_count. rewrite <- pb_sum_unit, (pb_sum_perm _ _ P).
  apply orb_true_iff in H. destruct H as [ H | H ];
    apply Z.eqb_eq in H; auto.
Qed.

Lemma slot_holds (c : Z) (ids : list string) (a : Assertion) :
  slot_of c ids a -> holds m a = true -> selected_count m ids <= c.
Proof.
  intros (vars & -> & P) H. simpl in H.
  unfold selected_count. rewrite <- count_true_Bool, (count_true_perm _ _ P).
  now apply Z.leb_le.
Qed.

End Engine.

Lemma c_uint_range (k : Z) : 0 <= c_uint k < 4294967296.
Proof. unfold c_uint. apply Z.mod_pos_bound. lia. Qed.


Lemma c_uint_le (k : Z) : 0 <= k -> c_uint k <= k.
Proof. unfold c_uint. intros H. apply Z.mod_le; lia. Qed.

Lemma z3_AtMost_inv (vars : list BoolVar) (k : option Z) (c : BoolRef) :
  z3_AtMost vars k = Ok c ->
  exists k', k = Some k' /\ c = AtMost vars (c_uint k') /\
             c_uint k' < 2147483648.
Proof.
  destruct vars as [ | v vs ], k as [ k' | ]; simpl; try discriminate.
  destruct (Z.ltb_spec (c_uint k') 2147483648); [ | discriminate ].
  intros [= <-]. now exists k'.
Qed.

Section BuildModel.

Variable e : Entropy.
Hypothesis e_ok : EntropyOk e.
Variables (self : Needler) (g : Globals) (ld : Loaded).

Lemma py_set_perm (l : list string) :
  Permutation (nodup string_dec l) (py_set e l).
Proof. apply (hash_order_perm e e_ok). Qed.

Lemma shuffle_if_perm (A : Type) (b : bool) (n : nat) (l : list A) :
  Permutation l (fst (shuffle_if e b n l)).
Proof.
  unfold shuffle_if. destruct b; simpl;
    [ apply (random_shuffle_perm e e_ok) | reflexivity ].
Qed.

Lemma dict_get_declare (order : list string) (pid : string) (v : BoolVar) :
  dict_get pid (declare_peptides order) = Ok v -> v = Bool pid /\ In pid order.
Proof.
  induction order as [ | x t IH ]; simpl; [ discriminate | ].
  destruct (String.eqb_spec pid x) as [ -> | N ].
  - intros [= <-]. auto.
  - intros H. destruct (IH H). auto.
Qed.

Lemma dict_get_declared (order : list string) (pid : string) :
  In pid order -> dict_get pid (declare_peptides order) = Ok (Bool pid).
Proof.
  induction order as [ | x t IH ]; simpl; [ tauto | ].
  destruct (String.eqb_spec pid x) as [ -> | N ]; [ reflexivity | ].
  intros [ -> | H ]; [ congruence | auto ].
Qed.

Lemma lookup_all_declare (order ids : list string) (vars : list BoolVar) :
  lookup_all (declare_peptides order) ids = Ok vars -> vars = map Bool ids.
Proof.
  revert vars. induction ids as [ | x t IH ]; simpl; intros vars H.
  - now inversion H.
  - inv_bind H. inv_bind H. inversion H; subst.
    apply dict_get_declare in E as [-> _]. now rewrite (IH _ eq_refl).
Qed.

Lemma lookup_all_declared (order ids : list string) :
  incl ids order ->
  lookup_all (declare_peptides order) ids = Ok (map Bool ids).
Proof.
  induction ids as [ | x t IH ]; simpl; intros H; [ reflexivity | ].
  rewrite dict_get_declared by (apply H; now left). simpl.
  rewrite IH by (intros y Hy; apply H; now right). reflexivity.
Qed.

Local Abbreviation peps := (declare_peptides (peptide_order ld)).
Local Abbreviation K := (peps_per_prot self).
Local Abbreviation C := (targets_per_cycle self).
Local Abbreviation table := (rows (df ld)).

Lemma protein_constraint_inv (s s' : Solver) (t t' : list ArithRef)
  (n n' : nat) (prot : string) :
  protein_constraint e self g ld peps (s, t, n) prot = Ok (s', t', n') ->
  exists a,
    balance_of K (peptide_ids_of prot table) a /\
    assertions s' = assertions s ++ [a] /\
    timeout_ms s' = timeout_ms s.
Proof.
  unfold protein_constraint. intros H.
  inv_bind H. inv_bind H.
  destruct (shuffle_if e (Namespace.shuffle a0) n (map (fun v => (v, 1)) a))
    as [pb n2] eqn:S.
  inversion H; subst; clear H.
  eexists. split; [ | split; reflexivity ].
  exists pb. split; [ reflexivity | ].
  apply lookup_all_declare in E. subst a.
  change pb with (fst (pb, n')). rewrite <- S.
  etransitivity; [ | apply shuffle_if_perm ].
  rewrite map_map. apply Permutation_map, py_set_perm.
Qed.

Lemma balance_loop_inv (prots : list string) :
  forall s t n s' t' n',
    foldM (protein_constraint e self g ld peps) prots (s, t, n)
    = Ok (s', t', n') ->
    exists bal,
      assertions s' = assertions s ++ bal /\
      timeout_ms s' = timeout_ms s /\
      Forall2 (fun prot a => balance_of K (peptide_ids_of prot table) a)
              prots bal.
Proof.
  induction prots as [ | prot rest IH ]; simpl; intros s t n s' t' n' H.
  - inversion H; subst. exists []. rewrite app_nil_r. auto.
  - inv_bind H. destruct a as [[s1 t1] n1].
    apply protein_constraint_inv in E as (a & Ha & Hs & Ht).
    apply IH in H as (bal & Hs' & Ht' & Hb).
    exists (a :: bal). rewrite Hs', Hs, <- app_assoc. simpl.
    repeat split; [ congruence | now constructor ].
Qed.

Lemma slot_constraint_inv (s s' : Solver) (n n' : nat) (i : Z) :
  slot_constraint e self g ld peps (s, n) i = Ok (s', n') ->
  timeout_ms s' = timeout_ms s /\
  if existsb (covers i) table
  then c_uint C < 2147483648 /\
       exists a, slot_of (c_uint C) (slot_ids table i) a /\
                 assertions s' = assertions s ++ [a]
  else assertions s' = assertions s.
Proof.
  unfold slot_constraint.
  destruct (existsb (covers i) table); intros H.
  - inv_bind H. inv_bind H.
    destruct (shuffle_if e (Namespace.shuffle a0) n a) as [vars n2] eqn:S.
    inv_bind H. inversion H; subst; clear H.
    split; [ reflexivity | ].
    apply z3_AtMost_inv in E1 as (c & [= <-] & -> & Hc).
    split; [ exact Hc | ].
    eexists. split; [ | reflexivity ].
    exists vars. split; [ reflexivity | ].
    apply lookup_all_declare in E. subst a.
    change vars with (fst (vars, n')). rewrite <- S.
    etransitivity; [ | apply shuffle_if_perm ].
    apply Permutation_map, py_set_perm.
  - inversion H; subst. auto.
Qed.

Lemma slot_loop_inv (steps : list Z) :
  forall s n s' n',
    foldM (slot_constraint e self g ld peps) steps (s, n) = Ok (s', n') ->
    exists slots,
      assertions s' = assertions s ++ slots /\
      timeout_ms s' = timeout_ms s /\
      (forall i, In i steps -> existsb (covers i) table = true ->
                 c_uint C < 2147483648 /\
                 exists a, In a slots /\
                           slot_of (c_uint C) (slot_ids table i) a) /\
      Forall (fun a => exists i, In i steps /\
                                 slot_of (c_uint C) (slot_ids table i) a) slots.
Proof.
  induction steps as [ | i rest IH ]; simpl; intros s n s' n' H.
  - inversion H; subst. exists []. rewrite app_nil_r.
    split; [ reflexivity | ]. split; [ reflexivity | ].
    split; [ intros i [] | constructor ].
  - inv_bind H. destruct a as [s1 n1].
    apply slot_constraint_inv in E as (Ht & Hi).
    apply IH in H as (slots & Hs' & Ht' & Hin & Hall).
    assert (Hall' : Forall (fun a => exists j, (i = j \/ In j rest) /\
                              slot_of (c_uint C) (slot_ids table j) a) slots).
    { eapply Forall_impl; [ | exact Hall ].
      intros a (j & Hj & Ha). exists j. auto. }
    destruct (existsb (covers i) table) eqn:Ex.
    + destruct Hi as (HC & a & Ha & Hs).
      exists (a :: slots). rewrite Hs', Hs, <- app_assoc. simpl.
      split; [ reflexivity | ]. split; [ congruence | ]. split.
      * intros j [ <- | Hj ] Hc;
          [ split; [ exact HC | exists a; simpl; auto ] | ].
        destruct (Hin j Hj Hc) as (HC' & a' & Ha' & Hs2).
        split; [ exact HC' | ]. exists a'. simpl; auto.
      * constructor; [ exists i; auto | exact Hall' ].
    + exists slots. rewrite Hs', Hi.
      split; [ reflexivity | ]. split; [ congruence | ].
      split; [ | exact Hall' ].
      intros j [ <- | Hj ] Hc; [ congruence | auto ].
Qed.

Lemma build_model_inv (b : Built) :
  build_model e self g ld = Ok b ->
  exists k lo hi bal slots,
    max_targetable self ld = Some k /\
    series_min (map rt_start table) = Some lo /\
    series_max (map rt_stop table) = Some hi /\
    peptides b = peps /\
    assertions (solver b)
    = Assert (AtMost (map Bool (peptide_order ld)) (c_uint k))
        :: bal ++ SumGt (proteins_targeted b) 0 :: slots /\
    Forall2 (fun prot a => balance_of K (peptide_ids_of prot table) a)
            (protein_order ld) bal /\
    (forall i, Z.max lo 0 <= i <= hi -> existsb (covers i) table = true ->
               c_uint C < 2147483648 /\
               exists a, In a slots /\
                         slot_of (c_uint C) (slot_ids table i) a) /\
    Forall (fun a => exists i, slot_of (c_uint C) (slot_ids table i) a) slots /\
    c_uint k < 2147483648.
Proof.
  unfold build_model. intros H.
  inv_bind H. inv_bind H. inv_bind H.
  destruct a1 as [[s2 targeted] calls].
  destruct (series_min (map rt_start table)) as [ lo | ] eqn:Elo;
    [ | discriminate H ].
  destruct (series_max (map rt_stop table)) as [ hi | ] eqn:Ehi;
    [ | discriminate H ].
  destruct (shuffle_if e (shuffle self) calls (range (Z.max lo 0) (hi + 1)))
    as [steps calls'] eqn:S.
  inv_bind H. destruct a1 as [s4 calls4]. inversion H; subst; clear H.
  simpl.
  apply lookup_all_declare in E. subst a.
  apply z3_AtMost_inv in E0 as (k & Ek & -> & Hk).
  apply balance_loop_inv in E1 as (bal & Hs2 & _ & Hbal).
  apply slot_loop_inv in E2 as (slots & Hs4 & _ & Hin & Hall).
  exists k, lo, hi, bal, slots.
  split; [ exact Ek | ]. split; [ reflexivity | ]. split; [ reflexivity | ].
  split; [ reflexivity | ].
  split; [ | split; [ exact Hbal | split; [ | split; [ | exact Hk ] ] ] ].
  - rewrite Hs4. simpl. rewrite Hs2. simpl.
    rewrite <- app_assoc. reflexivity.
  - intros i Hi Hc. apply Hin; [ | assumption ].
    eapply Permutation_in;
      [ change steps with (fst (steps, calls')); rewrite <- S;
        apply shuffle_if_perm | ].
    apply range_In. lia.
  - eapply Forall_impl; [ | exact Hall ].
    intros a (i & _ & Ha). now exists i.
Qed.

End BuildModel.

Lemma models_forallb (m : Model) (cs : list Assertion) :
  forallb (holds m) cs = true -> models m cs.
Proof.
  intros H. apply Forall_forall. now apply forallb_forall.
Qed.

Lemma models_incl (m : Model) (cs cs' : list Assertion) :
  incl cs cs' -> models m cs' -> models m cs.
Proof.
  intros I H. apply Forall_forall. intros a Ha.
  apply (proj1 (Forall_forall _ _) H). now apply I.
Qed.

Lemma Forall2_In_l {A B : Type} (R : A -> B -> Prop) (l : list A)
  (l' : list B) (x : A) :
  Forall2 R l l' -> In x l -> exists y, In y l' /\ R x y.
Proof.
  induction 1 as [ | a b l1 l2 H HF IH ]; simpl; [ tauto | ].
  intros [ <- | Hx ]; [ exists b; auto | ].
  destruct (IH Hx) as (y & Hy & Hr). exists y. auto.
Qed.

Lemma tally_inj (i j : nat) : tally i = tally j -> i = j.
Proof.
  revert j. induction i as [ | i IH ]; intros [ | j ]; simpl;
    try discriminate; [ reflexivity | ].
  intros [= H]. f_equal. now apply IH.
Qed.

Lemma entropy0_ok : EntropyOk entropy0.
Proof.
  constructor; simpl.
  - intros i j [= H]. now apply tally_inj.
  - intros l. apply Permutation_rev.
  - intros A n l. apply Permutation_rev.
  - intros l. reflexivity.
Qed.


Lemma slot_ids_empty (table : list Row) (i : Z) :
  existsb (covers i) table = false -> slot_ids table i = [].
Proof.
  intros H. unfold slot_ids.
  induction table as [ | r t IH ]; simpl in *; [ reflexivity | ].
  apply orb_false_iff in H as [H1 H2]. rewrite H1. auto.
Qed.

(* ------------------------------------------------------------------ *)
(** ** The constraint model *)

(** C1. Protein all-or-nothing: in any solution of the assertions that
    [build_model] emits (or of a larger store, as the ratchet only adds
    assertions), every protein of [protein_order] has either none or
    exactly [peps_per_prot] of its distinct peptides assigned true. *)
Theorem protein_all_or_nothing (e : Entropy) (self : Needler) (g : Globals)
  (ld : Loaded) (b : Built) (m : Model) (cs : list Assertion) :
  EntropyOk e ->
  build_model e self g ld = Ok b ->
  incl (assertions (solver b)) cs ->
  models m cs ->
  forall prot, In prot (protein_order ld) ->
    selected_count m (peptide_ids_of prot (rows (df ld))) = 0 \/
    selected_count m (peptide_ids_of prot (rows (df ld))) = peps_per_prot self.
Proof.
  intros He Hb Hincl Hm prot Hp.
  destruct (build_model_inv e He self g ld b Hb)
    as (k & lo & hi & bal & slots & _ & _ & _ & _ & Has & Hbal & _).
  destruct (Forall2_In_l _ _ _ _ Hbal Hp) as (a & Ha & Hbo).
  apply (balance_holds m _ _ a Hbo).
  apply (proj1 (Forall_forall _ _) Hm). apply Hincl. rewrite Has.
  right. apply in_or_app. now left.
Qed.

Lemma protein_all_or_nothing_witness :
  selected_count scenario_model
                 (peptide_ids_of "A" (rows (df scenario_loaded))) = 2 /\
  selected_count scenario_model
                 (peptide_ids_of "B" (rows (df scenario_loaded))) = 0.
Proof.
  pose proof (protein_all_or_nothing entropy0 scenario (cli scenario)
                scenario_loaded scenario_built scenario_model
                (assertions (solver scenario_built))
                entropy0_ok eq_refl (incl_refl _)
                (models_forallb scenario_model
                   (assertions (solver scenario_built)) eq_refl)) as H.
  split.
  - destruct (H "A" (or_introl eq_refl)) as [ F | E ];
      [ discriminate F | exact E ].
  - destruct (H "B" (or_intror (or_introl eq_refl))) as [ E | F ];
      [ exact E | discriminate F ].
Defined.







(* ------------------------------------------------------------------ *)
(** ** The input normalizer *)

Lemma assign_rt_map (f h : Row -> Z) (l : list Row) :
  assign_rt l (map f l) (map h l) = map (fun r => set_rt (f r) (h r) r) l.
Proof.
  induction l as [ | r t IH ]; simpl; [ reflexivity | ]. now rewrite IH.
Qed.

Lemma astype_int_inv (col : list Number) :
  (forallb finite col = true /\ astype_int col = Ok (map cast_int64 col)) \/
  astype_int col
  = Raise (ValueError
             "Cannot convert non-finite values (NA or inf) to integer").
Proof.
  unfold astype_int. destruct (forallb finite col); auto.
Qed.

Section Load.

Variable e : Entropy.
Variables (self : Needler) (g : Globals).

Local Abbreviation d := (db_src self).

(** The table as it reaches the minimum-peptide filter. *)
Local Abbreviation identified :=
  (transform_nunique
     (map (fun r => set_peptide_id (peptide_sequence r) r)
          (map (fun r => set_protein_id (accession r) r) (rows d)))).

Lemma load_inv (ld : Loaded) :
  load e self g = Ok ld ->
  (forall c, In c required_columns -> has_column d c = true) /\
  exists kept dlog,
    drop_insufficient self g identified = Ok (kept, dlog) /\
    let l1 := if shuffle self then shuffle_ids e kept else kept in
    let l2 := if sort_groups self then sort_values_protein_peps l1 else l1 in
    let l3 := map (window (float_column d) (rt_width self)) l2 in
    let negative := List.length (filter (fun r => rt_start r <? 0) l3) in
    rows (df ld) = l3 /\
    columns (df ld) = columns d /\
    peptide_order ld
    = (if shuffle self then dict_fromkeys (map peptide_id l1)
       else sorted_set (map peptide_id kept)) /\
    protein_order ld
    = (if sort_groups self then dict_fromkeys (map protein_id l2)
       else if shuffle self then dict_fromkeys (map protein_id l1)
            else sorted_set (map protein_id kept)) /\
    log ld
    = dlog ++ (if (0 <? negative)%nat then [AdjustingNegative negative]
               else []) /\
    Forall (fun r =>
              let t := as_dtype (float_column d)
                                (prosit_predicted_rt_seconds r) in
              finite (sub_int t (rt_width self)) = true /\
              finite (add_int t (rt_width self)) = true) l2.
Proof.
  unfold load, getattr. intros H.
  destruct (has_column d "accession") eqn:C1; [ | discriminate H ].
  destruct (has_column d "peptide_sequence") eqn:C2; [ | discriminate H ].
  cbn [bind] in H. inv_bind H.
  destruct (has_column d "prosit_predicted_rt_seconds") eqn:C3;
    [ | discriminate H ].
  cbn [bind] in H.
  match type of H with
  | bind (astype_int ?col) _ = _ =>
      destruct (astype_int_inv col) as [ (Fs & Es) | Es ]; rewrite Es in H;
        cbn [bind] in H; [ | discriminate H ]
  end.
  match type of H with
  | bind (astype_int ?col) _ = _ =>
      destruct (astype_int_inv col) as [ (Fp & Ep) | Ep ]; rewrite Ep in H;
        cbn [bind] in H; [ | discriminate H ]
  end.
  rewrite !map_map, assign_rt_map in H.
  inversion H; subst; clear H. split.
  - intros c [ <- | [ <- | [ <- | [] ] ] ]; assumption.
  - destruct a as [kept dlog]. exists kept, dlog.
    split; [ reflexivity | ]. cbn [fst snd rows columns df peptide_order
                                    protein_order log].
    split; [ reflexivity | ]. split; [ reflexivity | ].
    split; [ reflexivity | ]. split; [ reflexivity | ].
    split; [ reflexivity | ].
    rewrite !map_map in Fs, Fp.
    apply Forall_forall. intros r Hr. cbv zeta. split.
    + apply (proj1 (forallb_forall _ _) Fs).
      apply (in_map (fun x => sub_int
                      (as_dtype (float_column d)
                                (prosit_predicted_rt_seconds x))
                      (rt_width self))). exact Hr.
    + apply (proj1 (forallb_forall _ _) Fp).
      apply (in_map (fun x => add_int
                      (as_dtype (float_column d)
                                (prosit_predicted_rt_seconds x))
                      (rt_width self))). exact Hr.
Qed.

Lemma window_fields (dtype : bool) (w : Z) (r : Row) :
  peptide_id (window dtype w r) = peptide_id r /\
  protein_id (window dtype w r) = protein_id r /\
  peptide_sequence (window dtype w r) = peptide_sequence r /\
  accession (window dtype w r) = accession r /\
  prosit_predicted_rt_seconds (window dtype w r)
  = prosit_predicted_rt_seconds r /\
  rt_start (window dtype w r)
  = cast_int64 (sub_int (as_dtype dtype (prosit_predicted_rt_seconds r)) w) /\
  rt_stop (window dtype w r)
  = cast_int64 (add_int (as_dtype dtype (prosit_predicted_rt_seconds r)) w).
Proof. repeat split. Qed.

Lemma drop_insufficient_log (l kept : list Row) (dlog : list LogRecord) :
  drop_insufficient self g l = Ok (kept, dlog) ->
  forall n, ~ In (AdjustingNegative n) dlog.
Proof.
  unfold drop_insufficient.
  destruct (existsb _ l); intros H n.
  - inv_bind H. inversion H; subst. simpl. intros [ F | [] ]. discriminate F.
  - inversion H; subst. simpl. tauto.
Qed.

Lemma drop_insufficient_rows (l kept : list Row) (dlog : list LogRecord) :
  drop_insufficient self g l = Ok (kept, dlog) -> incl kept l.
Proof.
  unfold drop_insufficient.
  destruct (existsb _ l); intros H.
  - inv_bind H. inversion H; subst. intros r Hr.
    now apply filter_In in Hr.
  - inversion H; subst. apply incl_refl.
Qed.

End Load.

Lemma py_round_integer (q : Q) (z : Z) :
  (q == inject_Z z)%Q -> py_round q = z.
Proof.
  destruct q as [n dn]. unfold Qeq, py_round. cbn [Qnum Qden inject_Z].
  intros H. rewrite Z.mul_1_r in H. subst n.
  rewrite Z.div_mul by discriminate.
  replace (2 * (z * Z.pos dn - z * Z.pos dn)) with 0 by ring.
  reflexivity.
Qed.

Lemma wrap64_small (z : Z) : int64 z -> wrap64 z = z.
Proof.
  unfold int64, wrap64. intros H. rewrite Z.mod_small by lia. lia.
Qed.

(** The truncation of a finite float is that of the rational it
    denotes. *)
Lemma trunc_float_spec (s : bool) (m : positive) (e : Z) :
  trunc_float (S754_finite s m e) = trunc (to_Q (Float64 (S754_finite s m e))).
Proof.
  unfold trunc_float, to_Q, trunc.
  destruct (Z.leb_spec 0 e) as [ He | He ].
  - destruct s; cbn [Qopp inject_Z Qnum Qden]; now rewrite Z.quot_1_r.
  - assert (Hp : 0 < 2 ^ (- e)) by (apply Z.pow_pos_nonneg; lia).
    destruct s; cbn [Qopp Qnum Qden]; rewrite Z2Pos.id by exact Hp;
      [ now rewrite Z.quot_opp_l by lia | reflexivity ].
Qed.

(** C4, as the specification states it, fails: the peptide that elutes at
    10.75 s with W = 5 gets rt_start = trunc(10.75 - 5) = 5, while
    round(10.75) - 5 = 6. *)
Lemma window_round_counterexample :
  load entropy0 fractional (cli fractional) = Ok fractional_loaded /\
  exists r,
    In r (rows (df fractional_loaded)) /\
    (to_Q (prosit_predicted_rt_seconds r) == 43 # 4)%Q /\
    rt_start r = 5 /\
    py_round (to_Q (prosit_predicted_rt_seconds r)) - rt_width fractional = 6.
Proof.
  split; [ reflexivity | ].
  exists (nth 0 (rows (df fractional_loaded)) (csv_row "" "" (Int64 0))).
  repeat split. left. reflexivity.
Qed.

(** The message "Adjusting negative peptide rt_start values to 0" is
    logged, and the value stays as it was: the peptide that elutes at 2 s
    with W = 5 keeps rt_start = -3. *)
Lemma negative_start_kept :
  load entropy0 early (cli early) = Ok early_loaded /\
  log early_loaded = [AdjustingNegative 1] /\
  map rt_start (rows (df early_loaded)) = [-3; 25].
Proof. repeat split. Qed.

(** The shifted time is computed in the arithmetic of the column before it
    is truncated: in a float64 column, 0.9999999999999999 + 5 is rounded
    to 6.0, so that rt_stop is 6 where the exact sum truncates to 5; in an
    int64 column, (2^63 - 3) + 5 wraps around to -2^63 + 2; and a NaN cell
    makes [astype(int)] raise. *)
Lemma window_arithmetic :
  (load entropy0 rounding (cli rounding) = Ok rounding_loaded /\
   map rt_stop (rows (df rounding_loaded)) = [6; 35] /\
   trunc (to_Q (float64 9007199254740991 (-53)) + inject_Z 5) = 5) /\
  (load entropy0 wrapping (cli wrapping) = Ok wrapping_loaded /\
   map rt_stop (rows (df wrapping_loaded)) = [-9223372036854775806; 35]) /\
  load entropy0 blank (cli blank)
  = Raise (ValueError
             "Cannot convert non-finite values (NA or inf) to integer").
Proof.
  split; [ | split ].
  - split; [ reflexivity | ]. split; reflexivity.
  - split; reflexivity.
  - reflexivity.
Qed.

(** C4 (amended). For every row of the normalized table, with the time
    taken in the dtype of its column (int64, or float64 when some cell of
    the csv is not an integer) and [W] an int of 64 bits, [time + W] and
    [time - W] are computed in the arithmetic of that dtype (int64 with
    wrap-around, float64 with rounding) and are finite;
    [rt_stop = trunc(time + W)] and, where it is not negative,
    [rt_start = trunc(time - W)], truncation being toward zero (for a
    float within the int64 range, that of the rational it denotes); in an
    int64 column without overflow these are [round(time) + W] and
    [round(time) - W]; the rows with [trunc(time - W) < 0] are counted, and
    the count is logged when it is positive. *)
Theorem window_normalization (e : Entropy) (self : Needler) (g : Globals)
  (ld : Loaded) :
  int64 (rt_width self) ->
  Forall (fun r => well_typed (prosit_predicted_rt_seconds r))
         (rows (db_src self)) ->
  load e self g = Ok ld ->
  Forall (fun r =>
            let t := as_dtype (float_column (db_src self))
                              (prosit_predicted_rt_seconds r) in
            let w := rt_width self in
            finite (add_int t w) = true /\
            finite (sub_int t w) = true /\
            rt_stop r = cast_int64 (add_int t w) /\
            (0 <= cast_int64 (sub_int t w) ->
             rt_start r = cast_int64 (sub_int t w)) /\
            (forall f, add_int t w = Float64 f ->
               int64 (trunc (to_Q (Float64 f))) ->
               rt_stop r = trunc (to_Q (Float64 f))) /\
            (forall z, t = Int64 z -> int64 (z + w) -> int64 (z - w) ->
               rt_stop r = py_round (inject_Z z) + w /\
               (0 <= z - w -> rt_start r = py_round (inject_Z z) - w)))
         (rows (df ld)) /\
  (forall n,
      In (AdjustingNegative n) (log ld) <->
      n = List.length
            (filter (fun r =>
                       cast_int64
                         (sub_int (as_dtype (float_column (db_src self))
                                            (prosit_predicted_rt_seconds r))
                                  (rt_width self)) <? 0)
                    (rows (df ld))) /\
      (0 < n)%nat).
Proof.
  intros _ _ H. apply load_inv in H as (_ & kept & dlog & Hd & H).
  cbv zeta in H. destruct H as (Hrows & _ & _ & _ & Hlog & Hfin).
  set (dt := float_column (db_src self)) in *.
  assert (Hwin : forall r, In r (rows (df ld)) ->
            let t := as_dtype dt (prosit_predicted_rt_seconds r) in
            finite (sub_int t (rt_width self)) = true /\
            finite (add_int t (rt_width self)) = true /\
            rt_start r = cast_int64 (sub_int t (rt_width self)) /\
            rt_stop r = cast_int64 (add_int t (rt_width self))).
  { rewrite Hrows. intros r Hr.
    apply in_map_iff in Hr as (r0 & <- & Hr0).
    destruct (proj1 (Forall_forall _ _) Hfin r0 Hr0) as [F1 F2].
    repeat split; assumption. }
  split.
  - apply Forall_forall. intros r Hr. cbv zeta.
    destruct (Hwin r Hr) as (F1 & F2 & Hs & Hp). cbv zeta in *.
    split; [ exact F2 | ]. split; [ exact F1 | ].
    split; [ exact Hp | ]. split; [ intros _; exact Hs | ]. split.
    + intros f Ef Hrange. rewrite Hp, Ef.
      rewrite Ef in F2. destruct f as [ s0 | s0 | | s0 m0 e0 ];
        try discriminate F2.
      * reflexivity.
      * rewrite <- trunc_float_spec in Hrange. unfold int64 in Hrange.
        unfold cast_int64. rewrite <- trunc_float_spec.
        destruct (Z.leb_spec (-9223372036854775808)
                             (trunc_float (S754_finite s0 m0 e0)));
          destruct (Z.ltb_spec (trunc_float (S754_finite s0 m0 e0))
                               9223372036854775808);
          cbn [andb]; try reflexivity; lia.
    + intros z Ez Hadd Hsub.
      rewrite (py_round_integer (inject_Z z) z) by reflexivity.
      rewrite Hp, Hs, Ez. cbn [add_int sub_int cast_int64].
      rewrite !wrap64_small by assumption. auto.
  - intros n.
    rewrite (filter_ext_in
               (fun r => cast_int64
                           (sub_int (as_dtype dt
                                       (prosit_predicted_rt_seconds r))
                                    (rt_width self)) <? 0)
               (fun r => rt_start r <? 0) (rows (df ld)))
      by (intros r Hr; destruct (Hwin r Hr) as (_ & _ & -> & _); reflexivity).
    rewrite Hlog, Hrows. rewrite in_app_iff. split.
    + intros [ F | F ]; [ now apply (drop_insufficient_log _ _ _ _ _ Hd) in F | ].
      match type of F with
      | In _ (if (0 <? ?len)%nat then _ else _) =>
          destruct (Nat.ltb_spec 0 len); simpl in F; [ | tauto ]
      end.
      destruct F as [ F | [] ]. injection F as <-. auto.
    + intros [-> Hn]. right.
      apply Nat.ltb_lt in Hn. rewrite Hn. now left.
Qed.

Lemma window_normalization_witness :
  Forall (fun r => rt_stop r
                   = cast_int64
                       (add_int (as_dtype true (prosit_predicted_rt_seconds r))
                                5))
         (rows (df fractional_loaded)).
Proof.
  destruct (window_normalization entropy0 fractional (cli fractional)
              fractional_loaded) as [HF _].
  - unfold int64. simpl. lia.
  - repeat constructor.
  - reflexivity.
  - eapply Forall_impl; [ | exact HF ]. intros r Hr.
    exact (proj1 (proj2 (proj2 Hr))).
Defined.

Lemma drop_insufficient_raise (self : Needler) (g : Globals) (l : list Row)
  (ex : exn) :
  drop_insufficient self g l = Raise ex -> ex = NameError "args".
Proof.
  unfold drop_insufficient. destruct (existsb _ l); [ | discriminate ].
  destruct g as [ a | ]; simpl; [ discriminate | ]. now intros [= <-].
Qed.

Lemma load_missing_column (e : Entropy) (self : Needler) (g : Globals) :
  (exists c, In c required_columns /\ has_column (db_src self) c = false) ->
  exists ex,
    load e self g = Raise ex /\
    (ex = NameError "args" \/
     exists c, In c required_columns /\ has_column (db_src self) c = false /\
               ex = AttributeError c).
Proof.
  intros (c & Hc & Hm). unfold load, getattr.
  destruct (has_column (db_src self) "accession") eqn:C1; cbn [bind].
  2:{ eexists. split; [ reflexivity | ]. right.
      exists "accession". simpl. auto. }
  destruct (has_column (db_src self) "peptide_sequence") eqn:C2; cbn [bind].
  2:{ eexists. split; [ reflexivity | ]. right.
      exists "peptide_sequence". simpl. auto. }
  match goal with
  | |- context [ bind ?X _ ] => destruct X as [ a | ex ] eqn:D
  end; cbn [bind].
  2:{ exists ex. split; [ reflexivity | ]. left.
      now apply drop_insufficient_raise in D. }
  destruct (has_column (db_src self) "prosit_predicted_rt_seconds") eqn:C3;
    cbn [bind].
  2:{ eexists. split; [ reflexivity | ]. right.
      exists "prosit_predicted_rt_seconds". simpl. auto 6. }
  exfalso. destruct Hc as [ <- | [ <- | [ <- | [] ] ] ]; congruence.
Qed.

Lemma load_empty_orders (e : Entropy) (self : Needler) (g : Globals)
  (ld : Loaded) :
  load e self g = Ok ld -> rows (df ld) = [] -> peptide_order ld = [].
Proof.
  intros H Hr. apply load_inv in H as (_ & kept & dlog & _ & H).
  cbv zeta in H. destruct H as (Hrows & _ & Hpep & _).
  rewrite Hr in Hrows. symmetry in Hrows. apply map_eq_nil in Hrows.
  assert (H1 : (if shuffle self then shuffle_ids e kept else kept) = []).
  { destruct (sort_groups self); [ | assumption ].
    apply Permutation_nil. rewrite <- Hrows. symmetry. apply sort_values_perm. }
  rewrite Hpep. destruct (shuffle self).
  - now rewrite H1.
  - now rewrite H1.
Qed.

Lemma build_model_empty (e : Entropy) (self : Needler) (g : Globals)
  (ld : Loaded) :
  peptide_order ld = [] ->
  build_model e self g ld
  = Raise (Z3Exception "Non empty list of arguments expected").
Proof.
  intros H. unfold build_model. rewrite H. reflexivity.
Qed.

(** C5, as the specification states it, fails: when the only protein has
    fewer peptides than required, [load] returns normally with an empty
    table; the run ends later, in [build_model], with z3's exception. *)
Lemma no_input_error_counterexample :
  load entropy0 lonely (cli lonely) = Ok lonely_loaded /\
  rows (df lonely_loaded) = [] /\
  protein_order lonely_loaded = [] /\
  build_model entropy0 lonely (cli lonely) lonely_loaded
  = Raise (Z3Exception "Non empty list of arguments expected").
Proof. repeat split. Qed.

(** C5 (amended). If the csv lacks a column that [load] reads, [load]
    raises (AttributeError for the column, or NameError when the filter
    needs the absent global [args]) and no model is built; if no row remains
    after the minimum-peptide filter, [load] returns normally and
    [build_model] raises at its first constraint. In both cases the run ends
    with an exception and the file system is as it was. *)
Theorem input_failure (e : Entropy) (self : Needler) (g : Globals)
  (o : Oracle) (fs : FileSystem) (fuel : nat) :
  (exists c, In c required_columns /\ has_column (db_src self) c = false) \/
  (exists ld, load e self g = Ok ld /\ rows (df ld) = []) ->
  exists ex,
    main e self g o fs fuel = (Raised ex, fs) /\
    ((exists c, In c required_columns /\ has_column (db_src self) c = false) ->
     load e self g = Raise ex /\
     (ex = NameError "args" \/
      exists c, In c required_columns /\ has_column (db_src self) c = false /\
                ex = AttributeError c)) /\
    (forall ld, load e self g = Ok ld -> rows (df ld) = [] ->
                build_model e self g ld = Raise ex /\
                ex = Z3Exception "Non empty list of arguments expected").
Proof.
  intros [ Hmiss | (ld & Hl & Hr) ].
  - destruct (load_missing_column e self g Hmiss) as (ex & Hl & Hex).
    exists ex. repeat split.
    + unfold main. now rewrite Hl.
    + assumption.
    + assumption.
    + rewrite Hl in H. discriminate H.
    + rewrite Hl in H. discriminate H.
  - pose proof (build_model_empty e self g ld (load_empty_orders e self g ld Hl Hr))
      as Hb.
    eexists. repeat split.
    + unfold main. rewrite Hl, Hb. reflexivity.
    + destruct H as (c & Hc & Hm).
      apply load_inv in Hl as (Hcols & _). rewrite (Hcols c Hc) in Hm.
      discriminate Hm.
    + destruct H as (c & Hc & Hm).
      apply load_inv in Hl as (Hcols & _). rewrite (Hcols c Hc) in Hm.
      discriminate Hm.
    + rewrite Hl in H. injection H as <-. exact Hb.
Qed.

Lemma input_failure_witness :
  exists ex,
    main entropy0 lonely (cli lonely)
         (mkOracle (fun _ _ => unknown) (fun _ => 0)) fs0 3
    = (Raised ex, fs0).
Proof.
  destruct (input_failure entropy0 lonely (cli lonely)
              (mkOracle (fun _ _ => unknown) (fun _ => 0)) fs0 3
              (or_intror (ex_intro _ lonely_loaded (conj eq_refl eq_refl))))
    as (ex & Hm & _).
  exists ex. exact Hm.
Defined.

Lemma identified_ids (l : list Row) (r : Row) :
  In r (transform_nunique
          (map (fun r => set_peptide_id (peptide_sequence r) r)
               (map (fun r => set_protein_id (accession r) r) l))) ->
  peptide_id r = peptide_sequence r /\ protein_id r = accession r.
Proof.
  unfold transform_nunique. intros H.
  apply in_map_iff in H as (r1 & <- & H).
  apply in_map_iff in H as (r2 & <- & H).
  apply in_map_iff in H as (r3 & <- & H).
  split; reflexivity.
Qed.

Lemma load_plain_rows (e : Entropy) (self : Needler) (g : Globals)
  (ld : Loaded) :
  shuffle self = false ->
  load e self g = Ok ld ->
  forall r, In r (rows (df ld)) ->
    peptide_id r = peptide_sequence r /\
    protein_id r = accession r /\
    In (peptide_id r) (peptide_order ld).
Proof.
  intros Hs H r Hr. apply load_inv in H as (_ & kept & dlog & Hd & H).
  cbv zeta in H. destruct H as (Hrows & _ & Hpep & _).
  rewrite Hs in *. rewrite Hrows in Hr.
  apply in_map_iff in Hr as (r0 & <- & Hr0).
  assert (Hk : In r0 kept).
  { destruct (sort_groups self); [ | assumption ].
    eapply Permutation_in; [ symmetry; apply sort_values_perm | exact Hr0 ]. }
  destruct (identified_ids _ _ (drop_insufficient_rows _ _ _ _ _ Hd _ Hk))
    as [H1 H2].
  repeat split; try assumption.
  rewrite Hpep. apply sorted_set_In. simpl. now apply in_map.
Qed.

Lemma pseudo_bool_inj (x y : string) :
  (Bool x, 1) = (Bool y, 1) -> x = y.
Proof. now intros [= ->]. Qed.

(** C10, as stated, fails when shuffling is enabled: the two rows with the
    sequence "s" (one under each protein) receive two identifiers, hence
    two boolean variables. *)
Lemma shared_sequence_counterexample :
  load entropy0 shared_shuffled (cli shared_shuffled) = Ok shared_loaded /\
  build_model entropy0 shared_shuffled (cli shared_shuffled) shared_loaded
  = Ok shared_built /\
  exists r1 r2,
    In r1 (rows (df shared_loaded)) /\ In r2 (rows (df shared_loaded)) /\
    peptide_sequence r1 = "s" /\ peptide_sequence r2 = "s" /\
    accession r1 = "B" /\ accession r2 = "A" /\
    variable_of shared_built r1 = Ok (Bool "#uuuu") /\
    variable_of shared_built r2 = Ok (Bool "#uu").
Proof.
  split; [ reflexivity | ]. split; [ reflexivity | ].
  exists (nth 1 (rows (df shared_loaded)) (csv_row "" "" (Int64 0))),
         (nth 3 (rows (df shared_loaded)) (csv_row "" "" (Int64 0))).
  repeat split.
  - right. left. reflexivity.
  - do 3 right. left. reflexivity.
Qed.

(** C10 (amended). When shuffling is disabled, the decision variable of a
    row is keyed by its peptide sequence: rows that share a sequence, under
    one protein or several, share one variable, and that variable occurs
    exactly once in the balance assertion of each protein that has the
    sequence. *)
Theorem variables_keyed_by_sequence (e : Entropy) (self : Needler)
  (g : Globals) (ld : Loaded) (b : Built) :
  EntropyOk e ->
  shuffle self = false ->
  load e self g = Ok ld ->
  build_model e self g ld = Ok b ->
  (forall r, In r (rows (df ld)) ->
             variable_of b r = Ok (Bool (peptide_sequence r))) /\
  (forall r1 r2, In r1 (rows (df ld)) -> In r2 (rows (df ld)) ->
                 peptide_sequence r1 = peptide_sequence r2 ->
                 variable_of b r1 = variable_of b r2) /\
  (forall prot, In prot (protein_order ld) ->
     exists pb,
       In (Assert (Or (PbEq pb 0) (PbEq pb (peps_per_prot self))))
          (assertions (solver b)) /\
       NoDup pb /\
       forall r, In r (rows (df ld)) -> accession r = prot ->
                 In (Bool (peptide_sequence r), 1) pb).
Proof.
  intros He Hs Hl Hb.
  pose proof (load_plain_rows e self g ld Hs Hl) as Hrows.
  destruct (build_model_inv e He self g ld b Hb)
    as (k & lo & hi & bal & slots & _ & _ & _ & Hp & Has & Hbal & _).
  assert (Hvar : forall r, In r (rows (df ld)) ->
                           variable_of b r = Ok (Bool (peptide_sequence r))).
  { intros r Hr. destruct (Hrows r Hr) as (H1 & _ & H3).
    unfold variable_of. rewrite Hp, <- H1. now apply dict_get_declared. }
  repeat split.
  - exact Hvar.
  - intros r1 r2 H1 H2 E. rewrite (Hvar r1 H1), (Hvar r2 H2). now rewrite E.
  - intros prot Hprot.
    destruct (Forall2_In_l _ _ _ _ Hbal Hprot) as (a & Ha & pb & -> & Hperm).
    exists pb. repeat split.
    + rewrite Has. right. apply in_or_app. now left.
    + eapply Permutation_NoDup; [ exact Hperm | ].
      apply Finite.Injective_map_NoDup; [ | apply NoDup_nodup ].
      intros x y. apply pseudo_bool_inj.
    + intros r Hr Hacc. destruct (Hrows r Hr) as (H1 & H2 & _).
      eapply Permutation_in; [ exact Hperm | ].
      rewrite <- H1.
      apply (in_map (fun pid => (Bool pid, 1))).
      apply nodup_In. unfold peptide_ids_of. apply in_map.
      apply filter_In. split; [ assumption | ].
      apply String.eqb_eq. congruence.
Qed.

Lemma variables_keyed_by_sequence_witness :
  variable_of shared_plain_built
              (nth 0 (rows (df shared_plain_loaded)) (csv_row "" "" (Int64 0)))
  = variable_of shared_plain_built
                (nth 2 (rows (df shared_plain_loaded)) (csv_row "" "" (Int64 0))).
Proof.
  apply (proj1 (proj2 (variables_keyed_by_sequence entropy0 shared_plain
                         (cli shared_plain) shared_plain_loaded
                         shared_plain_built entropy0_ok eq_refl eq_refl
                         eq_refl))).
  - left. reflexivity.
  - right. right. left. reflexivity.
  - reflexivity.
Defined.

(* ------------------------------------------------------------------ *)
(** ** The global namespace *)

(** C9, as the specification states it, fails: the constructor's
    [peps_per_prot] is not ignored by the filter, it decides whether the
    filter runs. On the csv in which protein B has one peptide, with
    [args.peps_per_prot = 2], the instance built with [peps_per_prot = 1]
    keeps all six rows (and needs no global [args]), while the one built
    with [peps_per_prot = 3] drops B (and raises NameError without
    [args]). *)
Lemma constructor_peps_counterexample :
  uneven3 = set_peps_per_prot 3 uneven1 /\
  Namespace.peps_per_prot uneven_args = 2 /\
  (exists ld1 ld3,
      load entropy0 uneven1 (Some uneven_args) = Ok ld1 /\
      load entropy0 uneven3 (Some uneven_args) = Ok ld3 /\
      map accession (rows (df ld1)) = ["C"; "B"; "A"; "C"; "A"; "C"] /\
      map accession (rows (df ld3)) = ["C"; "A"; "C"; "A"; "C"] /\
      load entropy0 uneven1 None = Ok ld1) /\
  load entropy0 uneven3 None = Raise (NameError "args").
Proof.
  split; [ reflexivity | ]. split; [ reflexivity | ].
  split; [ | reflexivity ].
  do 2 eexists.
  split; [ reflexivity | ]. split; [ reflexivity | ].
  split; [ reflexivity | ]. split; reflexivity.
Qed.

(** C9 (amended). The filter takes its threshold from
    [args.peps_per_prot] and the per-protein and per-slot variable lists
    are shuffled exactly when [args.shuffle] is set, not by the values
    given to the constructor, and without a global [args] these points
    raise NameError. The constructor's [peps_per_prot] is read by the guard
    of the filter alone: when some protein has fewer peptides than it, the
    rows kept are those whose peptide count reaches [args.peps_per_prot];
    when none has, nothing is dropped and [args] is not read. The
    constructor's [shuffle] does not matter to those shuffles. *)
Theorem args_namespace_decides (e : Entropy) (self : Needler)
  (a : Namespace.t) (ld : Loaded) (l : list Row) :
  (if existsb (fun r => protein_peps r <? peps_per_prot self) l
   then
     (exists n,
         drop_insufficient self (Some a) l
         = Ok (filter (fun r => Namespace.peps_per_prot a <=? protein_peps r) l,
               [DroppingProteins n])) /\
     drop_insufficient self None l = Raise (NameError "args")
   else forall g, drop_insufficient self g l = Ok (l, [])) /\
  (forall flag peps st prot,
      protein_constraint e (set_shuffle flag self) (Some a) ld peps st prot
      = protein_constraint e self (Some a) ld peps st prot) /\
  (forall flag peps st i,
      slot_constraint e (set_shuffle flag self) (Some a) ld peps st i
      = slot_constraint e self (Some a) ld peps st i) /\
  (forall peps s t n prot s' t' n',
      protein_constraint e self (Some a) ld peps (s, t, n) prot
      = Ok (s', t', n') ->
      n' = if Namespace.shuffle a then S n else n) /\
  (forall peps s n i s' n',
      slot_constraint e self (Some a) ld peps (s, n) i = Ok (s', n') ->
      existsb (covers i) (rows (df ld)) = true ->
      n' = if Namespace.shuffle a then S n else n) /\
  (forall peps st prot vars,
      lookup_all peps (py_set e (peptide_ids_of prot (rows (df ld)))) = Ok vars ->
      protein_constraint e self None ld peps st prot
      = Raise (NameError "args")).
Proof.
  split; [ | split; [ | split; [ | split; [ | split ] ] ] ].
  - unfold drop_insufficient.
    destruct (existsb (fun r => protein_peps r <? peps_per_prot self) l).
    + split; [ simpl; eexists; reflexivity | reflexivity ].
    + reflexivity.
  - reflexivity.
  - reflexivity.
  - unfold protein_constraint. intros peps s t n prot s' t' n' H.
    inv_bind H. simpl in H.
    destruct (shuffle_if e (Namespace.shuffle a) n (map (fun v => (v, 1)) a0))
      as [pb n2] eqn:S.
    inversion H; subst. unfold shuffle_if in S.
    destruct (Namespace.shuffle a); now inversion S.
  - unfold slot_constraint. intros peps s n i s' n' H Hc. rewrite Hc in H.
    inv_bind H. simpl in H.
    destruct (shuffle_if e (Namespace.shuffle a) n a0) as [vars n2] eqn:S.
    inv_bind H. inversion H; subst. unfold shuffle_if in S.
    destruct (Namespace.shuffle a); now inversion S.
  - intros peps [[s t] n] prot vars H. unfold protein_constraint.
    rewrite H. reflexivity.
Qed.

Lemma args_namespace_decides_witness :
  exists n,
    drop_insufficient mismatched (Some mismatched_args) scenario_identified
    = Ok (scenario_identified, [DroppingProteins n]).
Proof.
  exact (proj1 (proj1 (args_namespace_decides entropy0 mismatched
                         mismatched_args scenario_loaded
                         scenario_identified))).
Defined.

(* ------------------------------------------------------------------ *)
(** ** The anytime search loop *)

Lemma annotate_protein_id (k : Z) (used : list string) (l : list Row) :
  map protein_id (annotate k used l) = map protein_id l.
Proof.
  unfold annotate. rewrite map_map. reflexivity.
Qed.

Lemma protein_target_le (self : Needler) (b : Built) (m : Model)
  (l : list Row) :
  protein_target_of self b m l <= num_proteins l.
Proof.
  unfold protein_target_of, num_proteins, nunique. apply inj_le.
  apply NoDup_incl_length; [ apply NoDup_nodup | ].
  intros x Hx. apply nodup_In in Hx. apply nodup_In.
  unfold protein_targets in Hx. apply filter_In in Hx as [Hx _].
  apply (proj1 (sorted_set_In _ _)) in Hx.
  apply in_map_iff in Hx as (r & <- & Hr).
  apply in_map. now apply filter_In in Hr.
Qed.

Lemma protein_target_nonneg (self : Needler) (b : Built) (m : Model)
  (l : list Row) :
  0 <= protein_target_of self b m l.
Proof. unfold protein_target_of. lia. Qed.

Lemma dirname_examples :
  dirname "out/needle.csv.temp" = "out" /\
  dirname "needle.csv.temp" = "" /\
  dirname "/needle.csv.temp" = "/" /\
  dirname "runs//needle.csv.temp" = "runs".
Proof. repeat split. Qed.

Lemma with_parent_id (fs : FileSystem) :
  parent_exists fs = true -> with_parent fs = fs.
Proof. destruct fs as [p d t]. simpl. now intros ->. Qed.

(** The three ways [save] ends: the parent directory cannot be created,
    a projected column is missing, or the artifact is moved to [dst]. *)
Lemma save_cases (self : Needler) (d : DataFrame) (fs : FileSystem) :
  (parent_dir self = "" /\
   save self d fs = (fs, Raise (FileNotFoundError ""))) \/
  (parent_dir self <> "" /\
   exists c, In c save_columns /\ has_column d c = false /\
             save self d fs = (with_parent fs, Raise (KeyError c))) \/
  (parent_dir self <> "" /\
   (forall c, In c save_columns -> has_column d c = true) /\
   save self d fs
   = (mkFileSystem true (Some (map project (selected d))) None, Ok tt)).
Proof.
  unfold save, parent_dir, path_exists, makedirs.
  destruct (String.eqb_spec (dirname (dst self ++ ".temp")%string) "")
    as [ E | N ].
  - left. split; [ exact E | ]. now rewrite E.
  - right.
    assert (Hfs : (if parent_exists fs then Ok fs else Ok (with_parent fs))
                  = Ok (with_parent fs)).
    { destruct (parent_exists fs) eqn:P; [ | reflexivity ].
      now rewrite with_parent_id. }
    rewrite Hfs.
    destruct (find (fun c => negb (has_column d c)) save_columns) as [ c | ]
      eqn:F.
    + left. split; [ exact N | ]. exists c.
      apply find_some in F as [Hc Hm]. apply negb_true_iff in Hm. auto.
    + right. split; [ exact N | ]. split; [ | reflexivity ].
      intros c Hc. pose proof (find_none _ _ F c Hc) as H.
      now apply negb_false_iff in H.
Qed.

Section SearchLoop.

Variables (self : Needler) (o : Oracle) (b : Built) (target_dt : Z).

Local Abbreviation body := (loop_body self o b target_dt).

Lemma loop_body_iteration (st : Loop) :
  iteration self b st (check o (checks st) (l_solver st))
            (fst (body st)) (snd (body st)) /\
  checks (snd (body st)) = S (checks st) /\
  map protein_id (rows (l_df (snd (body st))))
  = map protein_id (rows (l_df st)).
Proof.
  unfold loop_body.
  assert (Hs : forall s1,
             s1 = (if 0 <? timeout self
                   then if target_dt - now o (S (checks st)) <? 0
                        then solver_set_timeout 1 (l_solver st)
                        else solver_set_timeout
                               (Z.quot (target_dt - now o (S (checks st)))
                                       1000000 * 1000) (l_solver st)
                   else l_solver st) ->
             assertions s1 = assertions (l_solver st)).
  { intros s1 ->. destruct (0 <? timeout self); [ | reflexivity ].
    destruct (target_dt - now o (S (checks st)) <? 0); reflexivity. }
  specialize (Hs _ eq_refl).
  destruct (check o (checks st) (l_solver st)) as [ m | | ].
  - destruct (best_ever_result st <? protein_target_of self b m (rows (l_df st)))
      eqn:Hlt.
    + apply Z.ltb_lt in Hlt.
      match goal with
      | |- context [ save self ?d (l_fs st) ] =>
          destruct (save_cases self d (l_fs st))
            as [ (Hpd & ->) | [ (Hpd & c & _ & _ & ->) | (_ & _ & ->) ] ]
      end.
      * cbn [fst snd]. split; [ | split;
          [ reflexivity | cbn [l_df rows]; apply annotate_protein_id ] ].
        apply it_save_failed; try reflexivity; try assumption.
        cbn [l_fs]. now rewrite Hpd.
      * cbn [fst snd]. split; [ | split;
          [ reflexivity | cbn [l_df rows]; apply annotate_protein_id ] ].
        apply it_save_failed; try reflexivity; try assumption.
        cbn [l_fs]. apply String.eqb_neq in Hpd. now rewrite Hpd.
      * destruct (protein_target_of self b m (rows (l_df st)) =? _) eqn:Heq;
          cbn [fst snd]; (split; [ | split;
            [ reflexivity | cbn [l_df rows]; apply annotate_protein_id ] ]).
        -- apply Z.eqb_eq in Heq. cbn [rows] in Heq.
           rewrite annotate_protein_id in Heq.
           eapply it_improved; try reflexivity;
             try assumption.
           ++ cbn [l_solver assertions solver_add]. now rewrite Hs.
           ++ right. split; [ reflexivity | exact Heq ].
        -- apply Z.eqb_neq in Heq. cbn [rows] in Heq.
           rewrite annotate_protein_id in Heq.
           eapply it_improved; try reflexivity;
             try assumption.
           ++ cbn [l_solver assertions solver_add]. now rewrite Hs.
           ++ left. split; [ reflexivity | exact Heq ].
    + apply Z.ltb_ge in Hlt. cbn [fst snd]. split; [ | split;
        [ reflexivity | cbn [l_df rows]; apply annotate_protein_id ] ].
      apply it_stalled; try reflexivity; [ assumption | ].
      repeat split; assumption.
  - cbn [fst snd]. split; [ | split; reflexivity ].
    apply it_unsat; try reflexivity. repeat split; assumption.
  - destruct (0 <? timeout self) eqn:Ht.
    + apply Z.ltb_lt in Ht.
      destruct (target_dt - now o (S (checks st)) <? 0);
        cbn [fst snd]; (split; [ | split; reflexivity ]);
        (apply it_unknown; try reflexivity;
         [ repeat split; assumption | left; auto ]).
    + apply Z.ltb_ge in Ht.
      destruct (remainder_seconds st) as [ r | ] eqn:Hr.
      * destruct (r <? 0); cbn [fst snd];
          (split; [ | split; reflexivity ]);
          (apply it_unknown; try reflexivity;
           [ repeat split; assumption | right; rewrite Hr; auto ]).
      * cbn [fst snd]. split; [ | split; reflexivity ].
        apply it_unknown; try reflexivity;
          [ repeat split; assumption | right; rewrite Hr; auto ].
Qed.

Lemma while_true_inv (P : Loop -> Prop) :
  (forall st, P st -> P (snd (body st))) ->
  forall fuel st, P st -> P (snd (while_true fuel self o b target_dt st)).
Proof.
  intros Hstep. induction fuel as [ | fuel IH ]; intros st Hst; simpl.
  - exact Hst.
  - specialize (Hstep st Hst).
    destruct (body st) as [[ | out ] st']; simpl in *; auto.
Qed.

Lemma persisted_inv_step (st : Loop) :
  persisted_inv st -> persisted_inv (snd (body st)).
Proof.
  intros [Hs Hb]. destruct (loop_body_iteration st) as (Hit & _ & _).
  remember (snd (body st)) as st'. remember (fst (body st)) as c.
  remember (check o (checks st) (l_solver st)) as r.
  unfold persisted_inv.
  destruct Hit as [ m c st' content pt Hlt Hbest _ _ Hp _ _ _
                  | m ex st' pt Hlt Hbest _ _ Hp _ _
                  | m st' _ Hbest _ (_ & Hp & _)
                  | st' Hbest _ (_ & Hp & _)
                  | c st' Hbest _ (_ & Hp & _) _ ];
    rewrite Hp, Hbest.
  - split.
    + simpl. constructor; [ assumption | ].
      apply Forall_map. eapply Forall_impl; [ | exact Hb ].
      simpl. intros p Hpb. lia.
    + constructor; [ simpl; lia | ].
      eapply Forall_impl; [ | exact Hb ]. simpl. intros p Hpb. lia.
  - split; [ assumption | ].
    eapply Forall_impl; [ | exact Hb ]. simpl. intros p Hpb.
    fold pt. lia.
  - auto.
  - auto.
  - auto.
Qed.

Lemma sorted_snoc (l : list Z) (a : Z) :
  StronglySorted Z.lt l -> Forall (fun x => x < a) l ->
  StronglySorted Z.lt (l ++ [a]).
Proof.
  induction 1 as [ | x l Hs IH Hx ]; intros Ha; simpl.
  - repeat constructor.
  - inversion Ha; subst. constructor; [ auto | ].
    apply Forall_app. split; [ assumption | repeat constructor; assumption ].
Qed.

Lemma ratchet_inv_step (st : Loop) :
  ratchet_inv st -> ratchet_inv (snd (body st)).
Proof.
  intros [Hs Hb]. destruct (loop_body_iteration st) as (Hit & _ & _).
  remember (snd (body st)) as st'. remember (fst (body st)) as c.
  remember (check o (checks st) (l_solver st)) as r.
  unfold ratchet_inv.
  destruct Hit as [ m c st' content pt Hlt Hbest _ _ _ _ Ha _
                  | m ex st' pt Hlt Hbest _ _ _ _ Ha
                  | m st' _ Hbest _ (_ & _ & Ha & _)
                  | st' Hbest _ (_ & _ & Ha & _)
                  | c st' Hbest _ (_ & _ & Ha & _) _ ];
    rewrite Ha, Hbest.
  - unfold ratchet_bounds. rewrite flat_map_app. simpl. split.
    + apply sorted_snoc; [ assumption | ].
      eapply Forall_impl; [ | exact Hb ]. simpl. intros n Hn. lia.
    + apply Forall_app. split.
      * eapply Forall_impl; [ | exact Hb ]. simpl. intros n Hn. lia.
      * repeat constructor. lia.
  - split; [ assumption | ].
    eapply Forall_impl; [ | exact Hb ]. simpl. intros n Hn. fold pt. lia.
  - auto.
  - auto.
  - auto.
Qed.

Lemma while_true_bound (fuel : nat) :
  forall st,
    let n := num_proteins (rows (l_df st)) in
    let run := while_true fuel self o b target_dt st in
    (sat_checks (snd run)
     <= sat_checks st + Z.to_nat (n - best_ever_result st) + 1)%nat /\
    ((Z.to_nat (n - best_ever_result st) + 1 <= fuel)%nat ->
     fst run <> OutOfFuel).
Proof.
  induction fuel as [ | fuel IH ]; intros st; cbv zeta; simpl.
  - split; lia.
  - destruct (loop_body_iteration st) as (Hit & _ & Hids).
    destruct (body st) as [c st'] eqn:E. cbn [fst snd] in Hit, Hids.
    remember (check o (checks st) (l_solver st)) as r.
    assert (Hn : num_proteins (rows (l_df st'))
                 = num_proteins (rows (l_df st)))
      by (unfold num_proteins; now rewrite Hids).
    destruct Hit as [ m c st' content pt Hlt Hbest Hsat _ _ _ _ Hc
                    | m ex st' pt Hlt Hbest Hsat _ _ _ _
                    | m st' _ Hbest Hsat _
                    | st' Hbest Hsat _
                    | c st' Hbest Hsat _ Hc ].
    + pose proof (protein_target_le self b m (rows (l_df st))) as Hle.
      fold pt in Hle. clearbody pt.
      destruct Hc as [ [-> Hne] | [-> Heq] ].
      * specialize (IH st'). cbv zeta in IH. rewrite Hn, Hbest, Hsat in IH.
        destruct IH as [IH1 IH2]. split; [ lia | ].
        intros Hf. apply IH2. lia.
      * cbn [fst snd]. split; [ lia | discriminate ].
    + cbn [fst snd]. split; [ lia | discriminate ].
    + cbn [fst snd]. split; [ lia | discriminate ].
    + cbn [fst snd]. split; [ lia | discriminate ].
    + assert (Hout : exists out, c = Break out /\ out <> OutOfFuel).
      { destruct Hc as [ [_ [ -> | -> ]] | [_ Hc] ];
          try (eexists; split; [ reflexivity | discriminate ]).
        destruct (remainder_seconds st);
          [ destruct Hc as [ -> | -> ] | subst c ];
          eexists; split; try reflexivity; discriminate. }
      destruct Hout as (out & -> & Hout).
      cbn [fst snd]. split; [ lia | intros _; exact Hout ].
Qed.

End SearchLoop.

Lemma sorted_rev (l : list Z) :
  StronglySorted (fun x y => y < x) l -> StronglySorted Z.lt (rev l).
Proof.
  induction 1 as [ | x l Hs IH Hx ]; simpl; [ constructor | ].
  apply sorted_snoc; [ assumption | ].
  apply Forall_rev. exact Hx.
Qed.

Lemma build_model_ratchet (e : Entropy) (self : Needler) (g : Globals)
  (ld : Loaded) (b : Built) :
  EntropyOk e ->
  build_model e self g ld = Ok b ->
  ratchet_bounds (assertions (solver b)) = [0].
Proof.
  intros He Hb.
  destruct (build_model_inv e He self g ld b Hb)
    as (k & lo & hi & bal & slots & _ & _ & _ & _ & Has & Hbal & _ & Hsl
        & _).
  rewrite Has. unfold ratchet_bounds. simpl. rewrite flat_map_app. simpl.
  assert (H1 : flat_map (fun a => match a with
                                  | SumGt _ n => [n]
                                  | Assert _ => []
                                  end) bal = []).
  { clear - Hbal. induction Hbal as [ | p a l l' (pb & -> & _) HF IH ];
      simpl; auto. }
  assert (H2 : flat_map (fun a => match a with
                                  | SumGt _ n => [n]
                                  | Assert _ => []
                                  end) slots = []).
  { clear - Hsl. induction Hsl as [ | a l (i & vars & -> & _) HF IH ];
      simpl; auto. }
  now rewrite H1, H2.
Qed.

(** C3. Monotonic improvement: an iteration calls the persister exactly
    when the engine answers sat with a [protein_target] strictly above
    [best_ever_result]; and the [protein_target] values of the artifacts
    persisted during a run, oldest first, increase strictly. *)
Theorem monotonic_improvement (self : Needler) (o : Oracle) (ld : Loaded)
  (b : Built) (fs : FileSystem) (fuel : nat) :
  (forall target_dt st,
      let st' := snd (loop_body self o b target_dt st) in
      (save_calls st' = S (save_calls st) <-> improving self o b st) /\
      (save_calls st' = save_calls st <-> ~ improving self o b st)) /\
  StronglySorted Z.lt
    (rev (map fst (persisted (snd (optimize self o ld b fs fuel))))).
Proof.
  split.
  - intros target_dt st. cbv zeta.
    destruct (loop_body_iteration self o b target_dt st) as (Hit & _ & _).
    remember (snd (loop_body self o b target_dt st)) as st'.
    remember (fst (loop_body self o b target_dt st)) as c.
    unfold improving.
    destruct Hit as [ m c st' content pt Hlt _ _ Hsave _ _ _ _
                    | m ex st' pt Hlt _ _ Hsave _ _ _
                    | m st' Hle _ _ (Hsave & _)
                    | st' _ _ (Hsave & _)
                    | c st' _ _ (Hsave & _) _ ].
    + split; split; intros H; try lia.
      * exists m. auto.
      * exfalso. apply H. exists m. auto.
    + split; split; intros H; try lia.
      * exists m. auto.
      * exfalso. apply H. exists m. auto.
    + split; split; intros H; try lia.
      * destruct H as (m' & [= <-] & H). lia.
      * intros (m' & [= <-] & H'). lia.
    + split; split; intros H; try lia.
      * destruct H as (m' & F & _). discriminate F.
      * intros (m' & F & _). discriminate F.
    + split; split; intros H; try lia.
      * destruct H as (m' & F & _). discriminate F.
      * intros (m' & F & _). discriminate F.
  - apply sorted_rev. unfold optimize.
    apply (while_true_inv self o b _ persisted_inv).
    + apply persisted_inv_step.
    + split; constructor.
Qed.

(** C6, on the code: with an unlimited budget ([timeout <= 0]) an
    [unknown] answer of the first check ends the run with an
    UnboundLocalError for [remainder_seconds], not with a terminal state. *)
Theorem unknown_unlimited_raises (self : Needler) (o : Oracle) (ld : Loaded)
  (b : Built) (fs : FileSystem) (fuel : nat) :
  timeout self <= 0 ->
  check o 0 (solver b) = unknown ->
  fst (optimize self o ld b fs (S fuel))
  = Raised (UnboundLocalError "remainder_seconds").
Proof.
  intros Ht Hc. unfold optimize. simpl. unfold loop_body.
  cbn [checks l_solver remainder_seconds]. rewrite Hc.
  apply Z.ltb_ge in Ht. rewrite Ht. reflexivity.
Qed.

Lemma unknown_unlimited_raises_witness :
  fst (optimize scenario undecided scenario_loaded scenario_built fs0 1)
  = Raised (UnboundLocalError "remainder_seconds").
Proof.
  apply (unknown_unlimited_raises scenario undecided scenario_loaded
           scenario_built fs0 0).
  - simpl. lia.
  - reflexivity.
Defined.

(** With a positive budget an [unknown] answer ends the run in [TimedOut]
    or [Halted], and the file system is as the iteration found it. *)
Lemma unknown_limited_terminal (self : Needler) (o : Oracle) (b : Built)
  (target_dt : Z) (st : Loop) :
  0 < timeout self ->
  check o (checks st) (l_solver st) = unknown ->
  (fst (loop_body self o b target_dt st) = Break TimedOut \/
   fst (loop_body self o b target_dt st) = Break Halted) /\
  l_fs (snd (loop_body self o b target_dt st)) = l_fs st /\
  persisted (snd (loop_body self o b target_dt st)) = persisted st.
Proof.
  intros Ht Hc.
  destruct (loop_body_iteration self o b target_dt st) as (Hit & _ & _).
  rewrite Hc in Hit.
  remember (snd (loop_body self o b target_dt st)) as st'.
  remember (fst (loop_body self o b target_dt st)) as c.
  inversion Hit as [ | | | | c' st'' _ _ (_ & Hp & _ & Hf) Hcase ]; subst c' st''.
  repeat split; try assumption.
  destruct Hcase as [ [_ H] | [H _] ]; [ exact H | lia ].
Qed.

Lemma optimize_first_bound (self : Needler) (o : Oracle) (ld : Loaded)
  (b : Built) (fs : FileSystem) (fuel : nat) :
  ratchet_bounds (assertions (solver b)) = [0] ->
  exists rest,
    ratchet_bounds
      (assertions (l_solver (snd (optimize self o ld b fs fuel))))
    = 0 :: rest.
Proof.
  intros H0. unfold optimize.
  apply (while_true_inv self o b _
           (fun st => exists rest,
                ratchet_bounds (assertions (l_solver st)) = 0 :: rest)).
  - intros st (rest & Hst).
    destruct (loop_body_iteration self o b
                (now o 0 + timeout self * 1000000) st) as (Hit & _ & _).
    remember (snd (loop_body self o b (now o 0 + timeout self * 1000000) st))
      as st'.
    remember (fst (loop_body self o b (now o 0 + timeout self * 1000000) st))
      as c.
    remember (check o (checks st) (l_solver st)) as r.
    destruct Hit as [ m c st' content pt _ _ _ _ _ _ Ha _
                    | m ex st' pt _ _ _ _ _ _ Ha
                    | m st' _ _ _ (_ & _ & Ha & _)
                    | st' _ _ (_ & _ & Ha & _)
                    | c st' _ _ (_ & _ & Ha & _) _ ];
      rewrite Ha; try (now exists rest).
    unfold ratchet_bounds in *. rewrite flat_map_app, Hst. simpl.
    now eexists.
  - cbn [l_solver]. rewrite H0. now exists [].
Qed.

(** C7. The lower bounds of the objective assertions start at 0 and
    increase strictly; the loop makes at most [num_proteins + 1]
    satisfiable iterations, and with that much fuel it has ended, whatever
    the engine answers. *)
Theorem ratchet_terminates (e : Entropy) (self : Needler) (g : Globals)
  (o : Oracle) (ld : Loaded) (b : Built) (fs : FileSystem) (fuel : nat) :
  EntropyOk e ->
  build_model e self g ld = Ok b ->
  let n := nunique (map protein_id (rows (df ld))) in
  let run := optimize self o ld b fs fuel in
  (exists rest,
      ratchet_bounds (assertions (l_solver (snd run))) = 0 :: rest) /\
  StronglySorted Z.lt (ratchet_bounds (assertions (l_solver (snd run)))) /\
  (sat_checks (snd run) <= n + 1)%nat /\
  ((n + 1 <= fuel)%nat -> fst run <> OutOfFuel).
Proof.
  intros He Hb. cbv zeta.
  pose proof (build_model_ratchet e self g ld b He Hb) as H0.
  split; [ now apply optimize_first_bound | ].
  unfold optimize. split.
  - apply (while_true_inv self o b _ ratchet_inv).
    + apply ratchet_inv_step.
    + unfold ratchet_inv. cbn [l_solver best_ever_result].
      rewrite H0. split; repeat constructor. lia.
  - pose proof (while_true_bound self o b
                  (now o 0 + timeout self * 1000000) fuel
                  (mkLoop (solver b) (df ld) fs 0 None 0 0 0 [])) as H.
    cbv zeta in H. cbn [l_df best_ever_result sat_checks] in H.
    unfold num_proteins in H. rewrite Z.sub_0_r, Nat2Z.id in H.
    exact H.
Qed.

Lemma ratchet_terminates_witness :
  (sat_checks
     (snd (optimize scenario stalling scenario_loaded scenario_built fs0 4))
   <= 3 + 1)%nat /\
  fst (optimize scenario stalling scenario_loaded scenario_built fs0 4)
  <> OutOfFuel.
Proof.
  destruct (ratchet_terminates entropy0 scenario (cli scenario) stalling
              scenario_loaded scenario_built fs0 4 entropy0_ok eq_refl)
    as (_ & _ & H1 & H2).
  split; [ exact H1 | ].
  apply H2. apply Nat.le_refl.
Defined.

Lemma monotonic_improvement_witness :
  StronglySorted Z.lt
    (rev (map fst (persisted
       (snd (optimize scenario stalling scenario_loaded scenario_built
                      fs0 4))))).
Proof.
  exact (proj2 (monotonic_improvement scenario stalling scenario_loaded
                  scenario_built fs0 4)).
Defined.

(** The store is append-only: every assertion of the model is still there
    at each later check, so a solution of a later check is a solution of
    the model. *)
Lemma optimize_assertions_grow (self : Needler) (o : Oracle) (ld : Loaded)
  (b : Built) (fs : FileSystem) (fuel : nat) :
  incl (assertions (solver b))
       (assertions (l_solver (snd (optimize self o ld b fs fuel)))).
Proof.
  unfold optimize.
  apply (while_true_inv self o b _
           (fun st => incl (assertions (solver b)) (assertions (l_solver st)))).
  - intros st Hst.
    destruct (loop_body_iteration self o b
                (now o 0 + timeout self * 1000000) st) as (Hit & _ & _).
    remember (snd (loop_body self o b (now o 0 + timeout self * 1000000) st))
      as st'.
    remember (fst (loop_body self o b (now o 0 + timeout self * 1000000) st))
      as c.
    remember (check o (checks st) (l_solver st)) as r.
    destruct Hit as [ m c st' content pt _ _ _ _ _ _ Ha _
                    | m ex st' pt _ _ _ _ _ _ Ha
                    | m st' _ _ _ (_ & _ & Ha & _)
                    | st' _ _ (_ & _ & Ha & _)
                    | c st' _ _ (_ & _ & Ha & _) _ ];
      rewrite Ha; try assumption.
    now apply incl_appl.
  - apply incl_refl.
Qed.

Lemma dict_fromkeys_NoDup (l : list string) : NoDup (dict_fromkeys l).
Proof.
  induction l as [ | x t IH ]; simpl; constructor.
  - apply remove_In.
  - clear - IH. induction IH as [ | y l Hy Hl IHl ]; simpl; [ constructor | ].
    destruct (string_dec x y); [ assumption | ].
    constructor; [ | assumption ].
    intros H. apply Hy. now apply in_remove in H.
Qed.

(** After [load], [len(self.protein_order)] is the number of distinct
    protein identifiers of the table. *)
Lemma load_num_proteins (e : Entropy) (self : Needler) (g : Globals)
  (ld : Loaded) :
  load e self g = Ok ld ->
  List.length (protein_order ld) = nunique (map protein_id (rows (df ld))).
Proof.
  intros H. apply load_inv in H as (_ & kept & dlog & _ & H).
  cbv zeta in H. destruct H as (Hrows & _ & _ & Hprot & _).
  unfold nunique. apply Permutation_length.
  apply NoDup_Permutation; [ | apply NoDup_nodup | ].
  - rewrite Hprot.
    destruct (sort_groups self); [ apply dict_fromkeys_NoDup | ].
    destruct (shuffle self); [ apply dict_fromkeys_NoDup | apply sorted_set_NoDup ].
  - intros x. rewrite nodup_In, Hrows, Hprot, map_map.
    destruct (sort_groups self); [ exact (dict_fromkeys_In x _) | ].
    destruct (shuffle self);
      [ exact (dict_fromkeys_In x _) | exact (sorted_set_In x _) ].
Qed.

(* ------------------------------------------------------------------ *)
(** ** The persisted artifact *)

Lemma artifact_rows_of (used targets : list string) (p : string)
  (l : list Row) :
  peptide_ids_of p
    (filter (fun r => peptide_in_model r && protein_is_targeted r)
       (map (fun r => set_flags (mem (peptide_id r) used)
                                (mem (protein_id r) targets) r) l))
  = if mem p targets
    then peptide_ids_of p (filter (fun r => mem (peptide_id r) used) l)
    else [].
Proof.
  unfold peptide_ids_of.
  induction l as [ | r t IH ]; simpl.
  - now destruct (mem p targets).
  - destruct (mem (peptide_id r) used) eqn:Hu; simpl.
    + destruct (mem (protein_id r) targets) eqn:Ht; simpl.
      * destruct (String.eqb_spec (protein_id r) p) as [ E | N ]; simpl.
        -- rewrite IH. rewrite <- E, Ht. reflexivity.
        -- exact IH.
      * destruct (String.eqb_spec (protein_id r) p) as [ E | N ]; simpl.
        -- rewrite IH. rewrite <- E, Ht. reflexivity.
        -- exact IH.
    + exact IH.
Qed.

(** In the content that [save] writes, each protein has none or exactly
    [peps_per_prot] distinct peptides, whatever model the engine gave. *)
Lemma artifact_all_or_nothing (self : Needler) (b : Built) (m : Model)
  (l : list Row) (p : string) :
  nunique (peptide_ids_of p (artifact_of self b m l)) = 0%nat \/
  Z.of_nat (nunique (peptide_ids_of p (artifact_of self b m l)))
  = peps_per_prot self.
Proof.
  unfold artifact_of, annotate.
  rewrite artifact_rows_of.
  destruct (mem p (protein_targets (peps_per_prot self)
                     (used_pep_ids m (peptides b)) l)) eqn:Hm.
  - right. apply mem_In in Hm. unfold protein_targets in Hm.
    apply filter_In in Hm as [_ Hm]. now apply Z.eqb_eq in Hm.
  - left. reflexivity.
Qed.

Lemma persisted_all_or_nothing (self : Needler) (o : Oracle) (ld : Loaded)
  (b : Built) (fs : FileSystem) (fuel : nat) :
  Forall (fun pc =>
            forall p,
              nunique (peptide_ids_of p (snd pc)) = 0%nat \/
              Z.of_nat (nunique (peptide_ids_of p (snd pc)))
              = peps_per_prot self)
         (persisted (snd (optimize self o ld b fs fuel))).
Proof.
  unfold optimize.
  apply (while_true_inv self o b _
           (fun st => Forall (fun pc =>
              forall p,
                nunique (peptide_ids_of p (snd pc)) = 0%nat \/
                Z.of_nat (nunique (peptide_ids_of p (snd pc)))
                = peps_per_prot self) (persisted st))).
  - intros st Hst.
    destruct (loop_body_iteration self o b
                (now o 0 + timeout self * 1000000) st) as (Hit & _ & _).
    remember (snd (loop_body self o b (now o 0 + timeout self * 1000000) st))
      as st'.
    remember (fst (loop_body self o b (now o 0 + timeout self * 1000000) st))
      as c.
    remember (check o (checks st) (l_solver st)) as r.
    destruct Hit as [ m c st' content pt _ _ _ _ Hp _ _ _
                    | m ex st' pt _ _ _ _ Hp _ _
                    | m st' _ _ _ (_ & Hp & _)
                    | st' _ _ (_ & Hp & _)
                    | c st' _ _ (_ & Hp & _) _ ];
      rewrite Hp; try assumption.
    constructor; [ | assumption ].
    intros p. apply artifact_all_or_nothing.
  - constructor.
Qed.

(* ------------------------------------------------------------------ *)
(** ** The model builder returns *)

Lemma foldM_total {A S : Type} (f : S -> A -> result S) (l : list A) :
  (forall s x, In x l -> exists s', f s x = Ok s') ->
  forall s, exists s', foldM f l s = Ok s'.
Proof.
  induction l as [ | x t IH ]; simpl; intros H s.
  - now exists s.
  - destruct (H s x (or_introl eq_refl)) as (s1 & ->). simpl.
    apply IH. intros s2 y Hy. apply H. now right.
Qed.

Lemma load_peptide_order (e : Entropy) (self : Needler) (g : Globals)
  (ld : Loaded) :
  EntropyOk e ->
  load e self g = Ok ld ->
  forall r, In r (rows (df ld)) -> In (peptide_id r) (peptide_order ld).
Proof.
  intros He H r Hr. apply load_inv in H as (_ & kept & dlog & _ & H).
  cbv zeta in H. destruct H as (Hrows & _ & Hpep & _).
  rewrite Hrows in Hr. apply in_map_iff in Hr as (r0 & <- & Hr0).
  assert (H1 : In r0 (if shuffle self then shuffle_ids e kept else kept)).
  { destruct (sort_groups self); [ | assumption ].
    eapply Permutation_in; [ symmetry; apply sort_values_perm | exact Hr0 ]. }
  rewrite Hpep. change (peptide_id (window (float_column (db_src self)) (rt_width self) r0))
    with (peptide_id r0).
  destruct (shuffle self).
  - apply dict_fromkeys_In. now apply in_map.
  - apply sorted_set_In. now apply in_map.
Qed.



(* ------------------------------------------------------------------ *)
(** * Further properties *)

(** ** What [load] keeps *)

Lemma filter_map_comm {A B : Type} (f : A -> B) (p : B -> bool)
  (l : list A) :
  filter p (map f l) = map f (filter (fun x => p (f x)) l).
Proof.
  induction l as [ | x t IH ]; simpl; [ reflexivity | ].
  destruct (p (f x)); simpl; now rewrite IH.
Qed.

Lemma identified_rows (l : list Row) :
  transform_nunique
    (map (fun r => set_peptide_id (peptide_sequence r) r)
         (map (fun r => set_protein_id (accession r) r) l))
  = map (fun r =>
           set_protein_peps (distinct_peptides l (accession r))
             (set_peptide_id (peptide_sequence r)
                (set_protein_id (accession r) r))) l.
Proof.
  unfold transform_nunique. rewrite !map_map. apply map_ext. intros r.
  cbn [protein_id set_peptide_id set_protein_id peptide_sequence].
  unfold distinct_peptides, peptide_ids_of. do 3 f_equal.
  generalize (accession r). intros acc.
  induction l as [ | x t IH ]; simpl; [ reflexivity | ].
  destruct (String.eqb (accession x) acc); simpl; now rewrite IH.
Qed.

Lemma drop_insufficient_script (self : Needler) (a : Namespace.t)
  (l kept : list Row) (dlog : list LogRecord) :
  Namespace.peps_per_prot a = peps_per_prot self ->
  drop_insufficient self (Some a) l = Ok (kept, dlog) ->
  kept = filter (fun r => peps_per_prot self <=? protein_peps r) l.
Proof.
  intros Ha. unfold drop_insufficient.
  destruct (existsb (fun r => protein_peps r <? peps_per_prot self) l) eqn:Ex;
    simpl; intros [= <- _].
  - now rewrite Ha.
  - clear - Ex. induction l as [ | x t IH ]; simpl in *; [ reflexivity | ].
    apply orb_false_iff in Ex as [H1 H2].
    apply Z.ltb_ge in H1. apply Z.leb_le in H1. rewrite H1.
    now rewrite <- IH.
Qed.

Lemma apply_uuid_payload (e : Entropy) (l : list Row) :
  forall n, map payload (apply_uuid e n l) = map payload l.
Proof.
  induction l as [ | r t IH ]; simpl; intros n; [ reflexivity | ].
  now rewrite IH.
Qed.

Lemma shuffle_ids_payload (e : Entropy) (l : list Row) :
  EntropyOk e ->
  Permutation (map payload l) (map payload (shuffle_ids e l)).
Proof.
  intros He. unfold shuffle_ids.
  rewrite <- (Permutation_map payload (sample_perm e He _)).
  rewrite apply_uuid_payload, map_map. reflexivity.
Qed.

Lemma load_payload (e : Entropy) (self : Needler) (g : Globals)
  (ld : Loaded) :
  EntropyOk e ->
  load e self g = Ok ld ->
  exists kept dlog,
    drop_insufficient self g
      (transform_nunique
         (map (fun r => set_peptide_id (peptide_sequence r) r)
              (map (fun r => set_protein_id (accession r) r)
                   (rows (db_src self)))))
    = Ok (kept, dlog) /\
    Permutation (map payload kept) (map payload (rows (df ld))).
Proof.
  intros He H. apply load_inv in H as (_ & kept & dlog & Hd & H).
  cbv zeta in H. destruct H as (Hrows & _).
  exists kept, dlog. split; [ exact Hd | ].
  rewrite Hrows, map_map.
  change (map (fun x => payload (window (float_column (db_src self)) (rt_width self) x)))
    with (map payload).
  assert (H1 : Permutation (map payload kept)
                 (map payload (if shuffle self then shuffle_ids e kept
                               else kept))).
  { destruct (shuffle self); [ now apply shuffle_ids_payload | reflexivity ]. }
  destruct (sort_groups self); [ | exact H1 ].
  rewrite H1. apply Permutation_map, sort_values_perm.
Qed.

Lemma load_rows_spec (e : Entropy) (self : Needler)
  (a : Namespace.t) (ld : Loaded) :
  EntropyOk e ->
  Namespace.peps_per_prot a = peps_per_prot self ->
  load e self (Some a) = Ok ld ->
  Permutation
    (map raw (filter (sufficient (peps_per_prot self) (rows (db_src self)))
                     (rows (db_src self))))
    (map raw (rows (df ld))) /\
  Forall (fun r =>
            protein_peps r
            = distinct_peptides (rows (db_src self)) (accession r) /\
            peps_per_prot self <= protein_peps r)
         (rows (df ld)).
Proof.
  intros He Ha Hl.
  destruct (load_payload e self (Some a) ld He Hl) as (kept & dlog & Hd & Hp).
  apply (drop_insufficient_script self a _ _ _ Ha) in Hd.
  rewrite identified_rows, filter_map_comm in Hd.
  cbn [protein_peps set_protein_peps] in Hd.
  split.
  - apply (Permutation_map fst) in Hp. rewrite !map_map in Hp.
    cbn [payload fst] in Hp. rewrite <- Hp, Hd, map_map.
    reflexivity.
  - apply Forall_forall. intros r Hr.
    apply (in_map payload) in Hr.
    apply (Permutation_in _ (Permutation_sym Hp)) in Hr.
    apply in_map_iff in Hr as (r0 & E & Hr0).
    rewrite Hd in Hr0. apply in_map_iff in Hr0 as (c & <- & Hc).
    apply filter_In in Hc as [_ Hc]. apply Z.leb_le in Hc.
    unfold payload, raw in E. cbn in E.
    injection E as E1 _ _ _ _ _ _ E2.
    rewrite <- E2, <- E1. auto.
Qed.

(** X1. Run as a script ([args.peps_per_prot] is the constructor's value),
    [load] keeps exactly the csv rows of the proteins that have at least
    [peps_per_prot] distinct peptide sequences, each once and with its csv
    columns unchanged, whatever the shuffle and sort options; and the
    column [protein_peps] is that number of distinct sequences. *)
Theorem load_keeps_sufficient_proteins (e : Entropy) (self : Needler)
  (a : Namespace.t) (ld : Loaded) :
  EntropyOk e ->
  Namespace.peps_per_prot a = peps_per_prot self ->
  load e self (Some a) = Ok ld ->
  Permutation
    (map raw (filter (sufficient (peps_per_prot self) (rows (db_src self)))
                     (rows (db_src self))))
    (map raw (rows (df ld))) /\
  Forall (fun r =>
            protein_peps r
            = distinct_peptides (rows (db_src self)) (accession r) /\
            peps_per_prot self <= protein_peps r)
         (rows (df ld)).
Proof. apply load_rows_spec. Qed.

Lemma load_keeps_sufficient_proteins_witness :
  Permutation
    (map raw (filter (sufficient 2 (rows mixed_csv)) (rows mixed_csv)))
    (map raw (rows (df mixed_loaded))) /\
  Forall (fun r => 2 <= protein_peps r) (rows (df mixed_loaded)).
Proof.
  destruct (load_keeps_sufficient_proteins entropy0 mixed
              (Namespace.mk true 2) mixed_loaded entropy0_ok eq_refl eq_refl)
    as [H1 H2].
  split; [ exact H1 | ].
  eapply Forall_impl; [ | exact H2 ]. intros r Hr. exact (proj2 Hr).
Defined.

(** ** The processing orders *)

Lemma load_orders_spec (e : Entropy) (self : Needler) (g : Globals)
  (ld : Loaded) :
  load e self g = Ok ld ->
  NoDup (protein_order ld) /\
  NoDup (peptide_order ld) /\
  (forall x, In x (protein_order ld) <->
             exists r, In r (rows (df ld)) /\ protein_id r = x) /\
  (forall x, In x (peptide_order ld) <->
             exists r, In r (rows (df ld)) /\ peptide_id r = x).
Proof.
  intros H. apply load_inv in H as (_ & kept & dlog & _ & H).
  cbv zeta in H. destruct H as (Hrows & _ & Hpep & Hprot & _).
  assert (Hmem : forall (f : Row -> string) x,
             (forall dt w r, f (window dt w r) = f r) ->
             (exists r, In r (rows (df ld)) /\ f r = x) <->
             In x (map f (if shuffle self then shuffle_ids e kept else kept))).
  { intros f x Hf. rewrite Hrows. split.
    - intros (r & Hr & <-). apply in_map_iff in Hr as (r0 & <- & Hr0).
      rewrite Hf. apply in_map.
      destruct (sort_groups self); [ | assumption ].
      eapply Permutation_in; [ symmetry; apply sort_values_perm | exact Hr0 ].
    - intros Hx. apply in_map_iff in Hx as (r0 & <- & Hr0).
      exists (window (float_column (db_src self)) (rt_width self) r0).
      split; [ | apply Hf ].
      apply in_map.
      destruct (sort_groups self); [ | assumption ].
      eapply Permutation_in; [ apply sort_values_perm | exact Hr0 ]. }
  assert (Hsorted : forall x l,
             In x (map protein_id (sort_values_protein_peps l)) <->
             In x (map protein_id l)).
  { intros x l. split; apply Permutation_in, Permutation_map;
      [ symmetry | ]; apply sort_values_perm. }
  repeat split.
  - rewrite Hprot. destruct (sort_groups self); [ apply dict_fromkeys_NoDup | ].
    destruct (shuffle self); [ apply dict_fromkeys_NoDup | apply sorted_set_NoDup ].
  - rewrite Hpep.
    destruct (shuffle self); [ apply dict_fromkeys_NoDup | apply sorted_set_NoDup ].
  - intros Hx. apply (Hmem protein_id x (fun _ _ _ => eq_refl)).
    rewrite Hprot in Hx. destruct (sort_groups self).
    + apply (proj1 (dict_fromkeys_In _ _)) in Hx. now apply (proj1 (Hsorted _ _)) in Hx.
    + destruct (shuffle self);
        [ now apply (proj1 (dict_fromkeys_In _ _)) in Hx
        | now apply (proj1 (sorted_set_In _ _)) in Hx ].
  - intros Hx. apply (Hmem protein_id x (fun _ _ _ => eq_refl)) in Hx.
    rewrite Hprot. destruct (sort_groups self).
    + apply dict_fromkeys_In. now apply (proj2 (Hsorted _ _)).
    + destruct (shuffle self);
        [ now apply dict_fromkeys_In | now apply sorted_set_In ].
  - intros Hx. apply (Hmem peptide_id x (fun _ _ _ => eq_refl)).
    rewrite Hpep in Hx.
    destruct (shuffle self);
      [ now apply (proj1 (dict_fromkeys_In _ _)) in Hx
      | now apply (proj1 (sorted_set_In _ _)) in Hx ].
  - intros Hx. apply (Hmem peptide_id x (fun _ _ _ => eq_refl)) in Hx.
    rewrite Hpep.
    destruct (shuffle self);
      [ now apply dict_fromkeys_In | now apply sorted_set_In ].
Qed.

(** X2. After [load], [protein_order] and [peptide_order] list, each
    once, exactly the protein and peptide identifiers of the table. *)
Theorem load_orders (e : Entropy) (self : Needler) (g : Globals)
  (ld : Loaded) :
  load e self g = Ok ld ->
  NoDup (protein_order ld) /\
  NoDup (peptide_order ld) /\
  (forall x, In x (protein_order ld) <->
             exists r, In r (rows (df ld)) /\ protein_id r = x) /\
  (forall x, In x (peptide_order ld) <->
             exists r, In r (rows (df ld)) /\ peptide_id r = x).
Proof. apply load_orders_spec. Qed.

Lemma load_orders_witness :
  NoDup (protein_order mixed_loaded) /\ NoDup (peptide_order mixed_loaded).
Proof.
  destruct (load_orders entropy0 mixed (cli mixed) mixed_loaded eq_refl)
    as (H1 & H2 & _).
  split; assumption.
Defined.

(** ** Size ordering *)

Lemma insert_by_peps_sorted (x : Row) (l : list Row) :
  StronglySorted by_peps l -> StronglySorted by_peps (insert_by_peps x l).
Proof.
  induction 1 as [ | y t Hs IH Hy ]; simpl.
  - repeat constructor.
  - destruct (protein_peps x <=? protein_peps y) eqn:Hc.
    + apply Z.leb_le in Hc. constructor; [ now constructor | ].
      constructor; [ exact Hc | ].
      eapply Forall_impl; [ | exact Hy ]. unfold by_peps. intros r Hr. lia.
    + apply Z.leb_gt in Hc. constructor; [ exact IH | ].
      eapply Permutation_Forall; [ apply insert_by_peps_perm | ].
      constructor; [ unfold by_peps; lia | exact Hy ].
Qed.

Lemma sort_values_sorted (l : list Row) :
  StronglySorted by_peps (sort_values_protein_peps l).
Proof.
  unfold sort_values_protein_peps.
  induction l as [ | x t IH ]; simpl; [ constructor | ].
  now apply insert_by_peps_sorted.
Qed.

Lemma sorted_map_window (dt : bool) (w : Z) (l : list Row) :
  StronglySorted by_peps l -> StronglySorted by_peps (map (window dt w) l).
Proof.
  induction 1 as [ | y t Hs IH Hy ]; simpl; constructor; [ exact IH | ].
  apply Forall_map. exact Hy.
Qed.

Lemma sorted_remove {A : Type} (dec : forall a b : A, {a = b} + {a <> b})
  (R : A -> A -> Prop) (x : A) (l : list A) :
  StronglySorted R l -> StronglySorted R (remove dec x l).
Proof.
  induction 1 as [ | y t Hs IH Hy ]; simpl; [ constructor | ].
  destruct (dec x y); [ exact IH | ].
  constructor; [ exact IH | ].
  apply Forall_forall. intros z Hz. apply in_remove in Hz as [Hz _].
  exact (proj1 (Forall_forall _ _) Hy z Hz).
Qed.

Lemma sorted_relation {A : Type} (R R' : A -> A -> Prop) (l : list A) :
  (forall a b, In a l -> In b l -> R a b -> R' a b) ->
  StronglySorted R l -> StronglySorted R' l.
Proof.
  intros H Hs. induction Hs as [ | y t Hs IH Hy ]; constructor.
  - apply IH. intros a b Ha Hb. apply H; now right.
  - apply Forall_forall. intros z Hz. apply H; [ now left | now right | ].
    exact (proj1 (Forall_forall _ _) Hy z Hz).
Qed.

Lemma peps_of_member (l : list Row) (p : string) :
  In p (map protein_id l) ->
  exists r, In r l /\ peps_of l p = protein_peps r.
Proof.
  unfold peps_of. intros H. apply in_map_iff in H as (r & Hp & Hr).
  destruct (find (fun r0 => String.eqb (protein_id r0) p) l) as [ r' | ] eqn:F.
  - apply find_some in F as [F _]. now exists r'.
  - apply (find_none _ _ F) in Hr. rewrite Hp, String.eqb_refl in Hr.
    discriminate Hr.
Qed.

Lemma first_occurrences_sorted (l : list Row) :
  StronglySorted by_peps l ->
  StronglySorted (fun p q => peps_of l p <= peps_of l q)
                 (dict_fromkeys (map protein_id l)).
Proof.
  induction 1 as [ | r t Hs IH Hr ]; simpl; [ constructor | ].
  assert (Hother : forall q, q <> protein_id r ->
                             peps_of (r :: t) q = peps_of t q).
  { intros q Hq. unfold peps_of. simpl.
    destruct (String.eqb_spec (protein_id r) q); [ congruence | reflexivity ]. }
  assert (Hhead : peps_of (r :: t) (protein_id r) = protein_peps r).
  { unfold peps_of. simpl. now rewrite String.eqb_refl. }
  constructor.
  - apply (sorted_remove string_dec _ (protein_id r)) in IH.
    revert IH. apply sorted_relation. intros a b Ha Hb Hab.
    apply in_remove in Ha as [_ Ha]. apply in_remove in Hb as [_ Hb].
    now rewrite !Hother.
  - apply Forall_forall. intros q Hq. apply in_remove in Hq as [Hq Hne].
    apply (proj1 (dict_fromkeys_In _ _)) in Hq.
    destruct (peps_of_member t q Hq) as (r' & Hr' & E).
    rewrite Hhead, (Hother q Hne), E.
    exact (proj1 (Forall_forall _ _) Hr r' Hr').
Qed.

(** X3. With [sort_groups], the rows of the table are in ascending order
    of the peptide count of their protein, and [protein_order] lists the
    proteins by ascending peptide count: the proteins with fewest peptides
    come first. *)
Theorem sort_groups_ascending (e : Entropy) (self : Needler) (g : Globals)
  (ld : Loaded) :
  sort_groups self = true ->
  load e self g = Ok ld ->
  StronglySorted by_peps (rows (df ld)) /\
  StronglySorted (fun p q => peps_of (rows (df ld)) p
                             <= peps_of (rows (df ld)) q)
                 (protein_order ld).
Proof.
  intros Hs H. apply load_inv in H as (_ & kept & dlog & _ & H).
  cbv zeta in H. destruct H as (Hrows & _ & _ & Hprot & _).
  rewrite Hs in *.
  assert (Hsorted : StronglySorted by_peps (rows (df ld))).
  { rewrite Hrows. apply sorted_map_window, sort_values_sorted. }
  split; [ exact Hsorted | ].
  apply first_occurrences_sorted in Hsorted.
  assert (Hmap : map protein_id (rows (df ld))
                 = map protein_id
                     (sort_values_protein_peps
                        (if shuffle self then shuffle_ids e kept else kept))).
  { rewrite Hrows, map_map. reflexivity. }
  rewrite Hprot, <- Hmap. exact Hsorted.
Qed.

Lemma sort_groups_ascending_witness :
  StronglySorted by_peps (rows (df mixed_loaded)) /\
  map (peps_of (rows (df mixed_loaded))) (protein_order mixed_loaded) = [2; 3].
Proof.
  split; [ | reflexivity ].
  exact (proj1 (sort_groups_ascending entropy0 mixed (cli mixed) mixed_loaded
                  eq_refl eq_refl)).
Defined.

(** ** Shuffled identifiers *)

Lemma assoc_combine_later (f : nat -> string) (ks : list string) :
  forall s y,
    In y ks ->
    exists i, (s <= i)%nat /\
              assoc y (combine ks (map f (seq s (List.length ks)))) = Some (f i).
Proof.
  induction ks as [ | k t IH ]; simpl; intros s y Hy; [ destruct Hy | ].
  destruct (String.eqb_spec y k) as [ -> | N ].
  - exists s. auto.
  - destruct Hy as [ -> | Hy ]; [ congruence | ].
    destruct (IH (S s) y Hy) as (i & Hi & E). exists i. split; [ lia | exact E ].
Qed.

Lemma assoc_combine_inj (f : nat -> string) (ks : list string) :
  (forall i j, f i = f j -> i = j) ->
  forall s x y,
    In x ks -> In y ks ->
    assoc x (combine ks (map f (seq s (List.length ks))))
    = assoc y (combine ks (map f (seq s (List.length ks)))) ->
    x = y.
Proof.
  intros Hf. induction ks as [ | k t IH ]; simpl; intros s x y Hx Hy E;
    [ destruct Hx | ].
  destruct (String.eqb_spec x k) as [ -> | Nx ],
           (String.eqb_spec y k) as [ -> | Ny ]; try reflexivity.
  - destruct Hy as [ -> | Hy ]; [ congruence | ].
    destruct (assoc_combine_later f t (S s) y Hy) as (i & Hi & Ei).
    rewrite Ei in E. injection E as E. apply Hf in E. lia.
  - destruct Hx as [ -> | Hx ]; [ congruence | ].
    destruct (assoc_combine_later f t (S s) x Hx) as (i & Hi & Ei).
    rewrite Ei in E. injection E as E. apply Hf in E. lia.
  - destruct Hx as [ -> | Hx ]; [ congruence | ].
    destruct Hy as [ -> | Hy ]; [ congruence | ].
    now apply (IH (S s)).
Qed.

Lemma apply_uuid_peptide_ids (e : Entropy) (l : list Row) :
  forall n,
    map peptide_id (apply_uuid e n l) = map (uuid4 e) (seq n (List.length l)).
Proof.
  induction l as [ | r t IH ]; simpl; intros n; [ reflexivity | ].
  now rewrite IH.
Qed.

Lemma apply_uuid_rows (e : Entropy) (l : list Row) :
  forall n r,
    In r (apply_uuid e n l) ->
    exists r0 i, In r0 l /\ r = set_peptide_id (uuid4 e i) r0.
Proof.
  induction l as [ | x t IH ]; simpl; intros n r Hr; [ destruct Hr | ].
  destruct Hr as [ <- | Hr ].
  - exists x, n. auto.
  - destruct (IH _ _ Hr) as (r0 & i & H0 & E). exists r0, i. auto.
Qed.

Lemma shuffle_groups_spec (e : Entropy) (self : Needler) (g : Globals)
  (ld : Loaded) :
  EntropyOk e ->
  shuffle self = true ->
  load e self g = Ok ld ->
  NoDup (map peptide_id (rows (df ld))) /\
  (forall r1 r2, In r1 (rows (df ld)) -> In r2 (rows (df ld)) ->
                 (protein_id r1 = protein_id r2 <-> accession r1 = accession r2)).
Proof.
  intros He Hs H. apply load_inv in H as (_ & kept & dlog & Hd & H).
  cbv zeta in H. destruct H as (Hrows & _).
  rewrite Hs in Hrows.
  assert (Hperm : Permutation (shuffle_ids e kept)
                    (if sort_groups self
                     then sort_values_protein_peps (shuffle_ids e kept)
                     else shuffle_ids e kept)).
  { destruct (sort_groups self); [ apply sort_values_perm | reflexivity ]. }
  split.
  - rewrite Hrows, map_map.
    change (map (fun x => peptide_id (window (float_column (db_src self)) (rt_width self) x)))
      with (map peptide_id).
    eapply Permutation_NoDup; [ apply Permutation_map, Hperm | ].
    unfold shuffle_ids.
    eapply Permutation_NoDup;
      [ apply Permutation_map, (sample_perm e He) | ].
    rewrite apply_uuid_peptide_ids.
    apply Finite.Injective_map_NoDup; [ | apply seq_NoDup ].
    intros i j. apply (uuid4_fresh e He).
  - set (groups := sorted_set (map protein_id kept)).
    set (guid := combine groups
                   (map (uuid4 e) (seq 0 (List.length groups)))).
    assert (Hrow : forall r, In r (rows (df ld)) ->
               exists r0, In r0 kept /\ accession r = accession r0 /\
                          protein_id r0 = accession r0 /\
                          protein_id r = replace guid (accession r0)).
    { intros r Hr. rewrite Hrows in Hr.
      apply in_map_iff in Hr as (r1 & <- & Hr1).
      apply (Permutation_in _ (Permutation_sym Hperm)) in Hr1.
      unfold shuffle_ids in Hr1.
      apply (Permutation_in _ (Permutation_sym (sample_perm e He _))) in Hr1.
      apply apply_uuid_rows in Hr1 as (r2 & i & Hr2 & ->).
      apply in_map_iff in Hr2 as (r0 & <- & Hr0).
      exists r0.
      destruct (identified_ids _ _ (drop_insufficient_rows _ _ _ _ _ Hd _ Hr0))
        as [_ Hacc].
      repeat split; try assumption.
      cbn. now rewrite Hacc. }
    intros r1 r2 H1 H2.
    destruct (Hrow r1 H1) as (a1 & Ha1 & E1 & P1 & I1).
    destruct (Hrow r2 H2) as (a2 & Ha2 & E2 & P2 & I2).
    rewrite I1, I2, E1, E2. split; [ | now intros -> ].
    assert (Hin : forall a0, In a0 kept -> protein_id a0 = accession a0 ->
                             In (accession a0) groups).
    { intros a0 H0 P0. apply sorted_set_In. rewrite <- P0. now apply in_map. }
    pose proof (Hin a1 Ha1 P1) as G1. pose proof (Hin a2 Ha2 P2) as G2.
    unfold replace.
    destruct (assoc_combine_later (uuid4 e) groups 0 _ G1) as (i1 & _ & A1).
    destruct (assoc_combine_later (uuid4 e) groups 0 _ G2) as (i2 & _ & A2).
    fold guid in A1, A2. rewrite A1, A2. intros E.
    apply (assoc_combine_inj (uuid4 e) groups (uuid4_fresh e He) 0 _ _ G1 G2).
    fold guid. now rewrite A1, A2, E.
Qed.

(** X4. With [shuffle] (and fresh uuids), every row of the table has its
    own peptide identifier, and two rows have the same protein identifier
    exactly when they have the same accession: the renaming keeps the
    grouping of the rows into proteins. *)
Theorem shuffle_keeps_groups (e : Entropy) (self : Needler) (g : Globals)
  (ld : Loaded) :
  EntropyOk e ->
  shuffle self = true ->
  load e self g = Ok ld ->
  NoDup (map peptide_id (rows (df ld))) /\
  (forall r1 r2, In r1 (rows (df ld)) -> In r2 (rows (df ld)) ->
                 (protein_id r1 = protein_id r2 <-> accession r1 = accession r2)).
Proof. apply shuffle_groups_spec. Qed.

Lemma shuffle_keeps_groups_witness :
  NoDup (map peptide_id (rows (df shared_loaded))).
Proof.
  exact (proj1 (shuffle_keeps_groups entropy0 shared_shuffled
                  (cli shared_shuffled) shared_loaded entropy0_ok eq_refl
                  eq_refl)).
Defined.

(** ** The loop, iteration by iteration *)

Lemma set_flags_same (r : Row) :
  set_flags (peptide_in_model r) (protein_is_targeted r) r = r.
Proof. now destruct r. Qed.

(** What an iteration does to the table: it only rewrites the two flag
    columns. *)
Lemma loop_body_df (self : Needler) (o : Oracle) (b : Built) (target_dt : Z)
  (st : Loop) :
  columns (l_df (snd (loop_body self o b target_dt st))) = columns (l_df st) /\
  exists f1 f2,
    rows (l_df (snd (loop_body self o b target_dt st)))
    = map (fun r => set_flags (f1 r) (f2 r) r) (rows (l_df st)).
Proof.
  assert (Hid : rows (l_df st)
                = map (fun r => set_flags (peptide_in_model r)
                                          (protein_is_targeted r) r)
                      (rows (l_df st))).
  { rewrite <- (map_id (rows (l_df st))) at 1. apply map_ext.
    intros r. now rewrite set_flags_same. }
  unfold loop_body.
  destruct (check o (checks st) (l_solver st)) as [ m | | ].
  - destruct (best_ever_result st <? _).
    + destruct (save self _ (l_fs st)) as [fs' [ u | ex ]].
      * destruct (_ =? _); cbn [snd l_df columns rows];
          (split; [ reflexivity | unfold annotate; do 2 eexists; reflexivity ]).
      * cbn [snd l_df columns rows].
        split; [ reflexivity | unfold annotate; do 2 eexists; reflexivity ].
    + cbn [snd l_df columns rows].
      split; [ reflexivity | unfold annotate; do 2 eexists; reflexivity ].
  - cbn [snd l_df]. split; [ reflexivity | ].
    exists peptide_in_model, protein_is_targeted. exact Hid.
  - destruct (if 0 <? timeout self then _ else _) as [ r | ];
      [ destruct (r <? 0) | ]; cbn [snd l_df];
      (split; [ reflexivity | ]);
      exists peptide_in_model, protein_is_targeted; exact Hid.
Qed.

Lemma loop_body_ids (self : Needler) (o : Oracle) (b : Built) (target_dt : Z)
  (st : Loop) :
  map ids_of (rows (l_df (snd (loop_body self o b target_dt st))))
  = map ids_of (rows (l_df st)).
Proof.
  destruct (loop_body_df self o b target_dt st) as (_ & f1 & f2 & ->).
  rewrite map_map. reflexivity.
Qed.


Lemma while_true_run (self : Needler) (o : Oracle) (b : Built)
  (target_dt : Z) (P : Loop -> Prop) (Q : Outcome -> Loop -> Prop) :
  (forall st, P st ->
     match fst (loop_body self o b target_dt st) with
     | Continue => P (snd (loop_body self o b target_dt st))
     | Break out => Q out (snd (loop_body self o b target_dt st))
     end) ->
  forall fuel st, P st ->
    (fst (while_true fuel self o b target_dt st) = OutOfFuel /\
     P (snd (while_true fuel self o b target_dt st))) \/
    Q (fst (while_true fuel self o b target_dt st))
      (snd (while_true fuel self o b target_dt st)).
Proof.
  intros Hstep. induction fuel as [ | fuel IH ]; intros st Hst; simpl.
  - left. auto.
  - specialize (Hstep st Hst).
    destruct (loop_body self o b target_dt st) as [[ | out ] st']; simpl in *.
    + now apply IH.
    + now right.
Qed.


(** ** The destination file *)




(** X6. The store is append-only and grows by the ratchet alone: at any
    point of a run it is the model that [build_model] emitted followed by
    one assertion "sum of the objective terms > protein_target" per
    persisted artifact, in the order of persisting. *)
Theorem store_is_model_plus_ratchets (self : Needler) (o : Oracle)
  (ld : Loaded) (b : Built) (fs : FileSystem) (fuel : nat) :
  let st := snd (optimize self o ld b fs fuel) in
  assertions (l_solver st)
  = assertions (solver b)
    ++ map (fun pc => SumGt (proteins_targeted b) (fst pc))
           (rev (persisted st)).
Proof.
  cbv zeta. unfold optimize.
  apply (while_true_inv self o b _
           (fun st => assertions (l_solver st)
                      = assertions (solver b)
                        ++ map (fun pc => SumGt (proteins_targeted b) (fst pc))
                               (rev (persisted st)))).
  - intros st Hst.
    destruct (loop_body_iteration self o b
                (now o 0 + timeout self * 1000000) st) as (Hit & _ & _).
    remember (snd (loop_body self o b (now o 0 + timeout self * 1000000) st))
      as st'.
    remember (fst (loop_body self o b (now o 0 + timeout self * 1000000) st))
      as c.
    remember (check o (checks st) (l_solver st)) as r.
    destruct Hit as [ m c st' content pt _ _ _ _ Hp _ Ha _
                    | m ex st' pt _ _ _ _ Hp _ Ha
                    | m st' _ _ _ (_ & Hp & Ha & _)
                    | st' _ _ (_ & Hp & Ha & _)
                    | c st' _ _ (_ & Hp & Ha & _) _ ];
      rewrite Hp, Ha; try assumption.
    rewrite Hst. simpl rev. rewrite map_app, <- app_assoc. reflexivity.
  - simpl. now rewrite app_nil_r.
Qed.

Lemma store_is_model_plus_ratchets_witness :
  assertions
    (l_solver (snd (optimize scenario stalling scenario_loaded
                             scenario_built fs0 4)))
  = assertions (solver scenario_built)
    ++ [SumGt (proteins_targeted scenario_built) 1].
Proof.
  exact (store_is_model_plus_ratchets scenario stalling scenario_loaded
           scenario_built fs0 4).
Defined.

(** ** Exceptions of the loop *)

Lemma upto_last_sep_empty (p : string) :
  upto_last_sep p = "" <-> has_sep p = false.
Proof.
  induction p as [ | c t IH ]; simpl; [ tauto | ].
  destruct (Ascii.eqb c "/"); simpl.
  - split; discriminate.
  - destruct (upto_last_sep t) eqn:E.
    + split; [ intros _; now apply IH | reflexivity ].
    + split; [ discriminate | ].
      intros H. apply IH in H. discriminate H.
Qed.

Lemma rstrip_sep_empty (s : string) :
  rstrip_sep s = "" -> all_sep s = true.
Proof.
  induction s as [ | c t IH ]; simpl; [ reflexivity | ].
  destruct (rstrip_sep t) eqn:E; [ | discriminate ].
  destruct (Ascii.eqb c "/"); [ | discriminate ].
  intros _. now apply IH.
Qed.

Lemma dirname_empty (p : string) :
  dirname p = "" <-> has_sep p = false.
Proof.
  rewrite <- upto_last_sep_empty. unfold dirname.
  destruct (String.eqb_spec (upto_last_sep p) "") as [ E | N ]; simpl.
  - rewrite E. tauto.
  - destruct (all_sep (upto_last_sep p)) eqn:A; simpl; [ tauto | ].
    split; [ | tauto ].
    intros H. apply rstrip_sep_empty in H. congruence.
Qed.

Lemma has_sep_app (p q : string) :
  has_sep (p ++ q)%string = has_sep p || has_sep q.
Proof.
  induction p as [ | c t IH ]; simpl; [ reflexivity | ].
  now rewrite IH, orb_assoc.
Qed.

Lemma parent_dir_empty (self : Needler) :
  parent_dir self = "" <-> has_sep (dst self) = false.
Proof.
  unfold parent_dir. rewrite dirname_empty, has_sep_app. simpl.
  now rewrite orb_false_r.
Qed.



Lemma loop_body_missing_column (self : Needler) (o : Oracle) (b : Built)
  (target_dt : Z) (st : Loop) (c : string) :
  In c save_columns -> has_column (l_df st) c = false ->
  (exists out, fst (loop_body self o b target_dt st) = Break out) /\
  persisted (snd (loop_body self o b target_dt st)) = persisted st /\
  (l_fs (snd (loop_body self o b target_dt st)) = l_fs st \/
   l_fs (snd (loop_body self o b target_dt st)) = with_parent (l_fs st)).
Proof.
  intros Hc Hm. unfold loop_body.
  destruct (check o (checks st) (l_solver st)) as [ m | | ].
  - destruct (best_ever_result st <? _).
    + match goal with
      | |- context [ save self ?d ?f ] =>
          destruct (save_cases self d f)
            as [ (_ & ->) | [ (_ & c' & _ & _ & ->) | (_ & Hall & _) ] ]
      end.
      * cbn [fst snd persisted l_fs]. eauto.
      * cbn [fst snd persisted l_fs]. eauto.
      * apply Hall in Hc.
        unfold has_column in *. cbn [columns] in Hc. congruence.
    + cbn [fst snd persisted l_fs]. eauto.
  - cbn [fst snd persisted l_fs]. eauto.
  - destruct (if 0 <? timeout self then _ else _) as [ r | ];
      [ destruct (r <? 0) | ]; cbn [fst snd persisted l_fs]; eauto.
Qed.

(** X8. When the csv lacks one of the columns that [save] projects
    (accession, isoform, name, gene, peptide_sequence, peptide,
    prosit_predicted_rt_seconds), the loop makes at most one check and
    writes no file: nothing is persisted, and the destination and the
    temporary file are as they were; the one thing [save] may have done
    before it raised is to create the parent directory of [dst]. *)
Theorem missing_output_column (self : Needler) (o : Oracle) (ld : Loaded)
  (b : Built) (fs : FileSystem) (fuel : nat) (c : string) :
  In c save_columns ->
  has_column (df ld) c = false ->
  let st := snd (optimize self o ld b fs fuel) in
  persisted st = [] /\ (checks st <= 1)%nat /\
  dst_file (l_fs st) = dst_file fs /\
  temp_file (l_fs st) = temp_file fs /\
  (l_fs st = fs \/ l_fs st = with_parent fs).
Proof.
  intros Hc Hm. cbv zeta. unfold optimize.
  destruct fuel as [ | fuel ]; simpl; [ auto 6 | ].
  destruct (loop_body_missing_column self o b
              (now o 0 + timeout self * 1000000)
              (mkLoop (solver b) (df ld) fs 0 None 0 0 0 []) c Hc Hm)
    as ((out & Hout) & Hp & Hf).
  destruct (loop_body_iteration self o b (now o 0 + timeout self * 1000000)
              (mkLoop (solver b) (df ld) fs 0 None 0 0 0 []))
    as (_ & Hchecks & _).
  destruct (loop_body self o b (now o 0 + timeout self * 1000000)
              (mkLoop (solver b) (df ld) fs 0 None 0 0 0 []))
    as [ctl st'].
  cbn [fst snd] in *. subst ctl. cbn [fst snd persisted l_fs checks] in *.
  rewrite Hchecks. split; [ exact Hp | ]. split; [ lia | ].
  destruct Hf as [ -> | -> ]; auto.
Qed.

(** ** The content of the persisted artifacts *)

Lemma persisted_rows_spec (self : Needler) (o : Oracle)
  (ld : Loaded) (b : Built) (fs : FileSystem) (fuel : nat) :
  Forall (fun pc =>
            Forall (fun r => exists r0, In r0 (rows (df ld)) /\
                                        r = set_flags true true r0)
                   (snd pc))
         (persisted (snd (optimize self o ld b fs fuel))).
Proof.
  unfold optimize.
  apply (while_true_inv self o b _
           (fun st =>
              (exists f1 f2,
                  rows (l_df st)
                  = map (fun r => set_flags (f1 r) (f2 r) r) (rows (df ld))) /\
              Forall (fun pc =>
                        Forall (fun r => exists r0, In r0 (rows (df ld)) /\
                                                    r = set_flags true true r0)
                               (snd pc))
                     (persisted st))).
  - intros st ((f1 & f2 & Hrows) & Hper).
    split.
    + destruct (loop_body_df self o b (now o 0 + timeout self * 1000000) st)
        as (_ & g1 & g2 & ->).
      rewrite Hrows, map_map.
      exists (fun r => g1 (set_flags (f1 r) (f2 r) r)),
             (fun r => g2 (set_flags (f1 r) (f2 r) r)).
      reflexivity.
    + destruct (loop_body_iteration self o b
                  (now o 0 + timeout self * 1000000) st) as (Hit & _ & _).
      remember (snd (loop_body self o b (now o 0 + timeout self * 1000000) st))
        as st'.
      remember (fst (loop_body self o b (now o 0 + timeout self * 1000000) st))
        as c.
      remember (check o (checks st) (l_solver st)) as r.
      destruct Hit as [ m c st' content pt _ _ _ _ Hp _ _ _
                      | m ex st' pt _ _ _ _ Hp _ _
                      | m st' _ _ _ (_ & Hp & _)
                      | st' _ _ (_ & Hp & _)
                      | c st' _ _ (_ & Hp & _) _ ];
        rewrite Hp; try assumption.
      constructor; [ | assumption ].
      cbn [snd]. subst content. unfold artifact_of, annotate.
      apply Forall_forall. intros x Hx.
      apply filter_In in Hx as [Hx Hflags].
      apply in_map_iff in Hx as (r1 & <- & Hr1).
      cbn [peptide_in_model protein_is_targeted set_flags] in Hflags.
      apply andb_true_iff in Hflags as [-> ->].
      rewrite Hrows in Hr1. apply in_map_iff in Hr1 as (r0 & <- & Hr0).
      exists r0. split; [ exact Hr0 | reflexivity ].
  - split; [ | constructor ].
    exists peptide_in_model, protein_is_targeted.
    cbn [l_df]. symmetry.
    erewrite map_ext; [ apply map_id | ].
    intros r. apply set_flags_same.
Qed.

(** X9. Every row of every persisted artifact is a row of the table that
    [load] produced, with both flags set: the loop invents no row and
    changes no column other than the two flags. *)
Theorem persisted_rows_from_table (self : Needler) (o : Oracle)
  (ld : Loaded) (b : Built) (fs : FileSystem) (fuel : nat) :
  Forall (fun pc =>
            Forall (fun r => exists r0, In r0 (rows (df ld)) /\
                                        r = set_flags true true r0)
                   (snd pc))
         (persisted (snd (optimize self o ld b fs fuel))).
Proof. apply persisted_rows_spec. Qed.

Lemma persisted_rows_from_table_witness :
  Forall (fun pc =>
            Forall (fun r => exists r0, In r0 (rows (df scenario_loaded)) /\
                                        r = set_flags true true r0)
                   (snd pc))
         (persisted (snd (optimize scenario stalling scenario_loaded
                                   scenario_built fs0 4))).
Proof.
  exact (persisted_rows_from_table scenario stalling scenario_loaded
           scenario_built fs0 4).
Defined.

(** ** The objective *)

Section Objective.

Variable e : Entropy.
Hypothesis e_ok : EntropyOk e.
Variables (self : Needler) (g : Globals) (ld : Loaded).

Lemma protein_constraint_objective (s s' : Solver) (t t' : list ArithRef)
  (n n' : nat) (prot : string) :
  protein_constraint e self g ld (declare_peptides (peptide_order ld))
                     (s, t, n) prot = Ok (s', t', n') ->
  exists tm,
    objective_of (peps_per_prot self)
                 (peptide_ids_of prot (rows (df ld))) tm /\
    t' = t ++ [tm].
Proof.
  unfold protein_constraint. intros H.
  inv_bind H. inv_bind H.
  destruct (shuffle_if e (Namespace.shuffle a0) n (map (fun v => (v, 1)) a))
    as [pb n2] eqn:S.
  inversion H; subst; clear H.
  eexists. split; [ | reflexivity ].
  exists pb. split; [ reflexivity | ].
  apply lookup_all_declare in E. subst a.
  change pb with (fst (pb, n')). rewrite <- S.
  etransitivity; [ | apply (shuffle_if_perm e e_ok) ].
  rewrite map_map. apply Permutation_map, (py_set_perm e e_ok).
Qed.

Lemma objective_loop (prots : list string) :
  forall s t n s' t' n',
    foldM (protein_constraint e self g ld (declare_peptides (peptide_order ld)))
          prots (s, t, n) = Ok (s', t', n') ->
    exists ts,
      t' = t ++ ts /\
      Forall2 (fun prot tm =>
                 objective_of (peps_per_prot self)
                              (peptide_ids_of prot (rows (df ld))) tm)
              prots ts.
Proof.
  induction prots as [ | prot rest IH ]; simpl; intros s t n s' t' n' H.
  - inversion H; subst. exists []. rewrite app_nil_r. auto.
  - inv_bind H. destruct a as [[s1 t1] n1].
    apply protein_constraint_objective in E as (tm & Htm & ->).
    apply IH in H as (ts & -> & Hts).
    exists (tm :: ts). rewrite <- app_assoc. split; [ reflexivity | ].
    now constructor.
Qed.

Lemma build_model_objective (b : Built) :
  build_model e self g ld = Ok b ->
  Forall2 (fun prot tm =>
             objective_of (peps_per_prot self)
                          (peptide_ids_of prot (rows (df ld))) tm)
          (protein_order ld) (proteins_targeted b).
Proof.
  unfold build_model. intros H.
  inv_bind H. inv_bind H. inv_bind H.
  destruct a1 as [[s2 targeted] calls].
  destruct (series_min (map rt_start (rows (df ld)))); [ | discriminate H ].
  destruct (series_max (map rt_stop (rows (df ld)))); [ | discriminate H ].
  destruct (shuffle_if e (shuffle self) calls _) as [steps calls'].
  inv_bind H. inversion H; subst; clear H. cbn [proteins_targeted].
  apply objective_loop in E1 as (ts & -> & Hts). exact Hts.
Qed.

Lemma objective_sum (m : Model) (prots : list string) (ts : list ArithRef) :
  Forall2 (fun prot tm =>
             objective_of (peps_per_prot self)
                          (peptide_ids_of prot (rows (df ld))) tm)
          prots ts ->
  sum_terms m ts
  = Z.of_nat (List.length (fully_targeted m (peps_per_prot self)
                                          (rows (df ld)) prots)).
Proof.
  induction 1 as [ | prot tm prots ts (pb & -> & P) HF IH ]; simpl;
    [ reflexivity | ].
  rewrite IH. unfold selected_count at 1.
  rewrite <- (pb_sum_unit m), (pb_sum_perm m _ _ P).
  destruct (pb_sum m pb =? peps_per_prot self); simpl List.length; lia.
Qed.

End Objective.

(** X10. Under any model, the sum of the objective terms that
    [build_model] returns is the number of proteins of [protein_order] of
    which exactly [peps_per_prot] distinct peptides are selected. *)
Theorem objective_counts_targeted (e : Entropy) (self : Needler)
  (g : Globals) (ld : Loaded) (b : Built) (m : Model) :
  EntropyOk e ->
  build_model e self g ld = Ok b ->
  sum_terms m (proteins_targeted b)
  = Z.of_nat (List.length (fully_targeted m (peps_per_prot self)
                                          (rows (df ld)) (protein_order ld))).
Proof.
  intros He Hb. apply objective_sum.
  now apply (build_model_objective e He self g ld b).
Qed.

Lemma objective_counts_targeted_witness :
  sum_terms scenario_model (proteins_targeted scenario_built) = 1.
Proof.
  exact (objective_counts_targeted entropy0 scenario (cli scenario)
           scenario_loaded scenario_built scenario_model entropy0_ok eq_refl).
Defined.

(** ** The cross-check of the loop *)

Lemma used_pep_ids_declared (m : Model) (order : list string) :
  used_pep_ids m (declare_peptides order) = filter m order.
Proof.
  unfold used_pep_ids, declare_peptides.
  induction order as [ | x t IH ]; simpl; [ reflexivity | ].
  destruct (m x); simpl; now rewrite IH.
Qed.

Lemma filter_comm {A : Type} (f h : A -> bool) (l : list A) :
  filter f (filter h l) = filter h (filter f l).
Proof.
  induction l as [ | x t IH ]; simpl; [ reflexivity | ].
  destruct (f x) eqn:Hf, (h x) eqn:Hh; simpl; rewrite ?Hf, ?Hh, IH;
    reflexivity.
Qed.

Lemma nunique_NoDup (l : list string) : NoDup l -> nunique l = List.length l.
Proof.
  intros H. unfold nunique. now rewrite (nodup_fixed_point string_dec H).
Qed.

Lemma nunique_filter (m : Model) (l : list string) :
  nunique (filter m l) = List.length (filter m (nodup string_dec l)).
Proof.
  unfold nunique. apply Permutation_length.
  apply NoDup_Permutation.
  - apply NoDup_nodup.
  - apply NoDup_filter, NoDup_nodup.
  - intros x. rewrite nodup_In, !filter_In, nodup_In. reflexivity.
Qed.

Lemma ids_filter (used : list string) (l : list Row) :
  forall l',
    map ids_of l = map ids_of l' ->
    map ids_of (filter (fun r => mem (peptide_id r) used) l)
    = map ids_of (filter (fun r => mem (peptide_id r) used) l').
Proof.
  induction l as [ | r t IH ]; intros [ | r' t' ]; simpl; try discriminate;
    [ reflexivity | ].
  intros [= Hp Hq Ht]. rewrite Hq.
  destruct (mem (peptide_id r') used); simpl;
    [ unfold ids_of at 1 3; rewrite Hp, Hq | ]; now rewrite (IH t' Ht).
Qed.

Lemma ids_components (l : list Row) :
  forall l',
    map ids_of l = map ids_of l' ->
    map protein_id l = map protein_id l' /\
    forall p, peptide_ids_of p l = peptide_ids_of p l'.
Proof.
  unfold peptide_ids_of.
  induction l as [ | r t IH ]; intros [ | r' t' ]; simpl; try discriminate;
    [ auto | ].
  intros [= Hp Hq Ht]. destruct (IH t' Ht) as [H1 H2].
  rewrite Hp, H1. split; [ reflexivity | ].
  intros p. destruct (String.eqb (protein_id r') p); simpl;
    now rewrite ?Hq, H2.
Qed.

Lemma protein_targets_ids (k : Z) (used : list string) (l l' : list Row) :
  map ids_of l = map ids_of l' ->
  protein_targets k used l = protein_targets k used l'.
Proof.
  intros H. unfold protein_targets.
  destruct (ids_components _ _ (ids_filter used l l' H)) as [H1 H2].
  rewrite H1. apply filter_ext. intros p. now rewrite H2.
Qed.

Lemma selected_in_model (m : Model) (order : list string) (l : list Row)
  (p : string) :
  (forall r, In r l -> In (peptide_id r) order) ->
  filter (fun r => mem (peptide_id r) (filter m order)) l
  = filter (fun r => m (peptide_id r)) l /\
  Z.of_nat (nunique (peptide_ids_of p (filter (fun r => m (peptide_id r)) l)))
  = selected_count m (peptide_ids_of p l).
Proof.
  intros Hord. split.
  - apply filter_ext_in. intros r Hr.
    destruct (m (peptide_id r)) eqn:Hm.
    + apply mem_In, filter_In. auto.
    + destruct (mem (peptide_id r) (filter m order)) eqn:Hmem; [ | reflexivity ].
      apply mem_In, filter_In in Hmem. destruct Hmem; congruence.
  - unfold selected_count. rewrite <- nunique_filter. do 2 f_equal.
    unfold peptide_ids_of. rewrite filter_comm.
    symmetry. apply filter_map_comm.
Qed.

Lemma protein_target_spec (e : Entropy) (self : Needler) (g : Globals)
  (ld : Loaded) (b : Built) (m : Model) :
  EntropyOk e ->
  load e self g = Ok ld ->
  build_model e self g ld = Ok b ->
  1 <= peps_per_prot self ->
  protein_target_of self b m (rows (df ld))
  = Z.of_nat (List.length (fully_targeted m (peps_per_prot self)
                                          (rows (df ld)) (protein_order ld))).
Proof.
  intros He Hl Hb HK.
  destruct (load_orders_spec e self g ld Hl) as (Hnd & _ & Hprot & Hpep).
  destruct (build_model_inv e He self g ld b Hb)
    as (k & lo & hi & bal & slots & _ & _ & _ & Hp & _).
  unfold protein_target_of, protein_targets, fully_targeted.
  rewrite Hp, used_pep_ids_declared.
  assert (Hord : forall r, In r (rows (df ld)) ->
                           In (peptide_id r) (peptide_order ld)).
  { intros r Hr. apply Hpep. now exists r. }
  rewrite (proj1 (selected_in_model m _ _ "" Hord)).
  rewrite (filter_ext _ (fun p => selected_count m
                                    (peptide_ids_of p (rows (df ld)))
                                  =? peps_per_prot self))
    by (intros p; now rewrite (proj2 (selected_in_model m _ _ p Hord))).
  rewrite nunique_NoDup by apply NoDup_filter, sorted_set_NoDup.
  f_equal. apply Permutation_length.
  apply NoDup_Permutation.
  - apply NoDup_filter, sorted_set_NoDup.
  - now apply NoDup_filter.
  - intros p. rewrite !filter_In. split; intros [Hin Hsel]; (split; [ | exact Hsel ]).
    + apply (proj1 (sorted_set_In _ _)) in Hin.
      apply in_map_iff in Hin as (r & <- & Hr).
      apply filter_In in Hr as [Hr _]. apply Hprot. now exists r.
    + apply Z.eqb_eq in Hsel. unfold selected_count in Hsel.
      destruct (filter m (nodup string_dec (peptide_ids_of p (rows (df ld)))))
        as [ | x rest ] eqn:F; [ simpl in Hsel; lia | ].
      assert (Hx : In x (filter m (nodup string_dec
                                     (peptide_ids_of p (rows (df ld))))))
        by (rewrite F; now left).
      apply filter_In in Hx as [Hx Hm]. apply nodup_In in Hx.
      unfold peptide_ids_of in Hx. apply in_map_iff in Hx as (r & <- & Hr).
      apply filter_In in Hr as [Hr Hpr]. apply String.eqb_eq in Hpr.
      apply sorted_set_In. rewrite <- Hpr. apply in_map.
      apply filter_In. auto.
Qed.

(** X11. On a table that [load] produced, with at least one peptide
    required per protein, the [protein_target] that the loop derives from
    the table for a model equals the value of the objective (the sum of the
    terms of [build_model]) under that model. *)
Theorem protein_target_is_objective (e : Entropy) (self : Needler)
  (g : Globals) (ld : Loaded) (b : Built) (m : Model) :
  EntropyOk e ->
  load e self g = Ok ld ->
  build_model e self g ld = Ok b ->
  1 <= peps_per_prot self ->
  protein_target_of self b m (rows (df ld))
  = sum_terms m (proteins_targeted b).
Proof.
  intros He Hl Hb HK.
  rewrite (protein_target_spec e self g ld b m He Hl Hb HK).
  symmetry. apply objective_sum.
  now apply (build_model_objective e He self g ld b).
Qed.

Lemma protein_target_is_objective_witness :
  protein_target_of mixed mixed_built mixed_model
                    (rows (df mixed_loaded))
  = sum_terms mixed_model (proteins_targeted mixed_built).
Proof.
  apply (protein_target_is_objective entropy0 mixed (cli mixed) mixed_loaded
           mixed_built _ entropy0_ok eq_refl eq_refl).
  simpl. lia.
Defined.

Lemma missing_output_column_witness :
  persisted (snd (optimize bare stalling bare_loaded bare_built fs0 4)) = [] /\
  dst_file (l_fs (snd (optimize bare stalling bare_loaded bare_built fs0 4)))
  = None /\
  l_fs (snd (optimize bare stalling bare_loaded bare_built fs0 4))
  = with_parent fs0.
Proof.
  destruct (missing_output_column bare stalling bare_loaded bare_built fs0 4
              "gene") as (H1 & _ & H2 & _).
  - simpl. auto.
  - reflexivity.
  - split; [ exact H1 | ]. split; [ exact H2 | reflexivity ].
Defined.

(** ** A sound engine *)

Lemma one_model_engine_sound (m : Model) : sound (one_model_engine m).
Proof.
  intros n s m'. simpl.
  destruct (forallb (holds m) (assertions s)) eqn:H; [ | discriminate ].
  intros [= <-]. now apply models_forallb.
Qed.

(** X12. With an engine whose models satisfy the store, a table that [load]
    produced and at least one peptide required per protein, every
    satisfiable answer improves on the best result: the loop never ends in
    the "loop detected" state, and each satisfiable check is followed by a
    call of [save]. *)
Theorem sound_engine_never_stalls (e : Entropy) (self : Needler)
  (g : Globals) (o : Oracle) (ld : Loaded) (b : Built) (fs : FileSystem)
  (fuel : nat) :
  EntropyOk e ->
  load e self g = Ok ld ->
  build_model e self g ld = Ok b ->
  1 <= peps_per_prot self ->
  sound o ->
  fst (optimize self o ld b fs fuel) <> LoopDetected /\
  sat_checks (snd (optimize self o ld b fs fuel))
  = save_calls (snd (optimize self o ld b fs fuel)).
Proof.
  intros He Hl Hb HK Hsound. unfold optimize.
  destruct (build_model_inv e He self g ld b Hb)
    as (k & lo & hi & bal & slots & _ & _ & _ & _ & Has & _).
  pose proof (build_model_objective e He self g ld b Hb) as Hobj.
  destruct (while_true_run self o b (now o 0 + timeout self * 1000000)
              (fun st =>
                 In (SumGt (proteins_targeted b) (best_ever_result st))
                    (assertions (l_solver st)) /\
                 map ids_of (rows (l_df st)) = map ids_of (rows (df ld)) /\
                 sat_checks st = save_calls st)
              (fun out st => out <> LoopDetected /\
                             sat_checks st = save_calls st))
    with (fuel := fuel) (st := mkLoop (solver b) (df ld) fs 0 None 0 0 0 [])
    as [ [H1 (_ & _ & H2)] | H ].
  - intros st (Hin & Hids & Hcount).
    pose proof (loop_body_ids self o b (now o 0 + timeout self * 1000000) st)
      as Hids'.
    destruct (loop_body_iteration self o b
                (now o 0 + timeout self * 1000000) st) as (Hit & _ & _).
    remember (snd (loop_body self o b (now o 0 + timeout self * 1000000) st))
      as st'.
    remember (fst (loop_body self o b (now o 0 + timeout self * 1000000) st))
      as c.
    remember (check o (checks st) (l_solver st)) as r.
    destruct Hit as [ m c st' content pt _ Hbest Hsat Hsave _ _ Ha Hc
                    | m ex st' pt _ _ Hsat Hsave _ _ _
                    | m st' Hle _ _ _
                    | st' _ Hsat (Hsave & _)
                    | c st' _ Hsat (Hsave & _) Hc ].
    + destruct Hc as [ [-> _] | [-> _] ].
      * repeat split; [ | congruence | congruence ].
        rewrite Ha, Hbest. apply in_or_app. right. now left.
      * split; [ discriminate | congruence ].
    + split; [ discriminate | congruence ].
    + exfalso. symmetry in Heqr. apply Hsound in Heqr.
      apply (proj1 (Forall_forall _ _) Heqr) in Hin. simpl in Hin.
      apply Z.ltb_lt in Hin.
      unfold protein_target_of in Hle.
      rewrite (protein_targets_ids _ _ _ _ Hids) in Hle.
      fold (protein_target_of self b m (rows (df ld))) in Hle.
      rewrite (protein_target_spec e self g ld b m He Hl Hb HK) in Hle.
      rewrite (objective_sum self ld m _ _ Hobj) in Hin. lia.
    + split; [ discriminate | congruence ].
    + assert (Hout : exists out, c = Break out /\ out <> LoopDetected).
      { destruct Hc as [ [_ [ -> | -> ]] | [_ Hc] ];
          try (eexists; split; [ reflexivity | discriminate ]).
        destruct (remainder_seconds st);
          [ destruct Hc as [ -> | -> ] | rewrite Hc ];
          eexists; split; try reflexivity; discriminate. }
      destruct Hout as (out & -> & Hout).
      split; [ exact Hout | congruence ].
  - cbn [l_solver best_ever_result l_df sat_checks save_calls].
    repeat split. rewrite Has. right. apply in_or_app. right. now left.
  - rewrite H1. split; [ discriminate | exact H2 ].
  - exact H.
Qed.

Lemma sound_engine_never_stalls_witness :
  fst (optimize scenario (one_model_engine scenario_model) scenario_loaded
                scenario_built fs0 4) <> LoopDetected /\
  sat_checks (snd (optimize scenario (one_model_engine scenario_model)
                            scenario_loaded scenario_built fs0 4))
  = save_calls (snd (optimize scenario (one_model_engine scenario_model)
                              scenario_loaded scenario_built fs0 4)).
Proof.
  apply (sound_engine_never_stalls entropy0 scenario (cli scenario)
           (one_model_engine scenario_model) scenario_loaded scenario_built
           fs0 4 entropy0_ok eq_refl eq_refl).
  - simpl. lia.
  - apply one_model_engine_sound.
Defined.

(** ** What the artifact holds *)

Lemma artifact_proteins (self : Needler) (b : Built) (m : Model)
  (l : list Row) :
  Z.of_nat (nunique (map protein_id (artifact_of self b m l)))
  = protein_target_of self b m l.
Proof.
  unfold protein_target_of, nunique. f_equal. apply Permutation_length.
  apply NoDup_Permutation; try apply NoDup_nodup.
  intros x. rewrite !nodup_In. unfold artifact_of, annotate.
  set (used := used_pep_ids m (peptides b)).
  set (T := protein_targets (peps_per_prot self) used l).
  split.
  - intros Hx. apply in_map_iff in Hx as (r & <- & Hr).
    apply filter_In in Hr as [Hr Hflags].
    apply in_map_iff in Hr as (r1 & <- & Hr1).
    cbn [peptide_in_model protein_is_targeted set_flags protein_id] in *.
    apply andb_true_iff in Hflags as [_ Hflags]. now apply mem_In.
  - intros Hx. pose proof Hx as HT. unfold T, protein_targets in Hx.
    apply filter_In in Hx as [Hx _].
    apply (proj1 (sorted_set_In _ _)) in Hx.
    apply in_map_iff in Hx as (r1 & <- & Hr1).
    apply filter_In in Hr1 as [Hr1 Hused].
    apply in_map_iff.
    exists (set_flags (mem (peptide_id r1) used) (mem (protein_id r1) T) r1).
    split; [ reflexivity | ].
    apply filter_In. split.
    + apply (in_map (fun r => set_flags (mem (peptide_id r) used)
                                        (mem (protein_id r) T) r)), Hr1.
    + cbn [peptide_in_model protein_is_targeted set_flags].
      fold used in Hused. rewrite Hused. simpl. now apply mem_In.
Qed.

(** X13. The [protein_target] of each persisted artifact is the number of
    distinct proteins among its rows. *)
Theorem persisted_target_counts_proteins (self : Needler) (o : Oracle)
  (ld : Loaded) (b : Built) (fs : FileSystem) (fuel : nat) :
  Forall (fun pc => fst pc = Z.of_nat (nunique (map protein_id (snd pc))))
         (persisted (snd (optimize self o ld b fs fuel))).
Proof.
  unfold optimize.
  apply (while_true_inv self o b _
           (fun st => Forall (fun pc => fst pc
                                = Z.of_nat (nunique (map protein_id (snd pc))))
                             (persisted st))); [ | constructor ].
  intros st Hst.
  destruct (loop_body_iteration self o b
              (now o 0 + timeout self * 1000000) st) as (Hit & _ & _).
  remember (snd (loop_body self o b (now o 0 + timeout self * 1000000) st))
    as st'.
  remember (fst (loop_body self o b (now o 0 + timeout self * 1000000) st))
    as c.
  remember (check o (checks st) (l_solver st)) as r.
  destruct Hit as [ m c st' content pt _ _ _ _ Hp _ _ _
                  | m ex st' pt _ _ _ _ Hp _ _
                  | m st' _ _ _ (_ & Hp & _)
                  | st' _ _ (_ & Hp & _)
                  | c st' _ _ (_ & Hp & _) _ ];
    rewrite Hp; try assumption.
  constructor; [ | assumption ].
  cbn [fst snd]. subst content pt. symmetry. apply artifact_proteins.
Qed.

Lemma persisted_target_counts_proteins_witness :
  map (fun pc => nunique (map protein_id (snd pc)))
      (persisted (snd (optimize scenario stalling scenario_loaded
                                scenario_built fs0 4)))
  = [1%nat] /\
  Forall (fun pc => fst pc = Z.of_nat (nunique (map protein_id (snd pc))))
         (persisted (snd (optimize scenario stalling scenario_loaded
                                   scenario_built fs0 4))).
Proof.
  split; [ reflexivity | ].
  exact (persisted_target_counts_proteins scenario stalling scenario_loaded
           scenario_built fs0 4).
Defined.

(** X14. In every persisted artifact, each protein has none or exactly
    [peps_per_prot] distinct peptides, whatever the engine answered. *)
Theorem persisted_balance (self : Needler) (o : Oracle) (ld : Loaded)
  (b : Built) (fs : FileSystem) (fuel : nat) :
  Forall (fun pc =>
            forall p,
              nunique (peptide_ids_of p (snd pc)) = 0%nat \/
              Z.of_nat (nunique (peptide_ids_of p (snd pc)))
              = peps_per_prot self)
         (persisted (snd (optimize self o ld b fs fuel))).
Proof. apply persisted_all_or_nothing. Qed.

Lemma persisted_balance_witness :
  Forall (fun pc =>
            forall p,
              nunique (peptide_ids_of p (snd pc)) = 0%nat \/
              Z.of_nat (nunique (peptide_ids_of p (snd pc))) = 2)
         (persisted (snd (optimize scenario stalling scenario_loaded
                                   scenario_built fs0 4))).
Proof.
  exact (persisted_balance scenario stalling scenario_loaded scenario_built
           fs0 4).
Defined.

Lemma slot_bound_nonneg (e : Entropy) (self : Needler) (g : Globals)
  (ld : Loaded) (b : Built) (m : Model) :
  EntropyOk e ->
  build_model e self g ld = Ok b ->
  models m (assertions (solver b)) ->
  0 <= targets_per_cycle self ->
  forall t, 0 <= t ->
    selected_count m (slot_ids (rows (df ld)) t) <= targets_per_cycle self.
Proof.
  intros He Hb Hm HC t Ht.
  destruct (build_model_inv e He self g ld b Hb)
    as (k & lo & hi & bal & slots & _ & Hlo & Hhi & _ & Has & _ & Hslot & _).
  destruct (existsb (covers t) (rows (df ld))) eqn:Ex;
    [ | rewrite (slot_ids_empty _ _ Ex); exact HC ].
  pose proof Ex as Ex'.
  apply existsb_exists in Ex' as (r & Hr & Hc).
  unfold covers in Hc. apply andb_true_iff in Hc as [H1 H2].
  apply Z.leb_le in H1, H2.
  apply series_min_spec in Hlo as [_ Hlo].
  apply series_max_spec in Hhi as [_ Hhi].
  pose proof (proj1 (Forall_forall _ _) Hlo _ (in_map rt_start _ _ Hr)) as B1.
  pose proof (proj1 (Forall_forall _ _) Hhi _ (in_map rt_stop _ _ Hr)) as B2.
  cbv beta in B1, B2.
  destruct (Hslot t ltac:(lia) Ex) as (_ & a & Ha & Hs).
  etransitivity; [ | apply (c_uint_le _ HC) ].
  apply (slot_holds m _ _ a Hs).
  apply (proj1 (Forall_forall _ _) Hm). rewrite Has.
  right. apply in_or_app. right. now right.
Qed.

Lemma artifact_slot_le (self : Needler) (b : Built) (m : Model)
  (order : list string) (table : list Row) (f1 f2 : Row -> bool) (t : Z) :
  peptides b = declare_peptides order ->
  Z.of_nat (nunique (slot_ids
                       (artifact_of self b m
                          (map (fun r => set_flags (f1 r) (f2 r) r) table)) t))
  <= selected_count m (slot_ids table t).
Proof.
  intros Hp. unfold selected_count, nunique. apply inj_le.
  apply NoDup_incl_length; [ apply NoDup_nodup | ].
  intros x Hx. apply nodup_In in Hx. unfold slot_ids in Hx.
  apply in_map_iff in Hx as (r & <- & Hr).
  apply filter_In in Hr as [Hr Hc].
  unfold artifact_of, annotate in Hr. apply filter_In in Hr as [Hr Hflags].
  apply in_map_iff in Hr as (r1 & <- & Hr1).
  apply in_map_iff in Hr1 as (r0 & <- & Hr0).
  cbn [peptide_in_model protein_is_targeted set_flags peptide_id] in *.
  apply andb_true_iff in Hflags as [Hused _].
  rewrite Hp, used_pep_ids_declared in Hused.
  apply mem_In, filter_In in Hused as [_ Hm].
  apply filter_In. split; [ | exact Hm ].
  apply nodup_In. unfold slot_ids. apply in_map.
  apply filter_In. split; [ exact Hr0 | exact Hc ].
Qed.

(** X15. With an engine whose models satisfy the store, every persisted
    artifact respects the capacity: for each second [t >= 0], the rows of
    the artifact whose window covers [t] hold at most [targets_per_cycle]
    distinct peptides. *)
Theorem persisted_capacity (e : Entropy) (self : Needler) (g : Globals)
  (o : Oracle) (ld : Loaded) (b : Built) (fs : FileSystem) (fuel : nat) :
  EntropyOk e ->
  build_model e self g ld = Ok b ->
  sound o ->
  0 <= targets_per_cycle self ->
  Forall (fun pc =>
            forall t, 0 <= t ->
              Z.of_nat (nunique (slot_ids (snd pc) t))
              <= targets_per_cycle self)
         (persisted (snd (optimize self o ld b fs fuel))).
Proof.
  intros He Hb Hsound HC. unfold optimize.
  destruct (build_model_inv e He self g ld b Hb)
    as (k & lo & hi & bal & slots & _ & _ & _ & Hp & _).
  apply (while_true_inv self o b _
           (fun st =>
              incl (assertions (solver b)) (assertions (l_solver st)) /\
              (exists f1 f2,
                  rows (l_df st)
                  = map (fun r => set_flags (f1 r) (f2 r) r) (rows (df ld))) /\
              Forall (fun pc =>
                        forall t, 0 <= t ->
                          Z.of_nat (nunique (slot_ids (snd pc) t))
                          <= targets_per_cycle self)
                     (persisted st))).
  - intros st (Hincl & (f1 & f2 & Hrows) & Hper).
    assert (Hrows' : exists h1 h2,
               rows (l_df (snd (loop_body self o b
                                  (now o 0 + timeout self * 1000000) st)))
               = map (fun r => set_flags (h1 r) (h2 r) r) (rows (df ld))).
    { destruct (loop_body_df self o b (now o 0 + timeout self * 1000000) st)
        as (_ & g1 & g2 & ->).
      rewrite Hrows, map_map.
      exists (fun r => g1 (set_flags (f1 r) (f2 r) r)),
             (fun r => g2 (set_flags (f1 r) (f2 r) r)).
      reflexivity. }
    destruct (loop_body_iteration self o b
                (now o 0 + timeout self * 1000000) st) as (Hit & _ & _).
    remember (snd (loop_body self o b (now o 0 + timeout self * 1000000) st))
      as st'.
    remember (fst (loop_body self o b (now o 0 + timeout self * 1000000) st))
      as c.
    remember (check o (checks st) (l_solver st)) as r.
    destruct Hit as [ m c st' content pt _ _ _ _ Hpe _ Ha _
                    | m ex st' pt _ _ _ _ Hpe _ Ha
                    | m st' _ _ _ (_ & Hpe & Ha & _)
                    | st' _ _ (_ & Hpe & Ha & _)
                    | c st' _ _ (_ & Hpe & Ha & _) _ ];
      rewrite Hpe, Ha; (split; [ | split; [ exact Hrows' | ] ]);
      try assumption.
    + now apply incl_appl.
    + constructor; [ | assumption ].
      intros t Ht. cbn [snd]. subst content. rewrite Hrows.
      etransitivity; [ apply (artifact_slot_le self b m _ _ _ _ t Hp) | ].
      symmetry in Heqr. apply Hsound in Heqr.
      apply (slot_bound_nonneg e self g ld b m He Hb); try assumption.
      now apply (models_incl m _ _ Hincl).
  - split; [ apply incl_refl | split; [ | constructor ] ].
    exists peptide_in_model, protein_is_targeted.
    cbn [l_df]. symmetry.
    erewrite map_ext; [ apply map_id | ].
    intros r. apply set_flags_same.
Qed.

Lemma persisted_capacity_witness :
  Forall (fun pc =>
            forall t, 0 <= t ->
              Z.of_nat (nunique (slot_ids (snd pc) t)) <= 1)
         (persisted (snd (optimize scenario (one_model_engine scenario_model)
                                   scenario_loaded scenario_built fs0 4))).
Proof.
  apply (persisted_capacity entropy0 scenario (cli scenario)
           (one_model_engine scenario_model) scenario_loaded scenario_built
           fs0 4 entropy0_ok eq_refl).
  - apply one_model_engine_sound.
  - simpl. lia.
Defined.

(** ** The whole run *)

Lemma raw_set_flags (a c : bool) (r : Row) : raw (set_flags a c r) = raw r.
Proof. reflexivity. Qed.






(** ** The empty table *)

(** X18. Run as a script on a csv in which no protein has [peps_per_prot]
    distinct peptide sequences, [load] returns an empty table, on which
    [build_model] raises the Z3Exception of an [AtMost] without variables,
    so that [main] ends by this exception before any engine call and
    leaves the files as they were. *)
Theorem no_sufficient_protein_raises (e : Entropy) (self : Needler)
  (a : Namespace.t) (ld : Loaded) (o : Oracle) (fs : FileSystem)
  (fuel : nat) :
  EntropyOk e ->
  Namespace.peps_per_prot a = peps_per_prot self ->
  load e self (Some a) = Ok ld ->
  (forall r, In r (rows (db_src self)) ->
             sufficient (peps_per_prot self) (rows (db_src self)) r = false) ->
  rows (df ld) = [] /\
  build_model e self (Some a) ld
  = Raise (Z3Exception "Non empty list of arguments expected") /\
  main e self (Some a) o fs fuel
  = (Raised (Z3Exception "Non empty list of arguments expected"), fs).
Proof.
  intros He Ha Hl Hnone.
  destruct (load_rows_spec e self a ld He Ha Hl) as [Hperm _].
  assert (Hf : filter (sufficient (peps_per_prot self) (rows (db_src self)))
                      (rows (db_src self)) = []).
  { destruct (filter _ _) as [ | r t ] eqn:Ef; [ reflexivity | ].
    assert (Hr : In r (r :: t)) by now left.
    rewrite <- Ef in Hr. apply filter_In in Hr as [Hin Hs].
    rewrite (Hnone r Hin) in Hs. discriminate Hs. }
  rewrite Hf in Hperm. cbn [map] in Hperm.
  apply Permutation_nil in Hperm. apply map_eq_nil in Hperm.
  destruct (load_orders_spec e self (Some a) ld Hl) as (_ & _ & _ & Hpep).
  assert (Ho : peptide_order ld = []).
  { destruct (peptide_order ld) as [ | x t ]; [ reflexivity | ].
    destruct (proj1 (Hpep x) (or_introl eq_refl)) as (r & Hr & _).
    rewrite Hperm in Hr. destruct Hr. }
  assert (Hb : build_model e self (Some a) ld
               = Raise (Z3Exception "Non empty list of arguments expected")).
  { unfold build_model. rewrite Ho. reflexivity. }
  split; [ exact Hperm | ]. split; [ exact Hb | ].
  unfold main. rewrite Hl, Hb. reflexivity.
Qed.

Lemma no_sufficient_protein_raises_witness :
  rows (df lonely_loaded) = [] /\
  build_model entropy0 lonely (cli lonely) lonely_loaded
  = Raise (Z3Exception "Non empty list of arguments expected") /\
  main entropy0 lonely (cli lonely) undecided fs0 4
  = (Raised (Z3Exception "Non empty list of arguments expected"), fs0).
Proof.
  apply (no_sufficient_protein_raises entropy0 lonely (Namespace.mk false 2)
           lonely_loaded undecided fs0 4 entropy0_ok eq_refl).
  - vm_compute. reflexivity.
  - intros r [ <- | [] ]. vm_compute. reflexivity.
Defined.

(** ** The time budget *)

Lemma foldM_preserves {A S : Type} (P : S -> Prop) (f : S -> A -> result S)
  (l : list A) :
  (forall s x s', f s x = Ok s' -> P s -> P s') ->
  forall s s', foldM f l s = Ok s' -> P s -> P s'.
Proof.
  intros Hf. induction l as [ | x t IH ]; simpl; intros s s' H Hs.
  - now inversion H; subst.
  - destruct (f s x) as [ s1 | ex ] eqn:E; simpl in H; [ | discriminate H ].
    eapply IH; eauto.
Qed.

Lemma build_model_timeout (e : Entropy) (self : Needler) (g : Globals)
  (ld : Loaded) (b : Built) :
  build_model e self g ld = Ok b ->
  timeout_ms (solver b)
  = if 0 <? timeout self then Some (timeout self * 1000) else None.
Proof.
  unfold build_model. intros H.
  inv_bind H. inv_bind H. inv_bind H.
  destruct a1 as [[s2 targeted] calls].
  destruct (series_min (map rt_start (rows (df ld)))) as [ lo | ];
    [ | discriminate H ].
  destruct (series_max (map rt_stop (rows (df ld)))) as [ hi | ];
    [ | discriminate H ].
  destruct (shuffle_if e (shuffle self) calls (range (Z.max lo 0) (hi + 1)))
    as [steps calls'].
  inv_bind H. destruct a1 as [s4 calls4]. inversion H; subst; clear H.
  cbn [solver fst].
  set (t := if 0 <? timeout self then Some (timeout self * 1000) else None).
  apply (foldM_preserves (fun st => timeout_ms (fst st) = t)) in E2.
  - exact E2.
  - intros [s n] i [s' n'] Hs Ht. unfold slot_constraint in Hs.
    destruct (existsb (covers i) (rows (df ld))).
    + inv_bind Hs. inv_bind Hs.
      destruct (shuffle_if e (Namespace.shuffle a2) n a1) as [vars m].
      inv_bind Hs. inversion Hs; subst. exact Ht.
    + inversion Hs; subst. exact Ht.
  - cbn [fst solver_add timeout_ms].
    apply (foldM_preserves (fun st => timeout_ms (fst (fst st)) = t)) in E1.
    + exact E1.
    + intros [[s tg] n] prot [[s' tg'] n'] Hs Ht.
      unfold protein_constraint in Hs.
      inv_bind Hs. inv_bind Hs.
      destruct (shuffle_if e (Namespace.shuffle a2) n
                  (map (fun v => (v, 1)) a1)) as [pb m].
      inversion Hs; subst. exact Ht.
    + reflexivity.
Qed.

Lemma loop_body_timeout (self : Needler) (o : Oracle) (b : Built)
  (target_dt : Z) (st : Loop) :
  timeout_ms (l_solver (snd (loop_body self o b target_dt st)))
  = if 0 <? timeout self then
      Some (if target_dt - now o (S (checks st)) <? 0 then 1
            else Z.quot (target_dt - now o (S (checks st))) 1000000 * 1000)
    else timeout_ms (l_solver st).
Proof.
  unfold loop_body.
  destruct (check o (checks st) (l_solver st)) as [ m | | ].
  - destruct (best_ever_result st <? _).
    + destruct (save self _ _) as [fs' [ u | ex ]].
      * destruct (_ =? _); cbn [snd l_solver solver_add timeout_ms];
          destruct (0 <? timeout self); [ | reflexivity | | reflexivity ];
          destruct (_ <? 0); reflexivity.
      * cbn [snd l_solver]. destruct (0 <? timeout self); [ | reflexivity ].
        destruct (_ <? 0); reflexivity.
    + cbn [snd l_solver]. destruct (0 <? timeout self); [ | reflexivity ].
      destruct (_ <? 0); reflexivity.
  - cbn [snd l_solver]. destruct (0 <? timeout self); [ | reflexivity ].
    destruct (_ <? 0); reflexivity.
  - destruct (0 <? timeout self) eqn:Et.
    + destruct (_ <? 0) eqn:Er; cbn [snd l_solver]; reflexivity.
    + destruct (remainder_seconds st) as [ r | ];
        [ destruct (r <? 0) | ]; reflexivity.
Qed.

(** X19. With a clock that never reads earlier than at the start of
    [optimize], the timeout of the solver stays within the budget of the
    run: with a positive [timeout] it is, from [build_model] on and after
    every check, between 0 and [timeout] seconds in milliseconds (the whole
    seconds that remain, or 1 ms once the deadline has passed); without one
    it is never set. *)
Theorem budget_never_exceeds_timeout (e : Entropy) (self : Needler)
  (g : Globals) (o : Oracle) (ld : Loaded) (b : Built) (fs : FileSystem)
  (fuel : nat) :
  build_model e self g ld = Ok b ->
  (forall n, now o 0 <= now o n) ->
  budget_within self (solver b) /\
  budget_within self (l_solver (snd (optimize self o ld b fs fuel))).
Proof.
  intros Hb Hclock.
  assert (H0 : budget_within self (solver b)).
  { unfold budget_within. rewrite (build_model_timeout e self g ld b Hb).
    destruct (0 <? timeout self) eqn:Et.
    - apply Z.ltb_lt in Et. lia.
    - apply Z.ltb_ge in Et. exact Et. }
  split; [ exact H0 | ].
  unfold optimize.
  apply (while_true_inv self o b _ (fun st => budget_within self (l_solver st)));
    [ | exact H0 ].
  intros st Hst. unfold budget_within. rewrite loop_body_timeout.
  destruct (0 <? timeout self) eqn:Et.
  - apply Z.ltb_lt in Et. split; [ exact Et | ].
    pose proof (Hclock (S (checks st))) as Hn.
    set (rem := now o 0 + timeout self * 1000000 - now o (S (checks st))).
    assert (Hrem : rem <= timeout self * 1000000) by (unfold rem; lia).
    clearbody rem.
    destruct (rem <? 0) eqn:Er; [ lia | ].
    apply Z.ltb_ge in Er.
    assert (Hq : 0 <= Z.quot rem 1000000 <= timeout self).
    { rewrite Z.quot_div_nonneg by lia. split.
      - apply Z.div_pos; lia.
      - apply Z.div_le_upper_bound; lia. }
    lia.
  - exact Hst.
Qed.

Lemma budget_never_exceeds_timeout_witness :
  budget_within timed (solver timed_built) /\
  budget_within timed
    (l_solver (snd (optimize timed ticking timed_loaded timed_built fs0 4))).
Proof.
  apply (budget_never_exceeds_timeout entropy0 timed (cli timed) ticking
           timed_loaded timed_built fs0 4).
  - vm_compute. reflexivity.
  - intros n. cbn [now ticking]. lia.
Defined.

(** ** A destination without a directory part *)

Lemma loop_body_flat (self : Needler) (o : Oracle) (b : Built)
  (target_dt : Z) (st : Loop) :
  parent_dir self = "" ->
  exists out,
    fst (loop_body self o b target_dt st) = Break out /\
    out <> Solved /\
    persisted (snd (loop_body self o b target_dt st)) = persisted st /\
    l_fs (snd (loop_body self o b target_dt st)) = l_fs st /\
    (forall m, check o (checks st) (l_solver st) = sat m ->
               best_ever_result st < protein_target_of self b m (rows (l_df st)) ->
               out = Raised (FileNotFoundError "")).
Proof.
  intros Hpd. unfold loop_body.
  destruct (check o (checks st) (l_solver st)) as [ m | | ].
  - destruct (Z.ltb_spec (best_ever_result st)
                (protein_target_of self b m (rows (l_df st)))) as [ Hlt | Hge ].
    + match goal with
      | |- context [ save self ?d ?f ] =>
          destruct (save_cases self d f)
            as [ (_ & ->) | [ (N & _) | (N & _) ] ];
            [ | now elim N | now elim N ]
      end.
      cbn [fst snd persisted l_fs]. eexists.
      split; [ reflexivity | ]. split; [ discriminate | ].
      split; [ reflexivity | ]. split; [ reflexivity | ].
      intros m' _ _. reflexivity.
    + cbn [fst snd persisted l_fs]. eexists.
      split; [ reflexivity | ]. split; [ discriminate | ].
      split; [ reflexivity | ]. split; [ reflexivity | ].
      intros m' [= <-] Hlt. lia.
  - cbn [fst snd persisted l_fs]. eexists.
    split; [ reflexivity | ]. split; [ discriminate | ].
    split; [ reflexivity | ]. split; [ reflexivity | ]. discriminate.
  - destruct (if 0 <? timeout self then _ else _) as [ r | ];
      [ destruct (r <? 0) | ]; cbn [fst snd persisted l_fs]; eexists;
      (split; [ reflexivity | ]); (split; [ discriminate | ]);
      (split; [ reflexivity | ]); (split; [ reflexivity | ]); discriminate.
Qed.

(** X20. When [dst] has no directory part (it holds no "/"), [save]
    cannot succeed, as [os.makedirs] is called on the empty path: the loop
    makes at most one check, persists nothing, leaves the file system as it
    was and never ends as solved; and if the first answer of the engine is
    a solution that targets at least one protein, the run ends by
    FileNotFoundError. *)
Theorem flat_destination_never_saves (self : Needler) (o : Oracle)
  (ld : Loaded) (b : Built) (fs : FileSystem) (fuel : nat) :
  has_sep (dst self) = false ->
  let run := optimize self o ld b fs fuel in
  persisted (snd run) = [] /\
  l_fs (snd run) = fs /\
  (checks (snd run) <= 1)%nat /\
  fst run <> Solved /\
  (forall m,
      (0 < fuel)%nat ->
      check o 0 (solver b) = sat m ->
      0 < protein_target_of self b m (rows (df ld)) ->
      fst run = Raised (FileNotFoundError "")).
Proof.
  intros Hsep. apply parent_dir_empty in Hsep. cbv zeta. unfold optimize.
  destruct fuel as [ | fuel ]; cbn [while_true].
  { cbn [fst snd persisted l_fs checks].
    repeat (split; [ reflexivity || lia || discriminate | ]).
    intros m Hf. lia. }
  destruct (loop_body_flat self o b (now o 0 + timeout self * 1000000)
              (mkLoop (solver b) (df ld) fs 0 None 0 0 0 []) Hsep)
    as (out & Hout & Hns & Hp & Hf & Hraise).
  destruct (loop_body_iteration self o b (now o 0 + timeout self * 1000000)
              (mkLoop (solver b) (df ld) fs 0 None 0 0 0 []))
    as (_ & Hchecks & _).
  destruct (loop_body self o b (now o 0 + timeout self * 1000000)
              (mkLoop (solver b) (df ld) fs 0 None 0 0 0 []))
    as [ctl st'].
  cbn [fst snd] in *. subst ctl. cbn [fst snd persisted l_fs checks] in *.
  split; [ exact Hp | ]. split; [ exact Hf | ]. split; [ lia | ].
  split; [ exact Hns | ].
  intros m _ Hm Hpt. f_equal. now apply (Hraise m).
Qed.

Lemma flat_destination_never_saves_witness :
  fst (optimize flat stalling scenario_loaded scenario_built fs0 4)
  = Raised (FileNotFoundError "") /\
  l_fs (snd (optimize flat stalling scenario_loaded scenario_built fs0 4))
  = fs0.
Proof.
  destruct (flat_destination_never_saves flat stalling scenario_loaded
              scenario_built fs0 4 eq_refl) as (_ & Hfs & _ & _ & Hraise).
  split; [ | exact Hfs ].
  apply (Hraise scenario_model); [ lia | reflexivity | reflexivity ].
Defined.

(** ** A bound of a time slot that z3 refuses *)

Lemma foldM_raises {A S : Type} (f : S -> A -> result S) (l : list A)
  (ex : exn) (x : A) :
  In x l ->
  (forall s, f s x = Raise ex) ->
  (forall s y, (exists s', f s y = Ok s') \/ f s y = Raise ex) ->
  forall s, foldM f l s = Raise ex.
Proof.
  intros Hx Hr Hall. induction l as [ | y t IH ]; [ destruct Hx | ].
  intros s. simpl. destruct Hx as [ -> | Hx ].
  - now rewrite Hr.
  - destruct (Hall s y) as [ (s' & ->) | -> ]; [ | reflexivity ].
    simpl. now apply IH.
Qed.

Lemma slot_constraint_refused (e : Entropy) (self : Needler)
  (a : Namespace.t) (ld : Loaded) (s : Solver) (n : nat) (i : Z) :
  EntropyOk e ->
  (forall r, In r (rows (df ld)) -> In (peptide_id r) (peptide_order ld)) ->
  z3_bound (targets_per_cycle self) = false ->
  slot_constraint e self (Some a) ld (declare_peptides (peptide_order ld))
    (s, n) i
  = if existsb (covers i) (rows (df ld))
    then Raise (Z3Exception
                  "function expects one non-negative integer parameter")
    else Ok (s, n).
Proof.
  intros He Hord HC. unfold slot_constraint.
  destruct (existsb (covers i) (rows (df ld))) eqn:Ex; [ | reflexivity ].
  rewrite lookup_all_declared.
  - cbn [bind global_args].
    destruct (shuffle_if e (Namespace.shuffle a) n
                (map Bool (py_set e (map peptide_id
                   (filter (covers i) (rows (df ld)))))))
      as [vars n'] eqn:S.
    destruct vars as [ | v0 vs0 ].
    + exfalso.
      pose proof (shuffle_if_perm e He _ (Namespace.shuffle a) n
                    (map Bool (py_set e (map peptide_id
                       (filter (covers i) (rows (df ld))))))) as P.
      rewrite S in P. simpl in P. apply Permutation_sym, Permutation_nil in P.
      apply map_eq_nil in P.
      pose proof (py_set_perm e He (map peptide_id
                    (filter (covers i) (rows (df ld))))) as P2.
      rewrite P in P2. apply Permutation_sym, Permutation_nil in P2.
      apply existsb_exists in Ex as (r & Hr & Hc).
      assert (Hin : In (peptide_id r)
                       (nodup string_dec
                          (map peptide_id (filter (covers i) (rows (df ld)))))).
      { apply nodup_In, in_map, filter_In. auto. }
      rewrite P2 in Hin. destruct Hin.
    + cbn [z3_AtMost]. unfold z3_bound in HC. rewrite HC. reflexivity.
  - intros x Hx.
    apply (Permutation_in _ (Permutation_sym (py_set_perm e He _))) in Hx.
    apply nodup_In in Hx.
    apply in_map_iff in Hx as (r & <- & Hr).
    apply filter_In in Hr as [Hr _]. now apply Hord.
Qed.

(** X21. A number of targets per cycle that z3 refuses as the bound of an
    [AtMost] (as a C unsigned int it is [2^31] or more: every value of
    [-2^31, 0), such as [--targets -1]) makes [build_model] raise a
    Z3Exception on every table that [load] produced in which some second
    from 0 on lies in the window of a peptide: no model is built. *)
Lemma refused_targets_raise (e : Entropy) (self : Needler) (a : Namespace.t)
  (ld : Loaded) (i : Z) :
  EntropyOk e ->
  load e self (Some a) = Ok ld ->
  z3_bound (targets_per_cycle self) = false ->
  0 <= i ->
  existsb (covers i) (rows (df ld)) = true ->
  exists msg, build_model e self (Some a) ld = Raise (Z3Exception msg).
Proof.
  intros He Hl HC Hi Hcov.
  pose proof (load_peptide_order e self (Some a) ld He Hl) as Hord.
  pose proof Hcov as Hcov'.
  apply existsb_exists in Hcov' as (r & Hr & Hc).
  unfold covers in Hc. apply andb_true_iff in Hc as [Hc1 Hc2].
  apply Z.leb_le in Hc1, Hc2.
  assert (Hne : rows (df ld) <> []) by (intros E; rewrite E in Hr; destruct Hr).
  assert (Hhi : exists hi, series_max (map rt_stop (rows (df ld))) = Some hi).
  { destruct (rows (df ld)); [ now elim Hne | simpl; eauto ]. }
  assert (Hlo : exists lo, series_min (map rt_start (rows (df ld))) = Some lo).
  { destruct (rows (df ld)); [ now elim Hne | simpl; eauto ]. }
  assert (Hp : exists v vs, map Bool (peptide_order ld) = v :: vs).
  { destruct (peptide_order ld) as [ | x t ] eqn:Eo.
    - destruct (Hord r Hr).
    - simpl. eauto. }
  destruct Hhi as (hi & Hhi). destruct Hlo as (lo & Hlo).
  destruct Hp as (v & vs & Hp).
  assert (Hk : exists k, max_targetable self ld = Some k)
    by (unfold max_targetable; rewrite Hhi, Hlo; eauto).
  destruct Hk as (k & Hk).
  assert (Hrange : Z.max lo 0 <= i < hi + 1).
  { apply series_min_spec in Hlo as [_ Hlo].
    apply series_max_spec in Hhi as [_ Hhi].
    rewrite Forall_forall in Hlo, Hhi.
    pose proof (Hlo _ (in_map rt_start _ _ Hr)).
    pose proof (Hhi _ (in_map rt_stop _ _ Hr)). lia. }
  unfold build_model. rewrite Hlo, Hhi.
  rewrite lookup_all_declared by apply incl_refl. cbn [bind].
  rewrite Hk, Hp. cbn [z3_AtMost].
  destruct (c_uint k <? 2147483648); [ | cbn [bind]; eauto ].
  cbn [bind]. rewrite <- Hp.
  match goal with
  | |- context [ foldM ?f (protein_order ld) ?init ] =>
      assert (Hbal : exists st, foldM f (protein_order ld) init = Ok st);
        [ apply foldM_total | destruct Hbal as ([[s2 t2] n2] & ->) ]
  end.
  { intros [[s t] n] prot _. unfold protein_constraint.
    rewrite lookup_all_declared.
    - cbn [bind global_args].
      destruct (shuffle_if e (Namespace.shuffle a) n _). eauto.
    - intros x Hx.
      apply (Permutation_in _ (Permutation_sym (py_set_perm e He _))) in Hx.
      apply nodup_In in Hx. unfold peptide_ids_of in Hx.
      apply in_map_iff in Hx as (r0 & <- & Hr0).
      apply filter_In in Hr0 as [Hr0 _]. now apply Hord. }
  cbn [bind].
  match goal with
  | |- context [ shuffle_if ?ee ?bb ?nn ?ll ] =>
      pose proof (shuffle_if_perm ee He _ bb nn ll) as Hperm;
      destruct (shuffle_if ee bb nn ll) as [steps calls]
  end.
  simpl in Hperm.
  rewrite (foldM_raises _ steps
             (Z3Exception "function expects one non-negative integer parameter")
             i).
  - cbn [bind]. eauto.
  - eapply Permutation_in; [ exact Hperm | ]. now apply range_In.
  - intros [s n]. rewrite slot_constraint_refused by assumption.
    now rewrite Hcov.
  - intros [s n] y. rewrite slot_constraint_refused by assumption.
    destruct (existsb (covers y) (rows (df ld))); eauto.
Qed.

Lemma refused_targets_raise_witness :
  exists msg,
    build_model entropy0 lacking (cli lacking) scenario_loaded
    = Raise (Z3Exception msg).
Proof.
  apply (refused_targets_raise entropy0 lacking (Namespace.mk false 2)
           scenario_loaded 0 entropy0_ok).
  - vm_compute. reflexivity.
  - reflexivity.
  - lia.
  - vm_compute. reflexivity.
Defined.
